(** * rsx::surface_store (rpcs3/Emu/RSX/Common/surface_store.h)

    A shallow embedding of the render-surface store: the per-surface
    descriptor with its memory-tag fingerprint, the two address-indexed
    maps, the bind protocol, the overlap query, the memory tree and the
    write notification.  Surfaces live in a heap indexed by handles
    (the C++ raw pointers); calls into the backend [Traits] are recorded
    in a trace. *)

From Stdlib Require Import ZArith Lia Bool.
From stdpp Require Import gmap list fin_maps sorting.

Local Open Scope Z_scope.

(** ** Machine integers *)

(** Unsigned wrap-around of [u16], [u32]; [s32] is the two's complement
    value an [int] product takes on the targets the emulator builds for. *)
Definition u16 (x : Z) : Z := x mod 2 ^ 16.
Definition u32 (x : Z) : Z := x mod 2 ^ 32.
Definition s32 (x : Z) : Z := (x + 2 ^ 31) mod 2 ^ 32 - 2 ^ 31.

(** ** GCM enumerations *)

(** Modelled from the spec: the enumeration [rsx::surface_antialiasing] is
    declared in GCM.h; the source compares its values with [>], in the
    order center_1_sample < diagonal_centered_2_samples < the 4-sample
    modes. *)
Inductive surface_antialiasing : Type :=
| center_1_sample
| diagonal_centered_2_samples
| square_centered_4_samples
| square_rotated_4_samples.

Definition aa_value (m : surface_antialiasing) : Z :=
  match m with
  | center_1_sample => 0
  | diagonal_centered_2_samples => 3
  | square_centered_4_samples => 4
  | square_rotated_4_samples => 5
  end.

Definition aa_gt (a b : surface_antialiasing) : bool := aa_value b <? aa_value a.

(** ** Plain structures *)

(** A [surface_type] is a raw pointer; [None] is [nullptr]. *)
Definition handle : Type := nat.

Record surface_format_info : Type := mk_surface_format_info {
  surface_width : Z;
  surface_height : Z;
  native_pitch : Z;
  rsx_pitch : Z;
  bpp : Z
}.

Record surface_overlap_info : Type := mk_surface_overlap_info {
  surface : handle;
  base_address : Z;
  is_depth : bool;
  is_clipped : bool;
  src_x : Z;
  src_y : Z;
  dst_x : Z;
  dst_y : Z;
  width : Z;
  height : Z
}.

Record memory_overlap_t : Type := mk_memory_overlap {
  _ref : handle;
  ov_memory_address : Z;
  ov_x : Z;
  ov_y : Z;
  ov_w : Z;
  ov_h : Z
}.

Record surface_hierachy_info : Type := mk_surface_hierachy_info {
  memory_address : Z;
  memory_range : Z;
  memory_contents : option handle;
  overlapping_set : list memory_overlap_t
}.

(** ** render_target_descriptor *)

(** The data members of the descriptor, followed by the answers of the
    concrete surface class to the pure virtual getters. *)
Record render_target_descriptor : Type := mk_render_target_descriptor {
  last_use_tag : Z;
  memory_tag_samples : list (Z * Z);
  dirty : bool;
  old_contents : option handle;
  read_aa_mode : surface_antialiasing;
  tile : option Z;
  write_aa_mode : surface_antialiasing;
  get_surface_width : Z;
  get_surface_height : Z;
  get_rsx_pitch : Z;
  get_native_pitch : Z;
  is_depth_surface : bool
}.

Definition set_memory_tag_samples (l : list (Z * Z)) (d : render_target_descriptor)
  : render_target_descriptor :=
  mk_render_target_descriptor (last_use_tag d) l (dirty d) (old_contents d)
    (read_aa_mode d) (tile d) (write_aa_mode d) (get_surface_width d)
    (get_surface_height d) (get_rsx_pitch d) (get_native_pitch d) (is_depth_surface d).

Definition set_last_use_tag (t : Z) (d : render_target_descriptor)
  : render_target_descriptor :=
  mk_render_target_descriptor t (memory_tag_samples d) (dirty d) (old_contents d)
    (read_aa_mode d) (tile d) (write_aa_mode d) (get_surface_width d)
    (get_surface_height d) (get_rsx_pitch d) (get_native_pitch d) (is_depth_surface d).

Definition set_dirty (b : bool) (d : render_target_descriptor)
  : render_target_descriptor :=
  mk_render_target_descriptor (last_use_tag d) (memory_tag_samples d) b (old_contents d)
    (read_aa_mode d) (tile d) (write_aa_mode d) (get_surface_width d)
    (get_surface_height d) (get_rsx_pitch d) (get_native_pitch d) (is_depth_surface d).

Definition set_old_contents_field (o : option handle) (d : render_target_descriptor)
  : render_target_descriptor :=
  mk_render_target_descriptor (last_use_tag d) (memory_tag_samples d) (dirty d) o
    (read_aa_mode d) (tile d) (write_aa_mode d) (get_surface_width d)
    (get_surface_height d) (get_rsx_pitch d) (get_native_pitch d) (is_depth_surface d).

Definition set_read_aa_mode (m : surface_antialiasing) (d : render_target_descriptor)
  : render_target_descriptor :=
  mk_render_target_descriptor (last_use_tag d) (memory_tag_samples d) (dirty d)
    (old_contents d) m (tile d) (write_aa_mode d) (get_surface_width d)
    (get_surface_height d) (get_rsx_pitch d) (get_native_pitch d) (is_depth_surface d).

Definition set_write_aa_mode (m : surface_antialiasing) (d : render_target_descriptor)
  : render_target_descriptor :=
  mk_render_target_descriptor (last_use_tag d) (memory_tag_samples d) (dirty d)
    (old_contents d) (read_aa_mode d) (tile d) m (get_surface_width d)
    (get_surface_height d) (get_rsx_pitch d) (get_native_pitch d) (is_depth_surface d).

(** Guest memory as seen through [vm::g_sudo_addr]: the 64-bit word read
    at a guest address. *)
Definition guest_memory : Type := Z -> Z.

Definition save_aa_mode (d : render_target_descriptor) : render_target_descriptor :=
  set_write_aa_mode center_1_sample (set_read_aa_mode (write_aa_mode d) d).

Definition reset_aa_mode (d : render_target_descriptor) : render_target_descriptor :=
  set_write_aa_mode center_1_sample (set_read_aa_mode center_1_sample d).

(** The loop of [test]: stops at the first entry whose address is 0,
    fails at the first entry whose value differs from guest memory. *)
Fixpoint test_samples (mem : guest_memory) (l : list (Z * Z)) : bool :=
  match l with
  | [] => true
  | (a, v) :: r =>
      if a =? 0 then true
      else if v =? mem a then test_samples mem r else false
  end.

Definition test (mem : guest_memory) (d : render_target_descriptor) : bool :=
  test_samples mem (memory_tag_samples d).

(** [memory_tag_samples[i].first = a]; the array has five entries and the
    source only writes indices below five. *)
Fixpoint set_sample_address (i : nat) (a : Z) (l : list (Z * Z)) : list (Z * Z) :=
  match l, i with
  | [], _ => []
  | (_, v) :: r, O => (a, v) :: r
  | p :: r, S j => p :: set_sample_address j a r
  end.

(** The first loop of [queue_tag]: entry 0 takes the address, every other
    entry address 0; the values are left as they are. *)
Definition reset_sample_addresses (address : Z) (l : list (Z * Z)) : list (Z * Z) :=
  imap (fun i p => (if decide (i = O) then address else 0, p.2)) l.

Definition queue_tag (address : Z) (d : render_target_descriptor)
  : render_target_descriptor :=
  let s0 := reset_sample_addresses address (memory_tag_samples d) in
  let pitch := get_native_pitch d in
  if pitch <? 16 then set_memory_tag_samples s0 d
  else
    let s1 := set_sample_address 1 (u32 (address + pitch - 8)) s0 in
    let h := get_surface_height d in
    if 1 <? h then
      let pitch2 := get_rsx_pitch d in
      let last_row_offset := u32 (pitch2 * (h - 1)) in
      let s2 := set_sample_address 2 (u32 (address + last_row_offset)) s1 in
      let s3 := set_sample_address 3 (u32 (address + last_row_offset + pitch - 8)) s2 in
      let center_row_offset := u32 (pitch2 * (h / 2)) in
      let s4 := set_sample_address 4 (u32 (address + center_row_offset + pitch / 2)) s3 in
      set_memory_tag_samples s4 d
    else set_memory_tag_samples s1 d.

(** The loop of [sync_tag]: every entry before the first address 0 takes
    the current guest word. *)
Fixpoint sync_samples (mem : guest_memory) (l : list (Z * Z)) : list (Z * Z) :=
  match l with
  | [] => []
  | (a, v) :: r => if a =? 0 then (a, v) :: r else (a, mem a) :: sync_samples mem r
  end.

Definition sync_tag (mem : guest_memory) (d : render_target_descriptor)
  : render_target_descriptor :=
  set_memory_tag_samples (sync_samples mem (memory_tag_samples d)) d.

(** [render_target_descriptor::on_write(write_tag)]. *)
Definition desc_on_write (mem : guest_memory) (write_tag : Z) (d : render_target_descriptor)
  : render_target_descriptor :=
  let d1 := if write_tag =? 0 then d else set_last_use_tag write_tag d in
  let d2 := sync_tag mem d1 in
  let d3 := set_read_aa_mode (write_aa_mode d2) d2 in
  let d4 := set_dirty false d3 in
  set_old_contents_field None d4.

(** The armed samples of a fingerprint: the entries before the first one
    whose address is 0. *)
Fixpoint armed (l : list (Z * Z)) : list (Z * Z) :=
  match l with
  | [] => []
  | (a, v) :: r => if a =? 0 then [] else (a, v) :: armed r
  end.

(** ** Collaborators declared outside this header *)

(** Modelled from the spec: [rsx::address_range] (rsx_utils.h) is the
    tracked [min, max] interval of guest addresses; a default-constructed
    range covers nothing, [get_min_max] expands a range to cover another
    one and [overlaps] is the interval intersection test. *)
Record address_range : Type := mk_address_range {
  range_start : Z;
  range_end : Z
}.

Definition invalid_range : address_range := mk_address_range (2 ^ 32 - 1) 0.

Definition start_length (start len : Z) : address_range :=
  mk_address_range start (u32 (start + len - 1)).

Definition start_end (start end_ : Z) : address_range := mk_address_range start end_.

Definition range_valid (r : address_range) : bool := range_start r <=? range_end r.

Definition get_min_max (r other : address_range) : address_range :=
  mk_address_range
    (Z.min (if range_valid r then range_start r else 2 ^ 32 - 1)
           (if range_valid other then range_start other else 2 ^ 32 - 1))
    (Z.max (if range_valid r then range_end r else 0)
           (if range_valid other then range_end other else 0)).

Definition overlaps (r other : address_range) : bool :=
  (range_start r <=? range_end other) && (range_start other <=? range_end r).

(** The colour and depth formats the header names in its readback
    switches. *)
Inductive surface_color_format : Type :=
| a8b8g8r8 | x8b8g8r8_o8b8g8r8 | x8b8g8r8_z8b8g8r8
| a8r8g8b8 | x8r8g8b8_o8r8g8b8 | x8r8g8b8_z8r8g8b8 | x32
| b8 | g8b8 | r5g6b5 | x1r5g5b5_o1r5g5b5 | x1r5g5b5_z1r5g5b5
| w32z32y32x32 | w16z16y16x16.

Inductive surface_depth_format : Type := z16 | z24s8.

(** Modelled from the spec: [rsx::surface_target] (GCM.h) is the MRT layout
    tag, the enabled subset of the colour render targets. *)
Inductive surface_target : Type :=
| target_none | surface_a | surface_b | surfaces_a_b | surfaces_a_b_c | surfaces_a_b_c_d.

(** The backend, as the template parameter [Traits] and the free functions
    of [rsx] and [rsx::utility] the store calls ([pitch_compatible],
    [get_rtt_indexes]).  The operations with an observable
    answer are functions of the surface object; the operations called for
    their effect on the host are recorded as [backend_call]s. *)
Class Traits : Type := mk_Traits {
  create_new_color_surface :
    Z -> surface_color_format -> Z -> Z -> Z -> option handle -> render_target_descriptor;
  create_new_depth_surface :
    Z -> surface_depth_format -> Z -> Z -> Z -> option handle -> render_target_descriptor;
  rtt_has_format_width_height :
    render_target_descriptor -> surface_color_format -> Z -> Z -> bool -> bool;
  ds_has_format_width_height :
    render_target_descriptor -> surface_depth_format -> Z -> Z -> bool -> bool;
  surface_is_pitch_compatible : render_target_descriptor -> Z -> bool;
  get_surface_info : render_target_descriptor -> surface_format_info;
  pitch_compatible : render_target_descriptor -> Z -> Z -> bool;
  get_rtt_indexes : surface_target -> list nat
}.

Inductive backend_call : Type :=
| notify_surface_invalidated (st : handle)
| notify_surface_persist (st : handle)
| invalidate_surface_contents (surf : handle) (source : option handle) (address pitch : Z)
| prepare_rtt_for_drawing (surf : handle)
| prepare_rtt_for_sampling (surf : handle)
| prepare_ds_for_drawing (surf : handle)
| prepare_ds_for_sampling (surf : handle)
| create_new_surface (address w h pitch : Z) (contents : option handle) (result : handle)
| read_barrier (surf : handle).

Global Instance backend_call_eq_dec : EqDecision backend_call.
Proof. solve_decision. Defined.

(** ** surface_store *)

(** The members of the store, then what the store shares with the rest of
    the emulator: the surface objects its pointers refer to, the next
    pointer the backend allocates, the counter behind
    [rsx::get_shared_tag] and the calls made into the backend so far. *)
Record surface_store : Type := mk_surface_store {
  m_render_targets_storage : gmap Z handle;
  m_depth_stencil_storage : gmap Z handle;
  m_render_targets_memory_range : address_range;
  m_depth_stencil_memory_range : address_range;
  m_bound_render_targets : list (Z * option handle);
  m_bound_depth_stencil : Z * option handle;
  invalidated_resources : list handle;
  m_memory_tree : list surface_hierachy_info;
  cache_tag : Z;
  write_tag : Z;
  memory_tag : Z;
  heap : gmap handle render_target_descriptor;
  next_handle : handle;
  shared_tag : Z;
  trace : list backend_call
}.

Definition empty_store : surface_store :=
  mk_surface_store ∅ ∅ invalid_range invalid_range
    (replicate 4 (0, None)) (0, None) [] [] 0 0 0 ∅ 1%nat 1 [].

Definition set_render_targets_storage (m : gmap Z handle) (s : surface_store) :=
  mk_surface_store m (m_depth_stencil_storage s) (m_render_targets_memory_range s)
    (m_depth_stencil_memory_range s) (m_bound_render_targets s) (m_bound_depth_stencil s)
    (invalidated_resources s) (m_memory_tree s) (cache_tag s) (write_tag s) (memory_tag s)
    (heap s) (next_handle s) (shared_tag s) (trace s).

Definition set_depth_stencil_storage (m : gmap Z handle) (s : surface_store) :=
  mk_surface_store (m_render_targets_storage s) m (m_render_targets_memory_range s)
    (m_depth_stencil_memory_range s) (m_bound_render_targets s) (m_bound_depth_stencil s)
    (invalidated_resources s) (m_memory_tree s) (cache_tag s) (write_tag s) (memory_tag s)
    (heap s) (next_handle s) (shared_tag s) (trace s).

Definition set_render_targets_memory_range (r : address_range) (s : surface_store) :=
  mk_surface_store (m_render_targets_storage s) (m_depth_stencil_storage s) r
    (m_depth_stencil_memory_range s) (m_bound_render_targets s) (m_bound_depth_stencil s)
    (invalidated_resources s) (m_memory_tree s) (cache_tag s) (write_tag s) (memory_tag s)
    (heap s) (next_handle s) (shared_tag s) (trace s).

Definition set_depth_stencil_memory_range (r : address_range) (s : surface_store) :=
  mk_surface_store (m_render_targets_storage s) (m_depth_stencil_storage s)
    (m_render_targets_memory_range s) r (m_bound_render_targets s) (m_bound_depth_stencil s)
    (invalidated_resources s) (m_memory_tree s) (cache_tag s) (write_tag s) (memory_tag s)
    (heap s) (next_handle s) (shared_tag s) (trace s).

Definition set_bound_render_targets (b : list (Z * option handle)) (s : surface_store) :=
  mk_surface_store (m_render_targets_storage s) (m_depth_stencil_storage s)
    (m_render_targets_memory_range s) (m_depth_stencil_memory_range s) b
    (m_bound_depth_stencil s) (invalidated_resources s) (m_memory_tree s) (cache_tag s)
    (write_tag s) (memory_tag s) (heap s) (next_handle s) (shared_tag s) (trace s).

Definition set_bound_depth_stencil (b : Z * option handle) (s : surface_store) :=
  mk_surface_store (m_render_targets_storage s) (m_depth_stencil_storage s)
    (m_render_targets_memory_range s) (m_depth_stencil_memory_range s)
    (m_bound_render_targets s) b (invalidated_resources s) (m_memory_tree s) (cache_tag s)
    (write_tag s) (memory_tag s) (heap s) (next_handle s) (shared_tag s) (trace s).

Definition set_invalidated_resources (l : list handle) (s : surface_store) :=
  mk_surface_store (m_render_targets_storage s) (m_depth_stencil_storage s)
    (m_render_targets_memory_range s) (m_depth_stencil_memory_range s)
    (m_bound_render_targets s) (m_bound_depth_stencil s) l (m_memory_tree s) (cache_tag s)
    (write_tag s) (memory_tag s) (heap s) (next_handle s) (shared_tag s) (trace s).

Definition set_memory_tree (t : list surface_hierachy_info) (s : surface_store) :=
  mk_surface_store (m_render_targets_storage s) (m_depth_stencil_storage s)
    (m_render_targets_memory_range s) (m_depth_stencil_memory_range s)
    (m_bound_render_targets s) (m_bound_depth_stencil s) (invalidated_resources s) t
    (cache_tag s) (write_tag s) (memory_tag s) (heap s) (next_handle s) (shared_tag s)
    (trace s).

Definition set_cache_tag (t : Z) (s : surface_store) :=
  mk_surface_store (m_render_targets_storage s) (m_depth_stencil_storage s)
    (m_render_targets_memory_range s) (m_depth_stencil_memory_range s)
    (m_bound_render_targets s) (m_bound_depth_stencil s) (invalidated_resources s)
    (m_memory_tree s) t (write_tag s) (memory_tag s) (heap s) (next_handle s)
    (shared_tag s) (trace s).

Definition set_write_tag (t : Z) (s : surface_store) :=
  mk_surface_store (m_render_targets_storage s) (m_depth_stencil_storage s)
    (m_render_targets_memory_range s) (m_depth_stencil_memory_range s)
    (m_bound_render_targets s) (m_bound_depth_stencil s) (invalidated_resources s)
    (m_memory_tree s) (cache_tag s) t (memory_tag s) (heap s) (next_handle s)
    (shared_tag s) (trace s).

Definition set_memory_tag (t : Z) (s : surface_store) :=
  mk_surface_store (m_render_targets_storage s) (m_depth_stencil_storage s)
    (m_render_targets_memory_range s) (m_depth_stencil_memory_range s)
    (m_bound_render_targets s) (m_bound_depth_stencil s) (invalidated_resources s)
    (m_memory_tree s) (cache_tag s) (write_tag s) t (heap s) (next_handle s)
    (shared_tag s) (trace s).

Definition set_heap (h : gmap handle render_target_descriptor) (s : surface_store) :=
  mk_surface_store (m_render_targets_storage s) (m_depth_stencil_storage s)
    (m_render_targets_memory_range s) (m_depth_stencil_memory_range s)
    (m_bound_render_targets s) (m_bound_depth_stencil s) (invalidated_resources s)
    (m_memory_tree s) (cache_tag s) (write_tag s) (memory_tag s) h (next_handle s)
    (shared_tag s) (trace s).

Definition set_next_handle (n : handle) (s : surface_store) :=
  mk_surface_store (m_render_targets_storage s) (m_depth_stencil_storage s)
    (m_render_targets_memory_range s) (m_depth_stencil_memory_range s)
    (m_bound_render_targets s) (m_bound_depth_stencil s) (invalidated_resources s)
    (m_memory_tree s) (cache_tag s) (write_tag s) (memory_tag s) (heap s) n
    (shared_tag s) (trace s).

Definition set_shared_tag (t : Z) (s : surface_store) :=
  mk_surface_store (m_render_targets_storage s) (m_depth_stencil_storage s)
    (m_render_targets_memory_range s) (m_depth_stencil_memory_range s)
    (m_bound_render_targets s) (m_bound_depth_stencil s) (invalidated_resources s)
    (m_memory_tree s) (cache_tag s) (write_tag s) (memory_tag s) (heap s) (next_handle s)
    t (trace s).

(** A call into the backend, appended to the trace. *)
Definition call (e : backend_call) (s : surface_store) :=
  mk_surface_store (m_render_targets_storage s) (m_depth_stencil_storage s)
    (m_render_targets_memory_range s) (m_depth_stencil_memory_range s)
    (m_bound_render_targets s) (m_bound_depth_stencil s) (invalidated_resources s)
    (m_memory_tree s) (cache_tag s) (write_tag s) (memory_tag s) (heap s) (next_handle s)
    (shared_tag s) (trace s ++ [e]).

(** Modelled from the spec: [rsx::get_shared_tag] (rsx_utils.h) hands out
    the next value of a counter shared by the whole emulator. *)
Definition get_shared_tag (s : surface_store) : Z * surface_store :=
  (shared_tag s, set_shared_tag (shared_tag s + 1) s).

Section Store.
Context {T : Traits}.

(** [get_aa_factor_v]. *)
Definition get_aa_factor_v (aa_mode : surface_antialiasing) : Z :=
  match aa_mode with
  | center_1_sample | diagonal_centered_2_samples => 1
  | _ => 2
  end.

(** A predicate of the backend on a storage, through the pointer. *)
Definition on_storage (p : render_target_descriptor -> bool) (s : surface_store)
  (st : handle) : bool :=
  match heap s !! st with
  | Some d => p d
  | None => false
  end.

(** The search loop over [invalidated_resources]: the entries before the
    first storage the predicate accepts, that storage, the entries after. *)
Fixpoint find_reusable (p : handle -> bool) (l : list handle)
  : option (list handle * handle * list handle) :=
  match l with
  | [] => None
  | st :: r =>
      if p st then Some ([], st, r)
      else match find_reusable p r with
           | Some (pre, hit, post) => Some (st :: pre, hit, post)
           | None => None
           end
  end.

(** Lines 391-399: remove a depth surface occupying the address.  Returns
    [convert_surface]. *)
Definition evict_aliased_depth (address : Z) (s : surface_store)
  : option handle * surface_store :=
  match m_depth_stencil_storage s !! address with
  | Some st =>
      let s1 := call (notify_surface_invalidated st) s in
      let s2 := set_invalidated_resources (invalidated_resources s1 ++ [st]) s1 in
      (Some st, set_depth_stencil_storage (delete address (m_depth_stencil_storage s2)) s2)
  | None => (None, s)
  end.

(** Lines 487-495: the same for a colour surface occupying the address. *)
Definition evict_aliased_rtt (address : Z) (s : surface_store)
  : option handle * surface_store :=
  match m_render_targets_storage s !! address with
  | Some st =>
      let s1 := call (notify_surface_invalidated st) s in
      let s2 := set_invalidated_resources (invalidated_resources s1 ++ [st]) s1 in
      (Some st, set_render_targets_storage (delete address (m_render_targets_storage s2)) s2)
  | None => (None, s)
  end.

(** Lines 421-469 of [bind_address_as_render_targets]: no surface of the
    requested shape is stored at the address; [old_surface] is the storage
    that was found there with another shape, already erased from the map. *)
Definition install_render_target (address : Z) (color_format : surface_color_format)
  (antialias : surface_antialiasing) (width height pitch : Z)
  (old_surface convert_surface : option handle) (s : surface_store)
  : handle * surface_store :=
  let aa_factor_v := get_aa_factor_v antialias in
  let range := start_length address (u32 (pitch * height * aa_factor_v)) in
  let s := set_render_targets_memory_range
             (get_min_max range (m_render_targets_memory_range s)) s in
  let contents_to_copy :=
    match old_surface with None => convert_surface | Some o => Some o end in
  match find_reusable
          (on_storage (fun d => rtt_has_format_width_height d color_format width height true) s)
          (invalidated_resources s) with
  | Some (pre, new_surface, post) =>
      let s :=
        match old_surface with
        | Some o =>
            set_invalidated_resources (pre ++ o :: post) (call (notify_surface_invalidated o) s)
        | None => set_invalidated_resources (pre ++ post) s
        end in
      let s := call (invalidate_surface_contents new_surface contents_to_copy address pitch) s in
      let s := call (prepare_rtt_for_drawing new_surface) s in
      (new_surface,
       set_render_targets_storage (<[address := new_surface]> (m_render_targets_storage s)) s)
  | None =>
      let s :=
        match old_surface with
        | Some o =>
            let s := call (notify_surface_invalidated o) s in
            set_invalidated_resources (invalidated_resources s ++ [o]) s
        | None => s
        end in
      let h := next_handle s in
      let d := create_new_color_surface address color_format width height pitch
                 contents_to_copy in
      let s := call (create_new_surface address width height pitch contents_to_copy h) s in
      let s := set_next_handle (S h) (set_heap (<[h := d]> (heap s)) s) in
      (h, set_render_targets_storage (<[address := h]> (m_render_targets_storage s)) s)
  end.

Definition bind_address_as_render_targets (address : Z)
  (color_format : surface_color_format) (antialias : surface_antialiasing)
  (width height pitch : Z) (s : surface_store) : handle * surface_store :=
  let '(convert_surface, s) := evict_aliased_depth address s in
  match m_render_targets_storage s !! address with
  | Some rtt =>
      if on_storage (fun d => rtt_has_format_width_height d color_format width height false)
           s rtt
      then
        let s :=
          if on_storage (fun d => surface_is_pitch_compatible d pitch) s rtt
          then call (notify_surface_persist rtt) s
          else call (invalidate_surface_contents rtt None address pitch) s in
        (rtt, call (prepare_rtt_for_drawing rtt) s)
      else
        let s := set_render_targets_storage (delete address (m_render_targets_storage s)) s in
        install_render_target address color_format antialias width height pitch
          (Some rtt) convert_surface s
  | None =>
      install_render_target address color_format antialias width height pitch
        None convert_surface s
  end.

(** Lines 517-564 of [bind_address_as_depth_stencil]. *)
Definition install_depth_stencil (address : Z) (depth_format : surface_depth_format)
  (antialias : surface_antialiasing) (width height pitch : Z)
  (old_surface convert_surface : option handle) (s : surface_store)
  : handle * surface_store :=
  let aa_factor_v := get_aa_factor_v antialias in
  let range := start_length address (u32 (pitch * height * aa_factor_v)) in
  let s := set_depth_stencil_memory_range
             (get_min_max range (m_depth_stencil_memory_range s)) s in
  let contents_to_copy :=
    match old_surface with None => convert_surface | Some o => Some o end in
  match find_reusable
          (on_storage (fun d => ds_has_format_width_height d depth_format width height true) s)
          (invalidated_resources s) with
  | Some (pre, new_surface, post) =>
      let s :=
        match old_surface with
        | Some o =>
            set_invalidated_resources (pre ++ o :: post) (call (notify_surface_invalidated o) s)
        | None => set_invalidated_resources (pre ++ post) s
        end in
      let s := call (prepare_ds_for_drawing new_surface) s in
      let s := call (invalidate_surface_contents new_surface contents_to_copy address pitch) s in
      (new_surface,
       set_depth_stencil_storage (<[address := new_surface]> (m_depth_stencil_storage s)) s)
  | None =>
      let s :=
        match old_surface with
        | Some o =>
            let s := call (notify_surface_invalidated o) s in
            set_invalidated_resources (invalidated_resources s ++ [o]) s
        | None => s
        end in
      let h := next_handle s in
      let d := create_new_depth_surface address depth_format width height pitch
                 contents_to_copy in
      let s := call (create_new_surface address width height pitch contents_to_copy h) s in
      let s := set_next_handle (S h) (set_heap (<[h := d]> (heap s)) s) in
      (h, set_depth_stencil_storage (<[address := h]> (m_depth_stencil_storage s)) s)
  end.

Definition bind_address_as_depth_stencil (address : Z)
  (depth_format : surface_depth_format) (antialias : surface_antialiasing)
  (width height pitch : Z) (s : surface_store) : handle * surface_store :=
  let '(convert_surface, s) := evict_aliased_rtt address s in
  match m_depth_stencil_storage s !! address with
  | Some ds =>
      if on_storage (fun d => ds_has_format_width_height d depth_format width height false)
           s ds
      then
        let s :=
          if on_storage (fun d => surface_is_pitch_compatible d pitch) s ds
          then call (notify_surface_persist ds) s
          else call (invalidate_surface_contents ds None address pitch) s in
        (ds, call (prepare_ds_for_drawing ds) s)
      else
        let s := set_depth_stencil_storage (delete address (m_depth_stencil_storage s)) s in
        install_depth_stencil address depth_format antialias width height pitch
          (Some ds) convert_surface s
  | None =>
      install_depth_stencil address depth_format antialias width height pitch
        None convert_surface s
  end.

(** [surface_addresses[i]] of a [std::array<u32, 4>]. *)
Definition array_at (a : list Z) (i : nat) : Z := default 0 (a !! i).

(** The loop "Make previous RTTs sampleable". *)
Definition sample_bound_render_targets (s : surface_store) : surface_store :=
  let s :=
    foldl (fun s (rtt : Z * option handle) =>
             match rtt.2 with
             | Some surf => call (prepare_rtt_for_sampling surf) s
             | None => s
             end) s (m_bound_render_targets s) in
  set_bound_render_targets ((fun _ => (0, None)) <$> m_bound_render_targets s) s.

(** The loop "Create/Reuse requested rtts". *)
Definition bind_render_targets (color_format : surface_color_format)
  (antialias : surface_antialiasing) (clip_width clip_height : Z)
  (surface_addresses surface_pitch : list Z) (indexes : list nat) (s : surface_store)
  : surface_store :=
  foldl (fun s surface_index =>
           let address := array_at surface_addresses surface_index in
           if address =? 0 then s
           else
             let '(surf, s) :=
               bind_address_as_render_targets address color_format antialias
                 clip_width clip_height (array_at surface_pitch surface_index) s in
             set_bound_render_targets
               (<[surface_index := (address, Some surf)]> (m_bound_render_targets s)) s)
        s indexes.

Definition prepare_render_target
  (color_format : surface_color_format) (depth_format : surface_depth_format)
  (clip_horizontal_reg clip_vertical_reg : Z) (set_surface_target : surface_target)
  (antialias : surface_antialiasing) (surface_addresses : list Z) (address_z : Z)
  (surface_pitch : list Z) (zeta_pitch : Z) (s : surface_store) : surface_store :=
  let clip_width := clip_horizontal_reg in
  let clip_height := clip_vertical_reg in
  let '(tag, s) := get_shared_tag s in
  let s := set_memory_tree [] (set_cache_tag tag s) in
  let s := sample_bound_render_targets s in
  let s := bind_render_targets color_format antialias clip_width clip_height
             surface_addresses surface_pitch (get_rtt_indexes set_surface_target) s in
  let s :=
    match (m_bound_depth_stencil s).2 with
    | Some surf => call (prepare_ds_for_sampling surf) s
    | None => s
    end in
  let s := set_bound_depth_stencil (0, None) s in
  if address_z =? 0 then s
  else
    let '(surf, s) :=
      bind_address_as_depth_stencil address_z depth_format antialias
        clip_width clip_height zeta_pitch s in
    set_bound_depth_stencil (address_z, Some surf) s.

Definition address_is_bound (address : Z) (s : surface_store) : bool :=
  existsb (fun surf : Z * option handle => surf.1 =? address) (m_bound_render_targets s)
  || ((m_bound_depth_stencil s).1 =? address).

(** The common tail of the two invalidation entry points: notify, move the
    storage to the invalidated pool, erase it, take a fresh [cache_tag]. *)
Definition retire_render_target (address : Z) (st : handle) (s : surface_store)
  : surface_store :=
  let s := call (notify_surface_invalidated st) s in
  let s := set_invalidated_resources (invalidated_resources s ++ [st]) s in
  let s := set_render_targets_storage (delete address (m_render_targets_storage s)) s in
  let '(tag, s) := get_shared_tag s in
  set_cache_tag tag s.

Definition retire_depth_stencil (address : Z) (st : handle) (s : surface_store)
  : surface_store :=
  let s := call (notify_surface_invalidated st) s in
  let s := set_invalidated_resources (invalidated_resources s ++ [st]) s in
  let s := set_depth_stencil_storage (delete address (m_depth_stencil_storage s)) s in
  let '(tag, s) := get_shared_tag s in
  set_cache_tag tag s.

Definition invalidate_single_surface (surf : handle) (depth : bool) (s : surface_store)
  : surface_store :=
  if negb depth then
    match find (fun e : Z * handle => bool_decide (e.2 = surf))
               (map_to_list (m_render_targets_storage s)) with
    | Some (address, st) => retire_render_target address st s
    | None => s
    end
  else
    match find (fun e : Z * handle => bool_decide (e.2 = surf))
               (map_to_list (m_depth_stencil_storage s)) with
    | Some (address, st) => retire_depth_stencil address st s
    | None => s
    end.

Definition invalidate_surface_address (addr : Z) (depth : bool) (s : surface_store)
  : surface_store :=
  if address_is_bound addr s then s
  else if negb depth then
    match m_render_targets_storage s !! addr with
    | Some st => retire_render_target addr st s
    | None => s
    end
  else
    match m_depth_stencil_storage s !! addr with
    | Some st => retire_depth_stencil addr st s
    | None => s
    end.

(** *** get_merged_texture_memory_region *)

(** Lines 925-962: the overlap record of a surface that passed the filters.
    The fields of the record are [u16], the operands of the arithmetic
    [u32]; a division by a zero pitch or bpp is undefined in the source and
    yields 0 here. *)
Definition project_overlap (surf : handle) (this_address : Z) (depth : bool)
  (surface_info : surface_format_info) (scale_x scale_y : Z)
  (texaddr required_width required_height required_pitch : Z) : surface_overlap_info :=
  if this_address <? texaddr then
    let int_required_width := required_width / scale_x in
    let int_required_height := required_height / scale_y in
    let offset := u32 (texaddr - this_address) in
    let sy := u16 ((offset / required_pitch) / scale_y) in
    let sx := u16 ((offset mod required_pitch) / bpp surface_info / scale_x) in
    let w := u16 (Z.min int_required_width (u32 (surface_width surface_info - sx))) in
    let h := u16 (Z.min int_required_height (u32 (surface_height surface_info - sy))) in
    mk_surface_overlap_info surf this_address depth
      ((w <? int_required_width) || (h <? int_required_height))
      sx sy 0 0 w h
  else
    let int_surface_width := u32 (surface_width surface_info * scale_x) in
    let int_surface_height := u32 (surface_height surface_info * scale_y) in
    let offset := u32 (this_address - texaddr) in
    let dy := u16 (offset / required_pitch) in
    let dx := u16 ((offset mod required_pitch) / bpp surface_info) in
    let w := u16 (Z.min int_surface_width (u32 (required_width - dx))) in
    let h := u16 (Z.min int_surface_height (u32 (required_height - dy))) in
    mk_surface_overlap_info surf this_address depth
      ((w <? required_width) || (h <? required_height))
      0 0 dx dy (u16 (w / scale_x)) (u16 (h / scale_y)).

Inductive candidate : Type :=
| discarded
| stale (surf : handle)
| overlapping (surf : handle) (info : surface_overlap_info).

(** One iteration of the loop of [process_list_function]. *)
Definition process_candidate (mem : guest_memory) (hp : gmap handle render_target_descriptor)
  (texaddr required_width required_height required_pitch limit : Z) (depth : bool)
  (tex_info : Z * handle) : candidate :=
  let this_address := tex_info.1 in
  if limit <=? this_address then discarded
  else
    match hp !! tex_info.2 with
    | None => discarded
    | Some d =>
        let pitch := get_rsx_pitch d in
        if negb (pitch_compatible d required_pitch required_height) then discarded
        else
          let scale_x := if aa_gt (read_aa_mode d) center_1_sample then 2 else 1 in
          let scale_y := if aa_gt (read_aa_mode d) diagonal_centered_2_samples then 2 else 1 in
          let texture_size := pitch * get_surface_height d * scale_y in
          if u32 (this_address + texture_size) <=? texaddr then discarded
          else if negb (test mem d) then stale tex_info.2
          else
            overlapping tex_info.2
              (project_overlap tex_info.2 this_address depth (get_surface_info d)
                 scale_x scale_y texaddr required_width required_height required_pitch)
    end.

(** What [process_list_function] accumulates: [result], [dirty] and the
    read barriers executed. *)
Record scan : Type := mk_scan {
  scan_result : list surface_overlap_info;
  scan_dirty : list (Z * bool);
  scan_calls : list backend_call
}.

(** The body of the loop of [process_list_function]. *)
Definition scan_step (mem : guest_memory) (hp : gmap handle render_target_descriptor)
  (texaddr required_width required_height required_pitch limit : Z) (depth : bool)
  (acc : scan) (tex_info : Z * handle) : scan :=
  match process_candidate mem hp texaddr required_width required_height
          required_pitch limit depth tex_info with
  | discarded => acc
  | stale surf =>
      mk_scan (scan_result acc) (scan_dirty acc ++ [(tex_info.1, depth)])
        (scan_calls acc ++ [read_barrier surf])
  | overlapping surf info =>
      mk_scan (scan_result acc ++ [info]) (scan_dirty acc)
        (scan_calls acc ++ [read_barrier surf])
  end.

Definition process_list_function (mem : guest_memory)
  (hp : gmap handle render_target_descriptor)
  (texaddr required_width required_height required_pitch limit : Z)
  (data : gmap Z handle) (depth : bool) (acc : scan) : scan :=
  foldl (scan_step mem hp texaddr required_width required_height required_pitch limit depth)
        acc (map_to_list data).

(** The comparison handed to [std::sort]; the area is an [int] product. *)
Definition area (a : surface_overlap_info) : Z := s32 (width a * height a).

Definition use_tag (hp : gmap handle render_target_descriptor) (a : surface_overlap_info) : Z :=
  match hp !! surface a with
  | Some d => last_use_tag d
  | None => 0
  end.

Definition overlap_before (hp : gmap handle render_target_descriptor)
  (a b : surface_overlap_info) : bool :=
  if use_tag hp a =? use_tag hp b then area a <? area b
  else use_tag hp a <? use_tag hp b.

(** [std::sort] is specified by its result, a rearrangement in which no
    element is ordered before its predecessor; an insertion sort is one
    such rearrangement. *)
Fixpoint sort_insert {A : Type} (comp : A -> A -> bool) (x : A) (l : list A) : list A :=
  match l with
  | [] => [x]
  | y :: r => if comp y x then y :: sort_insert comp x r else x :: y :: r
  end.

Definition std_sort {A : Type} (comp : A -> A -> bool) (l : list A) : list A :=
  foldr (sort_insert comp) [] l.


Definition get_merged_texture_memory_region (mem : guest_memory)
  (texaddr required_width required_height required_pitch : Z) (s : surface_store)
  : list surface_overlap_info * surface_store :=
  let limit := u32 (texaddr + u32 (required_pitch * required_height)) in
  let test_range := start_end texaddr (u32 (limit - 1)) in
  let acc := mk_scan [] [] [] in
  let acc :=
    if overlaps test_range (m_render_targets_memory_range s)
    then process_list_function mem (heap s) texaddr required_width required_height
           required_pitch limit (m_render_targets_storage s) false acc
    else acc in
  let acc :=
    if overlaps test_range (m_depth_stencil_memory_range s)
    then process_list_function mem (heap s) texaddr required_width required_height
           required_pitch limit (m_depth_stencil_storage s) true acc
    else acc in
  let s := foldl (fun s e => call e s) s (scan_calls acc) in
  let s := foldl (fun s (p : Z * bool) => invalidate_surface_address p.1 p.2 s) s
             (scan_dirty acc) in
  let result := scan_result acc in
  ((if (1 <? length result)%nat then std_sort (overlap_before (heap s)) result else result),
   s).

(** *** generate_render_target_memory_tree *)

(** The lambda [process_entry]: the overlap record of a stored surface
    inside the block of a bound surface, if it lies after the block's
    address, before its end, and fits in width and height. *)
Definition process_entry (hp : gmap handle render_target_descriptor)
  (info : surface_format_info) (memory_address memory_end address : Z) (surf : handle)
  : option memory_overlap_t :=
  if address <=? memory_address then None
  else if memory_end <=? address then None
  else
    match hp !! surf with
    | None => None
    | Some d2 =>
        let info2 := get_surface_info d2 in
        let offset := u32 (address - memory_address) in
        let offset_y := offset / rsx_pitch info in
        let offset_x := (offset mod rsx_pitch info) / bpp info in
        let pitch2 := u32 (bpp info2 * surface_width info2) in
        let fits_w := u32 ((offset mod rsx_pitch info) + pitch2) <=? rsx_pitch info in
        let fits_h :=
          u32 (u32 (offset_y + surface_height info2) * rsx_pitch info)
          <=? u32 (memory_end - memory_address) in
        if fits_w && fits_h
        then Some (mk_memory_overlap surf address offset_x offset_y
                     (surface_width info2) (surface_height info2))
        else None
    end.

(** The lambda [process_block]: the block of one bound surface, if any
    stored surface overlaps it. *)
Definition process_block (s : surface_store) (memory_address : Z) (surf : handle)
  : option surface_hierachy_info :=
  match heap s !! surf with
  | None => None
  | Some d =>
      let info := get_surface_info d in
      let memory_end :=
        u32 (memory_address + u32 (rsx_pitch info * surface_height info)) in
      let entries (data : gmap Z handle) :=
        omap (fun e : Z * handle =>
                process_entry (heap s) info memory_address memory_end e.1 e.2)
             (map_to_list data) in
      let overlapping := entries (m_render_targets_storage s)
                         ++ entries (m_depth_stencil_storage s) in
      match overlapping with
      | [] => None
      | _ => Some (mk_surface_hierachy_info memory_address
                     (u32 (memory_end - memory_address)) (Some surf) overlapping)
      end
  end.

(** The blocks of the bound slots, an unbound slot (address 0) giving none. *)
Definition bound_block (s : surface_store) (slot : Z * option handle)
  : option surface_hierachy_info :=
  if slot.1 =? 0 then None
  else match slot.2 with
       | Some surf => process_block s slot.1 surf
       | None => None
       end.

Definition generate_render_target_memory_tree (s : surface_store) : surface_store :=
  set_memory_tree
    (m_memory_tree s
     ++ omap (bound_block s) (m_bound_render_targets s)
     ++ option_list (bound_block s (m_bound_depth_stencil s))) s.

(** *** on_write *)

(** [entry._ref->dirty = true] for the overlapping set of one block. *)
Definition mark_overlapping_dirty (address : Z) (s : surface_store)
  (e : surface_hierachy_info) : surface_store :=
  if negb (address =? 0) && negb (memory_address e =? address) then s
  else
    foldl (fun s entry => set_heap (alter (set_dirty true) (_ref entry) (heap s)) s)
          s (overlapping_set e).

(** [surface->on_write(write_tag)] for one bound colour slot. *)
Definition write_bound_render_target (mem : guest_memory) (address : Z) (s : surface_store)
  (rtt : Z * option handle) : surface_store :=
  if negb (address =? 0) && negb (rtt.1 =? address) then s
  else match rtt.2 with
       | Some surf => set_heap (alter (desc_on_write mem (write_tag s)) surf (heap s)) s
       | None => s
       end.

(** Lines 1024-1066: what [on_write] does once it is past the early
    return. *)
Definition on_write_propagate (mem : guest_memory) (address : Z) (s : surface_store)
  : surface_store :=
  let s :=
    if negb (memory_tag s =? cache_tag s)
    then
      let s := generate_render_target_memory_tree s in
      set_memory_tag (cache_tag s) s
    else s in
  let s := foldl (mark_overlapping_dirty address) s (m_memory_tree s) in
  let s := foldl (write_bound_render_target mem address) s (m_bound_render_targets s) in
  match (m_bound_depth_stencil s).2 with
  | Some ds =>
      if (address =? 0) || ((m_bound_depth_stencil s).1 =? address)
      then set_heap (alter (desc_on_write mem (write_tag s)) ds (heap s)) s
      else s
  | None => s
  end.

Definition on_write (mem : guest_memory) (address : Z) (s : surface_store)
  : surface_store :=
  if address =? 0 then
    if write_tag s =? cache_tag s then s
    else on_write_propagate mem address (set_write_tag (cache_tag s) s)
  else on_write_propagate mem address s.

Definition notify_memory_structure_changed (s : surface_store) : surface_store :=
  let '(tag, s) := get_shared_tag s in
  set_cache_tag tag s.

End Store.

(** ** A small backend to run the store on *)

(** Surfaces of four bytes per pixel that remember the shape they were
    created with; a new surface has its fingerprint armed at its address. *)
Definition sample_surface (depth : bool) (address w h pitch : Z) (contents : option handle)
  : render_target_descriptor :=
  queue_tag address
    (mk_render_target_descriptor 0 (replicate 5 (0, 0)) false contents
       center_1_sample None center_1_sample w h pitch (w * 4) depth).

Definition sample_has_shape (depth : bool) (d : render_target_descriptor) (w h : Z) : bool :=
  bool_decide (is_depth_surface d = depth)
  && (get_surface_width d =? w) && (get_surface_height d =? h).

Definition sample_backend : Traits :=
  mk_Traits
    (fun address _ w h pitch contents => sample_surface false address w h pitch contents)
    (fun address _ w h pitch contents => sample_surface true address w h pitch contents)
    (fun d _ w h _ => sample_has_shape false d w h)
    (fun d _ w h _ => sample_has_shape true d w h)
    (fun d pitch => get_rsx_pitch d =? pitch)
    (fun d => mk_surface_format_info (get_surface_width d) (get_surface_height d)
                (get_native_pitch d) (get_rsx_pitch d) 4)
    (fun d required_pitch required_height =>
       (required_height <=? 1) || (get_rsx_pitch d =? required_pitch))
    (fun t =>
       match t with
       | target_none => []
       | surface_a => [0%nat]
       | surface_b => [1%nat]
       | surfaces_a_b => [0%nat; 1%nat]
       | surfaces_a_b_c => [0%nat; 1%nat; 2%nat]
       | surfaces_a_b_c_d => [0%nat; 1%nat; 2%nat; 3%nat]
       end).

(** Scenario S1: one colour target at 0x01000000, 640x480, pitch 2560. *)
Definition s1_store : surface_store :=
  prepare_render_target (T := sample_backend) a8r8g8b8 z24s8 640 480 surface_a
    center_1_sample [16777216; 0; 0; 0] 0 [2560; 0; 0; 0] 0 empty_store.

(** ** Well-formed stores *)

Section Ranges.
Context {T : Traits}.

(** Guest addresses are [u32]. *)
Definition address_in_range (a : Z) : bool := (0 <=? a) && (a <? 2 ^ 32).

(** What [get_surface_info] reports: pitch and bpp within [u16] and [u8],
    width and height at most 2^15, which keeps the [u32] products of the
    store exact (the RSX limits a surface to 4096 x 4096). *)
Definition info_in_range (i : surface_format_info) : bool :=
  (0 <=? surface_width i) && (surface_width i <=? 2 ^ 15)
  && (0 <=? surface_height i) && (surface_height i <=? 2 ^ 15)
  && (0 <=? rsx_pitch i) && (rsx_pitch i <? 2 ^ 16)
  && (0 <=? bpp i) && (bpp i <? 2 ^ 8).

Definition store_in_range (s : surface_store) : bool :=
  forallb (fun e : Z * handle => address_in_range e.1)
          (map_to_list (m_render_targets_storage s))
  && forallb (fun e : Z * handle => address_in_range e.1)
             (map_to_list (m_depth_stencil_storage s))
  && forallb (fun e : Z * option handle => address_in_range e.1)
             (m_bound_render_targets s)
  && address_in_range (m_bound_depth_stencil s).1
  && forallb (fun e : handle * render_target_descriptor =>
                info_in_range (get_surface_info e.2))
             (map_to_list (heap s)).

(** An overlap record of the memory tree lies inside its block: after the
    block's address, within a row of the bound surface, and within its
    footprint. *)
Definition record_inside (hp : gmap handle render_target_descriptor)
  (b : surface_hierachy_info) (r : memory_overlap_t) : Prop :=
  exists (hB : handle) (dB dS : render_target_descriptor),
    memory_contents b = Some hB /\ hp !! hB = Some dB /\ hp !! _ref r = Some dS
    /\ memory_range b = rsx_pitch (get_surface_info dB) * surface_height (get_surface_info dB)
    /\ memory_address b < ov_memory_address r
    /\ (ov_memory_address r - memory_address b) mod rsx_pitch (get_surface_info dB)
       + ov_w r * bpp (get_surface_info dS) <= rsx_pitch (get_surface_info dB)
    /\ (ov_y r + ov_h r) * rsx_pitch (get_surface_info dB) <= memory_range b.

Definition block_inside (hp : gmap handle render_target_descriptor)
  (b : surface_hierachy_info) : Prop :=
  Forall (record_inside hp b) (overlapping_set b).

End Ranges.

(** Whether the map holds, at the address, a storage the exact shape
    predicate accepts: the case in which a bind returns at once. *)
Definition stored_with_shape (p : render_target_descriptor -> bool) (m : gmap Z handle)
  (address : Z) (s : surface_store) : bool :=
  match m !! address with
  | Some st => on_storage p s st
  | None => false
  end.

(** ** The store as a transition system *)

Section Steps.
Context {T : Traits}.

(** Invariant 1 of the registry. *)
Definition maps_disjoint (s : surface_store) : Prop :=
  m_render_targets_storage s ##ₘ m_depth_stencil_storage s.

(** Both maps of a store. *)
Definition store_maps (s : surface_store) : gmap Z handle * gmap Z handle :=
  (m_render_targets_storage s, m_depth_stencil_storage s).

(** One call of a public member function. *)
Inductive step (s : surface_store) : surface_store -> Prop :=
| step_prepare_render_target color_format depth_format clip_horizontal_reg
    clip_vertical_reg set_surface_target antialias surface_addresses address_z
    surface_pitch zeta_pitch :
    step s (prepare_render_target color_format depth_format clip_horizontal_reg
              clip_vertical_reg set_surface_target antialias surface_addresses address_z
              surface_pitch zeta_pitch s)
| step_invalidate_single_surface surf depth :
    step s (invalidate_single_surface surf depth s)
| step_invalidate_surface_address addr depth :
    step s (invalidate_surface_address addr depth s)
| step_get_merged_texture_memory_region mem texaddr required_width required_height
    required_pitch :
    step s (get_merged_texture_memory_region mem texaddr required_width required_height
              required_pitch s).2
| step_on_write mem address :
    step s (on_write mem address s)
| step_notify_memory_structure_changed :
    step s (notify_memory_structure_changed s).

(** The stores a program can arrive at from a newly constructed one. *)
Inductive reachable : surface_store -> Prop :=
| reachable_new s :
    m_render_targets_storage s = ∅ -> m_depth_stencil_storage s = ∅ -> reachable s
| reachable_step s s' : reachable s -> step s s' -> reachable s'.

End Steps.

(** ** Rebinding *)

Section Rebinding.
Context {T : Traits}.

(** The pointers of the live surface objects are below the next one the
    backend allocates. *)
Definition heap_fresh (s : surface_store) : bool :=
  forallb (fun e : handle * render_target_descriptor => (e.1 <? next_handle s)%nat)
          (map_to_list (heap s)).

(** A backend whose exact shape test accepts, for the same format, width
    and height, the surfaces it creates and the surfaces its pool search
    accepts. *)
Definition installs_exact_shapes : Prop :=
  (forall address color_format width height pitch contents,
     rtt_has_format_width_height
       (create_new_color_surface address color_format width height pitch contents)
       color_format width height false = true)
  /\ (forall d color_format width height,
        rtt_has_format_width_height d color_format width height true = true ->
        rtt_has_format_width_height d color_format width height false = true)
  /\ (forall address depth_format width height pitch contents,
        ds_has_format_width_height
          (create_new_depth_surface address depth_format width height pitch contents)
          depth_format width height false = true)
  /\ (forall d depth_format width height,
        ds_has_format_width_height d depth_format width height true = true ->
        ds_has_format_width_height d depth_format width height false = true).

(** The surface objects of [s] are those of [s'], which may hold more. *)
Definition heap_extends (s s' : surface_store) : Prop :=
  forall h d, heap s !! h = Some d -> heap s' !! h = Some d.

(** What a bind that finds its surface in place leaves alone. *)
Definition store_core (s : surface_store) :=
  (m_render_targets_storage s, m_depth_stencil_storage s, invalidated_resources s,
   heap s, next_handle s, m_bound_render_targets s, m_bound_depth_stencil s).

(** The slot assignment of the loop "Create/Reuse requested rtts", with the
    surface read from a colour map. *)
Definition assign_slot (surface_addresses : list Z) (m : gmap Z handle)
  (b : list (Z * option handle)) (surface_index : nat) : list (Z * option handle) :=
  let address := array_at surface_addresses surface_index in
  if address =? 0 then b else <[surface_index := (address, m !! address)]> b.

(** Every active colour slot of a bind set has its surface in place: a
    storage of the requested shape in the colour map at its address, and
    nothing in the depth map there. *)
Definition settled_colour (color_format : surface_color_format) (width height : Z)
  (surface_addresses : list Z) (indexes : list nat) (s : surface_store) : Prop :=
  forall idx, idx ∈ indexes -> array_at surface_addresses idx <> 0 ->
    stored_with_shape
      (fun d => rtt_has_format_width_height d color_format width height false)
      (m_render_targets_storage s) (array_at surface_addresses idx) s = true
    /\ m_depth_stencil_storage s !! array_at surface_addresses idx = None.

(** The depth target of a bind set is in place. *)
Definition settled_depth (depth_format : surface_depth_format) (width height : Z)
  (address_z : Z) (s : surface_store) : Prop :=
  address_z <> 0 ->
  stored_with_shape
    (fun d => ds_has_format_width_height d depth_format width height false)
    (m_depth_stencil_storage s) address_z s = true
  /\ m_render_targets_storage s !! address_z = None.

(** The bound slots a bind set reads off the maps. *)
Definition slots_of (set_surface_target : surface_target) (surface_addresses : list Z)
  (n : nat) (s : surface_store) : list (Z * option handle) :=
  foldl (assign_slot surface_addresses (m_render_targets_storage s))
        (replicate n (0, None)) (get_rtt_indexes set_surface_target).

Definition depth_slot_of (address_z : Z) (s : surface_store) : Z * option handle :=
  if address_z =? 0 then (0, None)
  else (address_z, m_depth_stencil_storage s !! address_z).

End Rebinding.

(** ** Scenarios *)

(** Whether some call [e1] is followed, later in a trace, by a call [e2]. *)
Fixpoint called_before (e1 e2 : backend_call) (l : list backend_call) : bool :=
  match l with
  | [] => false
  | e :: r => (bool_decide (e = e1) && bool_decide (e2 ∈ r)) || called_before e1 e2 r
  end.

(** The calls a store has seen beyond those of an earlier store. *)
Definition new_calls (before after : surface_store) : list backend_call :=
  drop (length (trace before)) (trace after).

(** A colour target at 0x01000000 and a depth target at 0x02000000, bound
    640x480, then 320x240: the two 640x480 surfaces (handles 1 and 2) are
    in the invalidated pool, the 320x240 ones (3 and 4) are stored. *)
Definition two_targets (w h pitch : Z) (s : surface_store) : surface_store :=
  prepare_render_target (T := sample_backend) a8r8g8b8 z24s8 w h surface_a
    center_1_sample [16777216; 0; 0; 0] 33554432 [pitch; 0; 0; 0] pitch s.

Definition pooled_store : surface_store :=
  two_targets 320 240 1280 (two_targets 640 480 2560 empty_store).

(** Guest memory holding zeroes, and the same after the guest has written
    0xDEADBEEFDEADBEEF at 0x01000000. *)
Definition zero_memory : guest_memory := fun _ => 0.

Definition written_memory : guest_memory :=
  fun a => if a =? 16777216 then 16045690984833335023 else 0.

(** Scenario S1 followed by a draw. *)
Definition s1_written : surface_store :=
  on_write (T := sample_backend) zero_memory 0 s1_store.

(** Scenario S5: a single colour surface at 0x01000400, 64x64, pitch 256. *)
Definition s5_store : surface_store :=
  prepare_render_target (T := sample_backend) a8r8g8b8 z24s8 64 64 surface_a
    center_1_sample [16778240; 0; 0; 0] 0 [256; 0; 0; 0] 0 empty_store.

(** A 64x64 colour surface of pitch 2560 that starts 2000 bytes into a row
    of the texture at 0x01000000. *)
Definition padding_store : surface_store :=
  prepare_render_target (T := sample_backend) a8r8g8b8 z24s8 64 64 surface_a
    center_1_sample [16779216; 0; 0; 0] 0 [2560; 0; 0; 0] 0 empty_store.

(** The same backend with the pool search the spec describes: the flag
    permits a looser match, a surface at least as large as requested. *)
Definition roundup_has_shape (depth : bool) (d : render_target_descriptor) (w h : Z)
  (lenient : bool) : bool :=
  if lenient
  then bool_decide (is_depth_surface d = depth)
       && (w <=? get_surface_width d) && (h <=? get_surface_height d)
  else sample_has_shape depth d w h.

Definition roundup_backend : Traits :=
  mk_Traits
    (create_new_color_surface (Traits := sample_backend))
    (create_new_depth_surface (Traits := sample_backend))
    (fun d _ w h lenient => roundup_has_shape false d w h lenient)
    (fun d _ w h lenient => roundup_has_shape true d w h lenient)
    (surface_is_pitch_compatible (Traits := sample_backend))
    (get_surface_info (Traits := sample_backend))
    (pitch_compatible (Traits := sample_backend))
    (get_rtt_indexes (Traits := sample_backend)).

(** One colour target at 0x01000000 on the round-up backend. *)
Definition roundup_target (w h pitch : Z) (s : surface_store) : surface_store :=
  prepare_render_target (T := roundup_backend) a8r8g8b8 z24s8 w h surface_a
    center_1_sample [16777216; 0; 0; 0] 0 [pitch; 0; 0; 0] 0 s.

(** A 1024x1024 surface (handle 1) waits in the pool while a 320x240 one
    (handle 2) is bound. *)
Definition roundup_store : surface_store :=
  roundup_target 320 240 1280 (roundup_target 1024 1024 4096 empty_store).

(** A colour target and a depth target at the same address 0x03000000. *)
Definition aliased_targets (s : surface_store) : surface_store :=
  prepare_render_target (T := sample_backend) a8r8g8b8 z24s8 640 480 surface_a
    center_1_sample [50331648; 0; 0; 0] 50331648 [2560; 0; 0; 0] 2560 s.

(** Two colour targets, bound 640x480 and then 320x240: the two 640x480
    surfaces (handles 1 and 2) are in the invalidated pool. *)
Definition two_colour_targets (w h pitch : Z) (s : surface_store) : surface_store :=
  prepare_render_target (T := sample_backend) a8r8g8b8 z24s8 w h surfaces_a_b
    center_1_sample [16777216; 33554432; 0; 0] 0 [pitch; pitch; 0; 0] 0 s.

Definition two_pooled_store : surface_store :=
  two_colour_targets 320 240 1280 (two_colour_targets 640 480 2560 empty_store).

(** Scenario S6: a 16x16 colour surface registered at 0x02004020, then a
    1024x1024 colour target bound at 0x02000000. *)
Definition s6_store : surface_store :=
  prepare_render_target (T := sample_backend) a8r8g8b8 z24s8 1024 1024 surface_a
    center_1_sample [33554432; 0; 0; 0] 0 [4096; 0; 0; 0] 0
    (prepare_render_target (T := sample_backend) a8r8g8b8 z24s8 16 16 surface_a
       center_1_sample [33570848; 0; 0; 0] 0 [64; 0; 0; 0] 0 empty_store).

(** Two 640x480 colour targets, one after the other in guest memory. *)
Definition stacked_store : surface_store :=
  prepare_render_target (T := sample_backend) a8r8g8b8 z24s8 640 480 surfaces_a_b
    center_1_sample [16777216; 18006016; 0; 0] 0 [2560; 2560; 0; 0] 0 empty_store.



(** A 16x25539 colour surface registered at 0x01000000 + 39999 * 65535,
    the start of the last row of the 16x40000 colour target of pitch 65535
    then bound at 0x01000000. *)
Definition tall_store : surface_store :=
  prepare_render_target (T := sample_backend) a8r8g8b8 z24s8 16 40000 surface_a
    center_1_sample [16777216; 0; 0; 0] 0 [65535; 0; 0; 0] 0
    (prepare_render_target (T := sample_backend) a8r8g8b8 z24s8 16 25539 surface_a
       center_1_sample [2638111681; 0; 0; 0] 0 [64; 0; 0; 0] 0 empty_store).

(** ** Lookups *)

(** [get_texture_from_render_target_if_applicable],
    [get_texture_from_depth_stencil_if_applicable]: the surface stored at
    the address, or an empty [surface_type]. *)
Definition get_texture_from_render_target_if_applicable (address : Z) (s : surface_store)
  : option handle :=
  m_render_targets_storage s !! address.

Definition get_texture_from_depth_stencil_if_applicable (address : Z) (s : surface_store)
  : option handle :=
  m_depth_stencil_storage s !! address.

(** [get_surface_at]: the colour map first, then the depth map; [None] is
    the exception thrown when neither holds the address. *)
Definition get_surface_at (address : Z) (s : surface_store) : option handle :=
  match m_render_targets_storage s !! address with
  | Some surf => Some surf
  | None => m_depth_stencil_storage s !! address
  end.

(** The storages a store owns: those of the two maps and of the
    invalidated pool. *)
Definition held (s : surface_store) (st : handle) : Prop :=
  st ∈ invalidated_resources s
  \/ (exists A, m_render_targets_storage s !! A = Some st)
  \/ (exists A, m_depth_stencil_storage s !! A = Some st).

(** ** Readback copy *)

(** [copy_pitched_src_to_dst] on [gsl::span]s, which check their bounds:
    an index at or past the end, or a [subspan] starting past the end, stops
    the program ([None]).  A span is the list of the elements it covers;
    the result is the contents of the destination buffer from the start of
    [dest].  [stride] is [src_pitch_in_bytes / sizeof(U)], [conv] the
    conversion of the assignment [dest[col] = src[col]]. *)
Fixpoint copy_pitched_src_to_dst {T U : Type} (conv : U -> T) (dest : list T)
  (src : list U) (stride width height : nat) : option (list T) :=
  match height with
  | O => Some dest
  | S rows =>
      if decide (width <= length dest /\ width <= length src /\ stride <= length src)%nat
      then
        match copy_pitched_src_to_dst conv (drop width dest) (drop stride src)
                stride width rows with
        | Some rest => Some ((conv <$> take width src) ++ rest)
        | None => None
        end
      else None
  end.

(** ** More scenarios *)

(** What [on_write] and the memory-tree builder leave alone: the maps, the
    pool, the bound slots, the tags they only read, and the backend. *)
Definition store_frame (s : surface_store) :=
  (m_render_targets_storage s, m_depth_stencil_storage s, invalidated_resources s,
   m_bound_render_targets s, m_bound_depth_stencil s, cache_tag s, shared_tag s,
   next_handle s, trace s).

(** The storages a store owns, with their multiplicity: the pool, then
    the values of the two maps. *)
Definition owned (s : surface_store) : list handle :=
  invalidated_resources s ++ (map_to_list (m_render_targets_storage s)).*2
  ++ (map_to_list (m_depth_stencil_storage s)).*2.

(** [s'] owns the storages of [s] and the ones the backend has allocated
    in between, each once. *)
Definition conserves (s s' : surface_store) : Prop :=
  (next_handle s <= next_handle s')%nat
  /\ owned s' ≡ₚ owned s ++ seq (next_handle s) (next_handle s' - next_handle s).

(** The two filters of [on_write]: whether the loop over the memory tree
    marks surface [h] through block [e], and whether a bound slot has its
    surface [h] written. *)
Definition marks (address : Z) (h : handle) (e : surface_hierachy_info) : bool :=
  ((address =? 0) || (memory_address e =? address))
  && bool_decide (h ∈ _ref <$> overlapping_set e).

Definition writes (address : Z) (h : handle) (slot : Z * option handle) : bool :=
  ((address =? 0) || (slot.1 =? address)) && bool_decide (slot.2 = Some h).

(** Scenario S1, then a bind set with the colour target at 0x02000000: the
    surface at 0x01000000 (handle 1) is stored but no longer bound. *)
Definition moved_store : surface_store :=
  prepare_render_target (T := sample_backend) a8r8g8b8 z24s8 640 480 surface_a
    center_1_sample [33554432; 0; 0; 0] 0 [2560; 0; 0; 0] 0 s1_store.

(** * Properties *)

(** ** The descriptor *)

Lemma sync_samples_addresses mem l : (sync_samples mem l).*1 = l.*1.
Proof.
  induction l as [|[a v] r IH]; [done|]. simpl sync_samples.
  destruct (a =? 0); [done|]. rewrite !fmap_cons. by rewrite IH.
Qed.

Lemma sync_samples_lookup mem l i a v :
  l !! i = Some (a, v) ->
  sync_samples mem l !! i
  = Some (a, if bool_decide (i < length (armed l))%nat then mem a else v).
Proof.
  revert i. induction l as [|[a0 v0] r IH]; intros i Hi; [done|].
  cbn [sync_samples armed]. destruct (a0 =? 0) eqn:Ha0.
  - rewrite Hi. by rewrite bool_decide_eq_false_2 by (simpl; lia).
  - destruct i as [|i]; cbn [length] in *.
    + injection Hi as -> ->. by rewrite bool_decide_eq_true_2 by lia.
    + change (sync_samples mem r !! i = Some (a,
               if bool_decide (S i < S (length (armed r)))%nat then mem a else v)).
      rewrite (IH i Hi). do 2 f_equal.
      rewrite (bool_decide_ext (i < length (armed r))%nat
                 (S i < S (length (armed r)))%nat) by lia.
      done.
Qed.

Lemma test_sync_samples mem l : test_samples mem (sync_samples mem l) = true.
Proof.
  induction l as [|[a v] r IH]; [done|]. simpl.
  destruct (a =? 0) eqn:Ha; simpl; rewrite Ha; [done|].
  by rewrite Z.eqb_refl.
Qed.

(** C8.  [render_target_descriptor::on_write(tag)] sets [last_use_tag] to
    the tag exactly when the tag is not 0, gives every armed sample (the
    entries before the first address 0) the current guest word and leaves
    the addresses and the other entries alone, so that [test] passes
    afterwards, copies [write_aa_mode] to [read_aa_mode], clears [dirty]
    and [old_contents] together, and changes no other field. *)
Theorem desc_on_write_effect (mem : guest_memory) (tag : Z) (d : render_target_descriptor) :
  let d' := desc_on_write mem tag d in
  last_use_tag d' = (if tag =? 0 then last_use_tag d else tag)
  /\ (memory_tag_samples d').*1 = (memory_tag_samples d).*1
  /\ (forall (i : nat) (a v : Z),
        memory_tag_samples d !! i = Some (a, v) ->
        memory_tag_samples d' !! i
        = Some (a, if bool_decide (i < length (armed (memory_tag_samples d)))%nat
                   then mem a else v))
  /\ test mem d' = true
  /\ read_aa_mode d' = write_aa_mode d
  /\ dirty d' = false
  /\ old_contents d' = None
  /\ write_aa_mode d' = write_aa_mode d
  /\ tile d' = tile d
  /\ get_surface_width d' = get_surface_width d
  /\ get_surface_height d' = get_surface_height d
  /\ get_rsx_pitch d' = get_rsx_pitch d
  /\ get_native_pitch d' = get_native_pitch d
  /\ is_depth_surface d' = is_depth_surface d.
Proof.
  unfold desc_on_write, test. destruct (tag =? 0); simpl;
    repeat split;
    auto using sync_samples_addresses, test_sync_samples;
    intros i a v Hi; by apply sync_samples_lookup.
Qed.

Lemma five_samples (l : list (Z * Z)) :
  length l = 5%nat ->
  exists p0 p1 p2 p3 p4, l = [p0; p1; p2; p3; p4].
Proof.
  intros Hl.
  destruct l as [|p0 [|p1 [|p2 [|p3 [|p4 [|p5 r]]]]]]; simpl in Hl; try lia.
  by exists p0, p1, p2, p3, p4.
Qed.

(** C9.  With the five-entry sample array, [queue_tag(base)] on a surface
    whose native pitch is below 16 leaves the addresses base, 0, 0, 0, 0:
    one armed sample, the base.  On a surface of height at most 1 the
    addresses are base, a second one, 0, 0, 0, the second being
    base + native_pitch - 8 (as [u32]) when the pitch is at least 16 and 0
    otherwise: at most two armed samples. *)
Theorem queue_tag_small_surface (base : Z) (d : render_target_descriptor) :
  length (memory_tag_samples d) = 5%nat ->
  (get_native_pitch d < 16 ->
     (memory_tag_samples (queue_tag base d)).*1 = [base; 0; 0; 0; 0]
     /\ (base <> 0 -> length (armed (memory_tag_samples (queue_tag base d))) = 1%nat))
  /\ (get_surface_height d <= 1 ->
        (memory_tag_samples (queue_tag base d)).*1
        = [base;
           if get_native_pitch d <? 16 then 0 else u32 (base + get_native_pitch d - 8);
           0; 0; 0]
        /\ (length (armed (memory_tag_samples (queue_tag base d))) <= 2)%nat).
Proof.
  intros Hl. destruct (five_samples _ Hl) as ([a0 v0] & [a1 v1] & [a2 v2] & [a3 v3] & [a4 v4] & E).
  unfold queue_tag. rewrite E. split.
  - intros Hp. apply Z.ltb_lt in Hp. rewrite Hp. simpl. split; [done|].
    intros Hb. apply Z.eqb_neq in Hb. by rewrite Hb.
  - intros Hh. destruct (get_native_pitch d <? 16) eqn:Hp.
    + simpl. split; [done|]. destruct (base =? 0); simpl; lia.
    + assert ((1 <? get_surface_height d) = false) as -> by (apply Z.ltb_ge; lia).
      simpl. split; [done|].
      destruct (base =? 0); simpl; [lia|].
      destruct (u32 (base + get_native_pitch d - 8) =? 0); simpl; lia.
Qed.

(** ** The write notification *)

Section OnWrite.
Context {T : Traits}.

Lemma mark_overlapping_dirty_tags address s e :
  write_tag (mark_overlapping_dirty address s e) = write_tag s
  /\ cache_tag (mark_overlapping_dirty address s e) = cache_tag s.
Proof.
  unfold mark_overlapping_dirty.
  destruct (negb (address =? 0) && negb (memory_address e =? address)); [done|].
  generalize (overlapping_set e). intros l. revert s.
  induction l as [|x l IH]; intros s; [done|]. simpl. by rewrite !(proj1 (IH _)), !(proj2 (IH _)).
Qed.

Lemma write_bound_render_target_tags mem address s rtt :
  write_tag (write_bound_render_target mem address s rtt) = write_tag s
  /\ cache_tag (write_bound_render_target mem address s rtt) = cache_tag s.
Proof.
  unfold write_bound_render_target.
  destruct (negb (address =? 0) && negb (rtt.1 =? address)); [done|].
  by destruct rtt.2.
Qed.

Lemma foldl_tags {A : Type} (f : surface_store -> A -> surface_store) :
  (forall s x, write_tag (f s x) = write_tag s /\ cache_tag (f s x) = cache_tag s) ->
  forall l s, write_tag (foldl f s l) = write_tag s /\ cache_tag (foldl f s l) = cache_tag s.
Proof.
  intros Hf l. induction l as [|x l IH]; intros s; [done|]. simpl.
  destruct (IH (f s x)) as [-> ->]. apply Hf.
Qed.

Lemma on_write_propagate_tags mem address s :
  write_tag (on_write_propagate mem address s) = write_tag s
  /\ cache_tag (on_write_propagate mem address s) = cache_tag s.
Proof.
  unfold on_write_propagate.
  set (s1 := if negb (memory_tag s =? cache_tag s) then _ else s).
  assert (write_tag s1 = write_tag s /\ cache_tag s1 = cache_tag s) as [Hw Hc].
  { unfold s1. by destruct (negb (memory_tag s =? cache_tag s)). }
  set (s2 := foldl (mark_overlapping_dirty address) s1 (m_memory_tree s1)).
  destruct (foldl_tags _ (mark_overlapping_dirty_tags address) (m_memory_tree s1) s1)
    as [Hw2 Hc2]. fold s2 in Hw2, Hc2.
  set (s3 := foldl (write_bound_render_target mem address) s2 (m_bound_render_targets s2)).
  destruct (foldl_tags _ (write_bound_render_target_tags mem address)
              (m_bound_render_targets s2) s2) as [Hw3 Hc3]. fold s3 in Hw3, Hc3.
  destruct (m_bound_depth_stencil s3).2;
    [destruct ((address =? 0) || ((m_bound_depth_stencil s3).1 =? address))|];
    simpl; split; congruence.
Qed.

(** C7.  After [on_write()] with address 0 the write tag equals the cache
    tag, so a following [on_write()] with address 0 that finds these two
    tags as the first call left them takes the early return: the store,
    with its memory tree, the surface objects and their dirty flags and
    fingerprints, is returned as it is, whatever guest memory holds. *)
Theorem on_write_again_is_noop (mem mem' : guest_memory) (s s2 : surface_store) :
  write_tag s2 = write_tag (on_write mem 0 s) ->
  cache_tag s2 = cache_tag (on_write mem 0 s) ->
  (write_tag s2 =? cache_tag s2) = true /\ on_write mem' 0 s2 = s2.
Proof.
  intros Hw Hc.
  assert (write_tag (on_write mem 0 s) = cache_tag (on_write mem 0 s)) as Heq.
  { unfold on_write. simpl. destruct (write_tag s =? cache_tag s) eqn:E.
    - by apply Z.eqb_eq.
    - by destruct (on_write_propagate_tags mem 0 (set_write_tag (cache_tag s) s)) as [-> ->]. }
  assert ((write_tag s2 =? cache_tag s2) = true) as Hg by (apply Z.eqb_eq; congruence).
  split; [done|]. unfold on_write. simpl. by rewrite Hg.
Qed.

End OnWrite.

(** ** The memory tree *)

Section MemoryTree.
Context {T : Traits}.

Lemma info_in_range_bounds i :
  info_in_range i = true ->
  0 <= surface_width i <= 2 ^ 15 /\ 0 <= surface_height i <= 2 ^ 15
  /\ 0 <= rsx_pitch i < 2 ^ 16 /\ 0 <= bpp i < 2 ^ 8.
Proof. unfold info_in_range. rewrite !andb_true_iff. lia. Qed.

Lemma address_in_range_bounds a : address_in_range a = true -> 0 <= a < 2 ^ 32.
Proof. unfold address_in_range. rewrite andb_true_iff. lia. Qed.

Lemma heap_info_in_range s h d :
  store_in_range s = true -> heap s !! h = Some d ->
  info_in_range (get_surface_info d) = true.
Proof.
  unfold store_in_range. rewrite !andb_true_iff. intros (_ & Hh) Hd.
  rewrite forallb_forall in Hh.
  apply (Hh (h, d)). apply list_elem_of_In. by apply elem_of_map_to_list.
Qed.

(** The arithmetic of [process_entry] on values within range: the [u32]
    comparisons the code makes are the exact ones. *)
Lemma fits_exact (MA A p H w2 h2 b2 : Z) :
  0 <= MA < 2 ^ 32 -> 0 <= A < 2 ^ 32 ->
  0 <= p < 2 ^ 16 -> 0 <= H <= 2 ^ 15 ->
  0 <= w2 <= 2 ^ 15 -> 0 <= h2 <= 2 ^ 15 -> 0 <= b2 < 2 ^ 8 ->
  MA < A -> A < u32 (MA + u32 (p * H)) ->
  u32 (u32 (A - MA) mod p + u32 (b2 * w2)) <= p ->
  u32 (u32 (u32 (A - MA) / p + h2) * p) <= u32 (u32 (MA + u32 (p * H)) - MA) ->
  u32 (u32 (MA + u32 (p * H)) - MA) = p * H
  /\ u32 (A - MA) = A - MA
  /\ (A - MA) mod p + w2 * b2 <= p
  /\ ((A - MA) / p + h2) * p <= p * H.
Proof.
  unfold u32. intros HMA HA Hp HH Hw Hh Hb Hlt Hend Hfw Hfh.
  assert (0 <= p * H < 2 ^ 31) as HpH by nia.
  rewrite (Z.mod_small (p * H)) in * by lia.
  assert (MA + p * H < 2 ^ 32) as Hno.
  { destruct (Z_lt_ge_dec (MA + p * H) (2 ^ 32)) as [?|Hge]; [done|].
    assert ((MA + p * H) mod 2 ^ 32 = MA + p * H - 2 ^ 32) as E.
    { symmetry. apply (Z.mod_unique_pos _ _ 1); lia. }
    lia. }
  rewrite (Z.mod_small (MA + p * H)) in * by lia.
  replace (MA + p * H - MA) with (p * H) in * by lia.
  rewrite (Z.mod_small (p * H)) in * by lia.
  rewrite (Z.mod_small (A - MA)) in * by lia.
  assert (0 < p) as Hp0 by nia.
  pose proof (Z.mod_pos_bound (A - MA) p Hp0) as Hm.
  pose proof (Z.div_mod (A - MA) p ltac:(lia)) as Hdm.
  assert (0 <= (A - MA) / p < H) as Hq.
  { split; [apply Z.div_pos; lia|]. apply Z.div_lt_upper_bound; lia. }
  assert (0 <= b2 * w2 < 2 ^ 23) as Hbw by nia.
  rewrite (Z.mod_small (b2 * w2)) in Hfw by lia.
  rewrite (Z.mod_small ((A - MA) mod p + b2 * w2)) in Hfw by lia.
  rewrite (Z.mod_small ((A - MA) / p + h2)) in Hfh by lia.
  assert (0 <= ((A - MA) / p + h2) * p < 2 ^ 32) as Hprod by nia.
  rewrite (Z.mod_small (((A - MA) / p + h2) * p)) in Hfh by lia.
  repeat split; lia.
Qed.

Lemma process_entry_inside hp info MA A surf r :
  process_entry hp info MA (u32 (MA + u32 (rsx_pitch info * surface_height info))) A surf
  = Some r ->
  info_in_range info = true ->
  (forall d, hp !! surf = Some d -> info_in_range (get_surface_info d) = true) ->
  0 <= MA < 2 ^ 32 -> 0 <= A < 2 ^ 32 ->
  exists dS, hp !! _ref r = Some dS
    /\ u32 (u32 (MA + u32 (rsx_pitch info * surface_height info)) - MA)
       = rsx_pitch info * surface_height info
    /\ MA < ov_memory_address r
    /\ (ov_memory_address r - MA) mod rsx_pitch info + ov_w r * bpp (get_surface_info dS)
       <= rsx_pitch info
    /\ (ov_y r + ov_h r) * rsx_pitch info <= rsx_pitch info * surface_height info.
Proof.
  unfold process_entry. intros He Hi Hs HMA HA.
  destruct (A <=? MA) eqn:E1; [done|]. apply Z.leb_gt in E1.
  destruct (_ <=? A) eqn:E2; [done|]. apply Z.leb_gt in E2.
  destruct (hp !! surf) as [d2|] eqn:Hd; [|done].
  destruct (_ && _) eqn:Hfit in He; [|done].
  apply andb_true_iff in Hfit as [Hfw Hfh].
  apply Z.leb_le in Hfw, Hfh. injection He as <-. simpl.
  apply info_in_range_bounds in Hi as (_ & HH & Hp & _).
  destruct (info_in_range_bounds _ (Hs d2 eq_refl)) as (Hw2 & Hh2 & _ & Hb2).
  destruct (fits_exact MA A (rsx_pitch info) (surface_height info)
              (surface_width (get_surface_info d2)) (surface_height (get_surface_info d2))
              (bpp (get_surface_info d2)))
    as (Hr & Ho & Hfw' & Hfh'); try done.
  exists d2. rewrite Ho in *. repeat split; try done; lia.
Qed.

Lemma process_block_inside s MA surf b :
  store_in_range s = true -> 0 <= MA < 2 ^ 32 ->
  process_block s MA surf = Some b -> block_inside (heap s) b.
Proof.
  intros Hs HMA. unfold process_block.
  destruct (heap s !! surf) as [d|] eqn:Hd; [|done].
  set (info := get_surface_info d).
  set (mend := u32 (MA + u32 (rsx_pitch info * surface_height info))).
  set (ov := _ ++ _). intros Hb.
  assert (b = mk_surface_hierachy_info MA (u32 (mend - MA)) (Some surf) ov) as ->.
  { destruct ov; [done|]. by injection Hb. }
  unfold block_inside. simpl. apply Forall_forall. intros r Hr.
  assert (exists A h, (m_render_targets_storage s !! A = Some h
                       \/ m_depth_stencil_storage s !! A = Some h)
                      /\ process_entry (heap s) info MA mend A h = Some r)
    as (A & h & Hin & He).
  { unfold ov in Hr. apply elem_of_app in Hr as [Hr|Hr];
      apply list_elem_of_omap in Hr as ([A h] & Hin & He);
      apply elem_of_map_to_list in Hin; exists A, h; auto. }
  assert (0 <= A < 2 ^ 32) as HA.
  { unfold store_in_range in Hs. rewrite !andb_true_iff in Hs.
    destruct Hs as ((((Hc & Hz) & _) & _) & _).
    rewrite forallb_forall in Hc, Hz.
    destruct Hin as [Hin|Hin]; apply elem_of_map_to_list, list_elem_of_In in Hin.
    - apply (address_in_range_bounds _ (Hc _ Hin)).
    - apply (address_in_range_bounds _ (Hz _ Hin)). }
  destruct (process_entry_inside _ _ _ _ _ _ He) as (dS & HdS & Hrange & Hlt & Hw & Hh);
    eauto using heap_info_in_range.
  exists surf, d, dS. cbn [memory_contents memory_range memory_address].
  subst mend info. rewrite Hrange. auto 10.
Qed.

(** C10 (as the code has it).  In a store whose addresses are [u32] and
    whose surfaces report a pitch below 2^16, a bpp below 2^8 and a width
    and a height of at most 2^15, so that no [u32] product of the fit tests
    wraps, [generate_render_target_memory_tree] keeps the memory tree a
    list of blocks whose every overlap record (S, A, x, y, w, h) has A
    strictly after the block's bound address MA, with
    (A - MA) mod rsx_pitch + w * bpp(S) <= rsx_pitch and
    (y + h) * rsx_pitch <= rsx_pitch * height, the footprint of the bound
    surface; the surface objects are not touched.  A surface failing a fit
    test therefore has no record. *)
Theorem memory_tree_records_inside (s : surface_store) :
  store_in_range s = true ->
  Forall (block_inside (heap s)) (m_memory_tree s) ->
  heap (generate_render_target_memory_tree s) = heap s
  /\ Forall (block_inside (heap s)) (m_memory_tree (generate_render_target_memory_tree s)).
Proof.
  intros Hs Hold. split; [done|].
  unfold generate_render_target_memory_tree. simpl.
  assert (forall slot b, address_in_range slot.1 = true ->
                         bound_block s slot = Some b -> block_inside (heap s) b) as Hslot.
  { intros [MA [surf|]] b Hr; unfold bound_block; simpl; destruct (MA =? 0); try done.
    apply process_block_inside; [done|]. by apply address_in_range_bounds. }
  pose proof Hs as Hs'. unfold store_in_range in Hs'. rewrite !andb_true_iff in Hs'.
  destruct Hs' as ((((_ & _) & Hb) & Hd) & _). rewrite forallb_forall in Hb.
  rewrite !Forall_app. split; [done|]. split.
  - apply Forall_forall. intros b Hin.
    apply list_elem_of_omap in Hin as (slot & Hin & Hblk).
    apply (Hslot slot); [|done]. apply Hb. by apply list_elem_of_In.
  - destruct (bound_block s (m_bound_depth_stencil s)) eqn:E; simpl; [|done].
    apply Forall_singleton. by apply (Hslot _ _ Hd).
Qed.

End MemoryTree.

(** ** The bind protocol *)

Section Bind.
Context {T : Traits}.

Lemma on_storage_heap p s1 s2 : heap s1 = heap s2 -> on_storage p s1 = on_storage p s2.
Proof. unfold on_storage. by intros ->. Qed.

Lemma install_render_target_reuse address color_format antialias width height pitch
  old conv s pre hit post :
  find_reusable
    (on_storage (fun d => rtt_has_format_width_height d color_format width height true) s)
    (invalidated_resources s) = Some (pre, hit, post) ->
  let r := install_render_target address color_format antialias width height pitch
             old conv s in
  r.1 = hit
  /\ trace r.2
     = trace s
       ++ match old with Some o => [notify_surface_invalidated o] | None => [] end
       ++ [invalidate_surface_contents hit
             (match old with None => conv | Some o => Some o end) address pitch;
           prepare_rtt_for_drawing hit].
Proof.
  intros Hfind. unfold install_render_target.
  set (s1 := set_render_targets_memory_range _ s).
  rewrite (on_storage_heap _ s1 s eq_refl).
  change (invalidated_resources s1) with (invalidated_resources s). rewrite Hfind.
  destruct old; simpl; rewrite <- ?app_assoc; done.
Qed.

Lemma install_depth_stencil_reuse address depth_format antialias width height pitch
  old conv s pre hit post :
  find_reusable
    (on_storage (fun d => ds_has_format_width_height d depth_format width height true) s)
    (invalidated_resources s) = Some (pre, hit, post) ->
  let r := install_depth_stencil address depth_format antialias width height pitch
             old conv s in
  r.1 = hit
  /\ trace r.2
     = trace s
       ++ match old with Some o => [notify_surface_invalidated o] | None => [] end
       ++ [prepare_ds_for_drawing hit;
           invalidate_surface_contents hit
             (match old with None => conv | Some o => Some o end) address pitch].
Proof.
  intros Hfind. unfold install_depth_stencil.
  set (s1 := set_depth_stencil_memory_range _ s).
  rewrite (on_storage_heap _ s1 s eq_refl).
  change (invalidated_resources s1) with (invalidated_resources s). rewrite Hfind.
  destruct old; simpl; rewrite <- ?app_assoc; done.
Qed.

Lemma evict_aliased_depth_trace address s :
  exists calls, trace (evict_aliased_depth address s).2 = trace s ++ calls.
Proof.
  unfold evict_aliased_depth.
  destruct (m_depth_stencil_storage s !! address); simpl; eauto.
  exists []. by rewrite app_nil_r.
Qed.

Lemma evict_aliased_rtt_trace address s :
  exists calls, trace (evict_aliased_rtt address s).2 = trace s ++ calls.
Proof.
  unfold evict_aliased_rtt.
  destruct (m_render_targets_storage s !! address); simpl; eauto.
  exists []. by rewrite app_nil_r.
Qed.

(** C1 (as the code has it).  When a bind finds no surface of the requested
    shape at the address and the search of the invalidated pool succeeds,
    the bind returns the surface found and its last two calls into the
    backend are, for colour, [invalidate_surface_contents] and then
    [prepare_rtt_for_drawing]; for depth, [prepare_ds_for_drawing] and then
    [invalidate_surface_contents]. *)
Theorem reuse_branch_call_order (address width height pitch : Z)
  (antialias : surface_antialiasing) (s : surface_store)
  (pre post : list handle) (hit : handle) :
  (forall (color_format : surface_color_format),
     let s0 := (evict_aliased_depth address s).2 in
     stored_with_shape
       (fun d => rtt_has_format_width_height d color_format width height false)
       (m_render_targets_storage s0) address s0 = false ->
     find_reusable
       (on_storage (fun d => rtt_has_format_width_height d color_format width height true) s0)
       (invalidated_resources s0) = Some (pre, hit, post) ->
     let r := bind_address_as_render_targets address color_format antialias
                width height pitch s in
     r.1 = hit
     /\ exists (calls : list backend_call) (source : option handle),
          trace r.2
          = trace s ++ calls
            ++ [invalidate_surface_contents hit source address pitch;
                prepare_rtt_for_drawing hit])
  /\ (forall (depth_format : surface_depth_format),
        let s0 := (evict_aliased_rtt address s).2 in
        stored_with_shape
          (fun d => ds_has_format_width_height d depth_format width height false)
          (m_depth_stencil_storage s0) address s0 = false ->
        find_reusable
          (on_storage (fun d => ds_has_format_width_height d depth_format width height true) s0)
          (invalidated_resources s0) = Some (pre, hit, post) ->
        let r := bind_address_as_depth_stencil address depth_format antialias
                   width height pitch s in
        r.1 = hit
        /\ exists (calls : list backend_call) (source : option handle),
             trace r.2
             = trace s ++ calls
               ++ [prepare_ds_for_drawing hit;
                   invalidate_surface_contents hit source address pitch]).
Proof.
  split.
  - intros color_format s0 Hshape Hfind r. subst r.
    destruct (evict_aliased_depth_trace address s) as [c0 Hc0]. fold s0 in Hc0.
    unfold bind_address_as_render_targets.
    destruct (evict_aliased_depth address s) as [conv s0'].
    simpl in s0. subst s0. unfold stored_with_shape in Hshape.
    destruct (m_render_targets_storage s0' !! address) as [rtt|] eqn:Hl.
    + rewrite Hshape.
      set (s1 := set_render_targets_storage _ s0').
      rewrite <- (on_storage_heap _ s1 s0' eq_refl) in Hfind.
      destruct (install_render_target_reuse address color_format antialias width height
                  pitch (Some rtt) conv s1 pre hit post Hfind) as [-> ->].
      split; [done|]. eexists (c0 ++ [_]), _.
      change (trace s1) with (trace s0'). rewrite Hc0, <- !app_assoc. done.
    + destruct (install_render_target_reuse address color_format antialias width height
                  pitch None conv s0' pre hit post Hfind) as [-> ->].
      split; [done|]. exists c0, conv. by rewrite Hc0, <- !app_assoc.
  - intros depth_format s0 Hshape Hfind r. subst r.
    destruct (evict_aliased_rtt_trace address s) as [c0 Hc0]. fold s0 in Hc0.
    unfold bind_address_as_depth_stencil.
    destruct (evict_aliased_rtt address s) as [conv s0'].
    simpl in s0. subst s0. unfold stored_with_shape in Hshape.
    destruct (m_depth_stencil_storage s0' !! address) as [ds|] eqn:Hl.
    + rewrite Hshape.
      set (s1 := set_depth_stencil_storage _ s0').
      rewrite <- (on_storage_heap _ s1 s0' eq_refl) in Hfind.
      destruct (install_depth_stencil_reuse address depth_format antialias width height
                  pitch (Some ds) conv s1 pre hit post Hfind) as [-> ->].
      split; [done|]. eexists (c0 ++ [_]), _.
      change (trace s1) with (trace s0'). rewrite Hc0, <- !app_assoc. done.
    + destruct (install_depth_stencil_reuse address depth_format antialias width height
                  pitch None conv s0' pre hit post Hfind) as [-> ->].
      split; [done|]. exists c0, conv. by rewrite Hc0, <- !app_assoc.
Qed.

Lemma install_render_target_maps address color_format antialias width height pitch
  old conv s :
  let r := install_render_target address color_format antialias width height pitch
             old conv s in
  m_depth_stencil_storage r.2 = m_depth_stencil_storage s
  /\ m_render_targets_storage r.2 = <[address := r.1]> (m_render_targets_storage s).
Proof.
  unfold install_render_target.
  destruct (find_reusable _ _) as [[[pre hit] post]|]; destruct old; done.
Qed.

Lemma install_depth_stencil_maps address depth_format antialias width height pitch
  old conv s :
  let r := install_depth_stencil address depth_format antialias width height pitch
             old conv s in
  m_render_targets_storage r.2 = m_render_targets_storage s
  /\ m_depth_stencil_storage r.2 = <[address := r.1]> (m_depth_stencil_storage s).
Proof.
  unfold install_depth_stencil.
  destruct (find_reusable _ _) as [[[pre hit] post]|]; destruct old; done.
Qed.

(** The maps after a bind: the own map holds the returned surface at the
    address, the other map holds nothing there, nothing else moves. *)
Lemma bind_address_as_render_targets_maps address color_format antialias width height
  pitch s :
  let r := bind_address_as_render_targets address color_format antialias
             width height pitch s in
  m_depth_stencil_storage r.2 = delete address (m_depth_stencil_storage s)
  /\ m_render_targets_storage r.2 = <[address := r.1]> (m_render_targets_storage s).
Proof.
  unfold bind_address_as_render_targets.
  assert (m_depth_stencil_storage (evict_aliased_depth address s).2
          = delete address (m_depth_stencil_storage s)
          /\ m_render_targets_storage (evict_aliased_depth address s).2
             = m_render_targets_storage s) as [Hd Hc].
  { unfold evict_aliased_depth.
    destruct (m_depth_stencil_storage s !! address) eqn:E; simpl; [done|].
    by rewrite delete_id. }
  destruct (evict_aliased_depth address s) as [conv s0]. simpl in Hd, Hc.
  destruct (m_render_targets_storage s0 !! address) as [rtt|] eqn:Hl.
  - destruct (on_storage _ s0 rtt).
    + destruct (on_storage _ s0 rtt); simpl; rewrite Hd, <- Hc; by rewrite insert_id.
    + set (s1 := set_render_targets_storage _ s0).
      destruct (install_render_target_maps address color_format antialias width height
                  pitch (Some rtt) conv s1) as [-> ->].
      simpl. by rewrite insert_delete_eq, Hd, Hc.
  - destruct (install_render_target_maps address color_format antialias width height
                pitch None conv s0) as [-> ->]. by rewrite Hd, Hc.
Qed.

Lemma bind_address_as_depth_stencil_maps address depth_format antialias width height
  pitch s :
  let r := bind_address_as_depth_stencil address depth_format antialias
             width height pitch s in
  m_render_targets_storage r.2 = delete address (m_render_targets_storage s)
  /\ m_depth_stencil_storage r.2 = <[address := r.1]> (m_depth_stencil_storage s).
Proof.
  unfold bind_address_as_depth_stencil.
  assert (m_render_targets_storage (evict_aliased_rtt address s).2
          = delete address (m_render_targets_storage s)
          /\ m_depth_stencil_storage (evict_aliased_rtt address s).2
             = m_depth_stencil_storage s) as [Hc Hd].
  { unfold evict_aliased_rtt.
    destruct (m_render_targets_storage s !! address) eqn:E; simpl; [done|].
    by rewrite delete_id. }
  destruct (evict_aliased_rtt address s) as [conv s0]. simpl in Hd, Hc.
  destruct (m_depth_stencil_storage s0 !! address) as [ds|] eqn:Hl.
  - destruct (on_storage _ s0 ds).
    + destruct (on_storage _ s0 ds); simpl; rewrite Hc, <- Hd; by rewrite insert_id.
    + set (s1 := set_depth_stencil_storage _ s0).
      destruct (install_depth_stencil_maps address depth_format antialias width height
                  pitch (Some ds) conv s1) as [-> ->].
      simpl. by rewrite insert_delete_eq, Hd, Hc.
  - destruct (install_depth_stencil_maps address depth_format antialias width height
                pitch None conv s0) as [-> ->]. by rewrite Hd, Hc.
Qed.

Lemma disjoint_after_bind {A : Type} (own alien : gmap Z A) (address : Z) (x : A) :
  own ##ₘ alien -> <[address := x]> own ##ₘ delete address alien.
Proof.
  rewrite !map_disjoint_spec. intros Hd i a b Ha Hb.
  destruct (decide (address = i)) as [->|Hne].
  - by rewrite lookup_delete_eq in Hb.
  - rewrite lookup_insert_ne in Ha by done. rewrite lookup_delete_ne in Hb by done. eauto.
Qed.

Lemma foldl_invariant {A : Type} (P : surface_store -> Prop)
  (f : surface_store -> A -> surface_store) :
  (forall s x, P s -> P (f s x)) -> forall l s, P s -> P (foldl f s l).
Proof.
  intros Hf l. induction l as [|x l IH]; intros s Hs; [done|]. simpl. auto.
Qed.

Lemma foldl_keeps {A B : Type} (proj : surface_store -> B)
  (f : surface_store -> A -> surface_store) :
  (forall s x, proj (f s x) = proj s) -> forall l s, proj (foldl f s l) = proj s.
Proof.
  intros Hf l. induction l as [|x l IH]; intros s; [done|]. simpl. by rewrite IH.
Qed.

Lemma sample_bound_render_targets_maps s :
  store_maps (sample_bound_render_targets s) = store_maps s.
Proof.
  unfold sample_bound_render_targets.
  change (store_maps (set_bound_render_targets ?b ?x)) with (store_maps x).
  apply foldl_keeps. intros s' x. by destruct x.2.
Qed.

Lemma maps_disjoint_same_maps s s' :
  store_maps s' = store_maps s -> maps_disjoint s -> maps_disjoint s'.
Proof. unfold store_maps, maps_disjoint. by intros [= -> ->]. Qed.

Lemma bind_address_as_render_targets_disjoint address color_format antialias width
  height pitch s :
  maps_disjoint s ->
  maps_disjoint (bind_address_as_render_targets address color_format antialias
                   width height pitch s).2.
Proof.
  unfold maps_disjoint. intros Hd.
  destruct (bind_address_as_render_targets_maps address color_format antialias
              width height pitch s) as [-> ->].
  by apply disjoint_after_bind.
Qed.

Lemma bind_address_as_depth_stencil_disjoint address depth_format antialias width
  height pitch s :
  maps_disjoint s ->
  maps_disjoint (bind_address_as_depth_stencil address depth_format antialias
                   width height pitch s).2.
Proof.
  unfold maps_disjoint. intros Hd.
  destruct (bind_address_as_depth_stencil_maps address depth_format antialias
              width height pitch s) as [-> ->].
  by apply map_disjoint_sym, disjoint_after_bind.
Qed.

Lemma prepare_render_target_disjoint color_format depth_format clip_horizontal_reg
  clip_vertical_reg set_surface_target antialias surface_addresses address_z
  surface_pitch zeta_pitch s :
  maps_disjoint s ->
  maps_disjoint (prepare_render_target color_format depth_format clip_horizontal_reg
                   clip_vertical_reg set_surface_target antialias surface_addresses
                   address_z surface_pitch zeta_pitch s).
Proof.
  intros Hd. unfold prepare_render_target. simpl.
  set (s1 := set_memory_tree [] _).
  assert (maps_disjoint (sample_bound_render_targets s1)) as H2.
  { apply (maps_disjoint_same_maps s1); [apply sample_bound_render_targets_maps|done]. }
  set (s2 := sample_bound_render_targets s1) in *.
  assert (maps_disjoint (bind_render_targets color_format antialias clip_horizontal_reg
                           clip_vertical_reg surface_addresses surface_pitch
                           (get_rtt_indexes set_surface_target) s2)) as H3.
  { unfold bind_render_targets. apply foldl_invariant; [|done].
    intros s' i Hs'. destruct (array_at surface_addresses i =? 0); [done|].
    pose proof (bind_address_as_render_targets_disjoint
                  (array_at surface_addresses i) color_format antialias
                  clip_horizontal_reg clip_vertical_reg (array_at surface_pitch i) s' Hs')
      as Hb.
    by destruct (bind_address_as_render_targets _ _ _ _ _ _ s'). }
  set (s3 := bind_render_targets _ _ _ _ _ _ _ s2) in *.
  set (s4 := match (m_bound_depth_stencil s3).2 with Some _ => _ | None => s3 end).
  assert (maps_disjoint s4) as H4.
  { unfold s4. by destruct (m_bound_depth_stencil s3).2. }
  destruct (address_z =? 0); [done|].
  pose proof (bind_address_as_depth_stencil_disjoint address_z depth_format antialias
                clip_horizontal_reg clip_vertical_reg zeta_pitch
                (set_bound_depth_stencil (0, None) s4) H4) as Hb.
  by destruct (bind_address_as_depth_stencil _ _ _ _ _ _ _).
Qed.

Lemma retire_render_target_disjoint address st s :
  maps_disjoint s -> maps_disjoint (retire_render_target address st s).
Proof. unfold maps_disjoint. simpl. apply map_disjoint_delete_l. Qed.

Lemma retire_depth_stencil_disjoint address st s :
  maps_disjoint s -> maps_disjoint (retire_depth_stencil address st s).
Proof. unfold maps_disjoint. simpl. apply map_disjoint_delete_r. Qed.

Lemma invalidate_surface_address_disjoint addr depth s :
  maps_disjoint s -> maps_disjoint (invalidate_surface_address addr depth s).
Proof.
  intros Hd. unfold invalidate_surface_address.
  destruct (address_is_bound addr s); [done|].
  destruct (negb depth).
  - destruct (m_render_targets_storage s !! addr); [|done].
    by apply retire_render_target_disjoint.
  - destruct (m_depth_stencil_storage s !! addr); [|done].
    by apply retire_depth_stencil_disjoint.
Qed.

Lemma invalidate_single_surface_disjoint surf depth s :
  maps_disjoint s -> maps_disjoint (invalidate_single_surface surf depth s).
Proof.
  intros Hd. unfold invalidate_single_surface.
  destruct (negb depth).
  - destruct (find _ _) as [[a st]|]; [|done]. by apply retire_render_target_disjoint.
  - destruct (find _ _) as [[a st]|]; [|done]. by apply retire_depth_stencil_disjoint.
Qed.

Lemma on_write_propagate_maps mem address s :
  store_maps (on_write_propagate mem address s) = store_maps s.
Proof.
  unfold on_write_propagate.
  set (s1 := if negb (memory_tag s =? cache_tag s) then _ else s).
  assert (store_maps s1 = store_maps s) as <-.
  { unfold s1. by destruct (negb (memory_tag s =? cache_tag s)). }
  set (s2 := foldl (mark_overlapping_dirty address) s1 (m_memory_tree s1)).
  assert (store_maps s2 = store_maps s1) as <-.
  { apply foldl_keeps. intros s' e.
    unfold mark_overlapping_dirty. destruct (_ && _); [done|].
    by apply foldl_keeps. }
  set (s3 := foldl (write_bound_render_target mem address) s2 (m_bound_render_targets s2)).
  assert (store_maps s3 = store_maps s2) as <-.
  { apply foldl_keeps. intros s' e.
    unfold write_bound_render_target. destruct (_ && _); [done|]. by destruct e.2. }
  destruct (m_bound_depth_stencil s3).2; [|done]. by destruct (_ || _).
Qed.

Lemma step_maps_disjoint s s' : step s s' -> maps_disjoint s -> maps_disjoint s'.
Proof.
  intros Hstep Hd. destruct Hstep.
  - by apply prepare_render_target_disjoint.
  - by apply invalidate_single_surface_disjoint.
  - by apply invalidate_surface_address_disjoint.
  - unfold get_merged_texture_memory_region. simpl.
    apply foldl_invariant; [intros; by apply invalidate_surface_address_disjoint|].
    by apply foldl_invariant.
  - unfold on_write. destruct (address =? 0).
    + destruct (write_tag s =? cache_tag s); [done|].
      by apply (maps_disjoint_same_maps _ _ (on_write_propagate_maps _ _ _)).
    + by apply (maps_disjoint_same_maps _ _ (on_write_propagate_maps _ _ _)).
  - done.
Qed.

Lemma reachable_maps_disjoint s : reachable s -> maps_disjoint s.
Proof.
  induction 1 as [s Hc Hz|s s' _ IH Hstep].
  - unfold maps_disjoint. rewrite Hc. apply map_disjoint_empty_l.
  - by apply (step_maps_disjoint s).
Qed.

(** C3.  In every store reached from a new one by calls of the public
    member functions, no address is a key of both the colour map and the
    depth map.  A bind keeps it so: after it the own map holds the returned
    surface at the address and the other map holds nothing there.  When the
    other map held a storage at the address, the bind first notifies the
    backend, takes the displaced handle as [convert_surface], pushes the
    storage at the back of [invalidated_resources] and erases it from the
    other map, and then proceeds on that store as for an address free of
    its own type. *)
Theorem maps_stay_disjoint (s : surface_store) :
  reachable s ->
  maps_disjoint s
  /\ forall (address width height pitch : Z) (antialias : surface_antialiasing),
  (forall (color_format : surface_color_format),
     let r := bind_address_as_render_targets address color_format antialias
                width height pitch s in
     m_render_targets_storage r.2 ##ₘ m_depth_stencil_storage r.2
     /\ m_render_targets_storage r.2 !! address = Some r.1
     /\ m_depth_stencil_storage r.2 !! address = None
     /\ forall st, m_depth_stencil_storage s !! address = Some st ->
          let e := evict_aliased_depth address s in
          e.1 = Some st
          /\ trace e.2 = trace s ++ [notify_surface_invalidated st]
          /\ invalidated_resources e.2 = invalidated_resources s ++ [st]
          /\ m_depth_stencil_storage e.2 = delete address (m_depth_stencil_storage s)
          /\ m_render_targets_storage e.2 = m_render_targets_storage s
          /\ r = install_render_target address color_format antialias width height pitch
                   None (Some st) e.2)
  /\ (forall (depth_format : surface_depth_format),
        let r := bind_address_as_depth_stencil address depth_format antialias
                   width height pitch s in
        m_render_targets_storage r.2 ##ₘ m_depth_stencil_storage r.2
        /\ m_depth_stencil_storage r.2 !! address = Some r.1
        /\ m_render_targets_storage r.2 !! address = None
        /\ forall st, m_render_targets_storage s !! address = Some st ->
             let e := evict_aliased_rtt address s in
             e.1 = Some st
             /\ trace e.2 = trace s ++ [notify_surface_invalidated st]
             /\ invalidated_resources e.2 = invalidated_resources s ++ [st]
             /\ m_render_targets_storage e.2 = delete address (m_render_targets_storage s)
             /\ m_depth_stencil_storage e.2 = m_depth_stencil_storage s
             /\ r = install_depth_stencil address depth_format antialias width height pitch
                      None (Some st) e.2).
Proof.
  intros Hreach. pose proof (reachable_maps_disjoint s Hreach) as Hdisj.
  split; [done|]. intros address width height pitch antialias.
  unfold maps_disjoint in Hdisj. split.
  - intros color_format r.
    destruct (bind_address_as_render_targets_maps address color_format antialias
                width height pitch s) as [Hd Hc]. fold r in Hd, Hc.
    rewrite Hd, Hc. split; [by apply disjoint_after_bind|].
    split; [apply lookup_insert_eq|]. split; [apply lookup_delete_eq|].
    intros st Hst e. subst e r.
    unfold bind_address_as_render_targets, evict_aliased_depth. rewrite Hst. simpl.
    repeat split.
    assert (m_render_targets_storage s !! address = None) as ->; [|done].
    rewrite map_disjoint_spec in Hdisj.
    destruct (m_render_targets_storage s !! address) eqn:E; [|done].
    by destruct (Hdisj _ _ _ E Hst).
  - intros depth_format r.
    destruct (bind_address_as_depth_stencil_maps address depth_format antialias
                width height pitch s) as [Hc Hd]. fold r in Hd, Hc.
    rewrite Hd, Hc. split; [by apply map_disjoint_sym, disjoint_after_bind|].
    split; [apply lookup_insert_eq|]. split; [apply lookup_delete_eq|].
    intros st Hst e. subst e r.
    unfold bind_address_as_depth_stencil, evict_aliased_rtt. rewrite Hst. simpl.
    repeat split.
    assert (m_depth_stencil_storage s !! address = None) as ->; [|done].
    rewrite map_disjoint_spec in Hdisj.
    destruct (m_depth_stencil_storage s !! address) eqn:E; [|done].
    by destruct (Hdisj _ _ _ Hst E).
Qed.

End Bind.

(** ** Sorting *)

Section Sorting.
Context {A : Type} (comp : A -> A -> bool).
Hypothesis comp_asym : forall x y, comp x y = true -> comp y x = false.

Lemma sort_insert_perm x l : sort_insert comp x l ≡ₚ x :: l.
Proof.
  induction l as [|y r IH]; [done|]. simpl.
  destruct (comp y x); [|done]. rewrite IH. apply Permutation_swap.
Qed.

Lemma std_sort_perm l : std_sort comp l ≡ₚ l.
Proof.
  induction l as [|x l IH]; [done|].
  unfold std_sort in *. simpl. by rewrite sort_insert_perm, IH.
Qed.



End Sorting.



Lemma overlap_before_false hp a b :
  overlap_before hp b a = false ->
  use_tag hp a < use_tag hp b \/ (use_tag hp a = use_tag hp b /\ area a <= area b).
Proof.
  unfold overlap_before.
  destruct (use_tag hp b =? use_tag hp a) eqn:E.
  - apply Z.eqb_eq in E. rewrite Z.ltb_ge. lia.
  - apply Z.eqb_neq in E. rewrite Z.ltb_ge. lia.
Qed.

(** ** The overlap query *)

Section Query.
Context {T : Traits}.

Lemma u16_range x : 0 <= u16 x < 2 ^ 16.
Proof. unfold u16. apply Z.mod_pos_bound. lia. Qed.

Lemma area_exact a : 0 <= width a * height a < 2 ^ 31 -> area a = width a * height a.
Proof. unfold area, s32. intros H. rewrite Z.mod_small; lia. Qed.

Lemma project_overlap_identity surf this_address depth info sx sy texaddr rw rh rp :
  let r := project_overlap surf this_address depth info sx sy texaddr rw rh rp in
  surface r = surf /\ base_address r = this_address /\ is_depth r = depth
  /\ 0 <= width r < 2 ^ 16 /\ 0 <= height r < 2 ^ 16.
Proof.
  unfold project_overlap. destruct (this_address <? texaddr); simpl;
    auto using u16_range.
Qed.

(** A candidate that yields a record is a live surface that passed
    [test]; the record is its projection. *)
Lemma process_candidate_overlapping mem hp texaddr rw rh rp limit depth e surf r :
  process_candidate mem hp texaddr rw rh rp limit depth e = overlapping surf r ->
  exists d, hp !! e.2 = Some d /\ test mem d = true /\ surf = e.2
    /\ r = project_overlap e.2 e.1 depth (get_surface_info d)
             (if aa_gt (read_aa_mode d) center_1_sample then 2 else 1)
             (if aa_gt (read_aa_mode d) diagonal_centered_2_samples then 2 else 1)
             texaddr rw rh rp.
Proof.
  unfold process_candidate. intros H.
  destruct (limit <=? e.1); [done|].
  destruct (hp !! e.2) as [d|]; [|done].
  destruct (negb (pitch_compatible d rp rh)); [done|].
  destruct (_ <=? texaddr); [done|].
  destruct (test mem d) eqn:Ht; [|done]. simpl in H.
  injection H as <- <-. by exists d.
Qed.

Lemma scan_result_origin mem hp texaddr rw rh rp limit depth (l : list (Z * handle)) acc r :
  r ∈ scan_result (foldl (scan_step mem hp texaddr rw rh rp limit depth) acc l) ->
  r ∈ scan_result acc
  \/ exists e surf, e ∈ l
       /\ process_candidate mem hp texaddr rw rh rp limit depth e = overlapping surf r.
Proof.
  revert acc. induction l as [|e l IH]; intros acc Hr; [by left|].
  simpl in Hr. apply IH in Hr as [Hr|(e' & surf & Hin & He)].
  - unfold scan_step in Hr.
    destruct (process_candidate _ _ _ _ _ _ _ _ e) as [|surf|surf info] eqn:Hc;
      simpl in Hr; [by left|by left|].
    apply elem_of_app in Hr as [Hr|Hr]; [by left|].
    apply list_elem_of_singleton in Hr as ->. right. exists e, surf.
    split; [apply list_elem_of_here|done].
  - right. exists e', surf. split; [by apply list_elem_of_further|done].
Qed.

Lemma scan_dirty_kept mem hp texaddr rw rh rp limit depth (l : list (Z * handle)) acc p :
  p ∈ scan_dirty acc ->
  p ∈ scan_dirty (foldl (scan_step mem hp texaddr rw rh rp limit depth) acc l).
Proof.
  revert acc. induction l as [|e l IH]; intros acc Hp; [done|]. simpl. apply IH.
  unfold scan_step. destruct (process_candidate _ _ _ _ _ _ _ _ e); simpl; [done| |done].
  apply elem_of_app. by left.
Qed.

(** A candidate that fails [test] is entered in the dirty list. *)
Lemma scan_dirty_stale mem hp texaddr rw rh rp limit depth (l : list (Z * handle)) acc e surf :
  e ∈ l ->
  process_candidate mem hp texaddr rw rh rp limit depth e = stale surf ->
  (e.1, depth) ∈ scan_dirty (foldl (scan_step mem hp texaddr rw rh rp limit depth) acc l).
Proof.
  revert acc. induction l as [|e' l IH]; intros acc Hin Hc; [by apply elem_of_nil in Hin|].
  simpl. apply elem_of_cons in Hin as [->|Hin]; [|by apply IH].
  apply scan_dirty_kept. unfold scan_step. rewrite Hc. simpl.
  apply elem_of_app. right. apply list_elem_of_here.
Qed.

(** Every record of the query is the projection of a surface stored in the
    map of its type, at its base address, that passed [test]. *)
Lemma query_result_origin mem texaddr rw rh rp s r :
  r ∈ (get_merged_texture_memory_region mem texaddr rw rh rp s).1 ->
  exists d,
    (if is_depth r then m_depth_stencil_storage s else m_render_targets_storage s)
      !! base_address r = Some (surface r)
    /\ heap s !! surface r = Some d /\ test mem d = true
    /\ 0 <= width r < 2 ^ 16 /\ 0 <= height r < 2 ^ 16.
Proof.
  unfold get_merged_texture_memory_region. cbn [fst].
  set (limit := u32 (texaddr + u32 (rp * rh))).
  set (acc1 := if overlaps _ (m_render_targets_memory_range s) then _ else _).
  set (acc2 := if overlaps _ (m_depth_stencil_memory_range s) then _ else acc1).
  intros Hr.
  assert (r ∈ scan_result acc2) as Hr2.
  { destruct (1 <? length (scan_result acc2))%nat; [|done].
    by rewrite std_sort_perm in Hr. }
  clear Hr.
  assert (forall depth data e surf,
            e ∈ map_to_list data ->
            process_candidate mem (heap s) texaddr rw rh rp limit depth e
            = overlapping surf r ->
            exists d, data !! base_address r = Some (surface r)
              /\ is_depth r = depth
              /\ heap s !! surface r = Some d /\ test mem d = true
              /\ 0 <= width r < 2 ^ 16 /\ 0 <= height r < 2 ^ 16) as Hcand.
  { intros depth data [A h] surf Hin Hc.
    apply process_candidate_overlapping in Hc as (d & Hd & Ht & -> & ->).
    apply elem_of_map_to_list in Hin. simpl in *.
    destruct (project_overlap_identity h A depth (get_surface_info d)
                (if aa_gt (read_aa_mode d) center_1_sample then 2 else 1)
                (if aa_gt (read_aa_mode d) diagonal_centered_2_samples then 2 else 1)
                texaddr rw rh rp) as (-> & -> & -> & Hw & Hh).
    by exists d. }
  assert (r ∈ scan_result acc1 ->
          exists d, m_render_targets_storage s !! base_address r = Some (surface r)
            /\ is_depth r = false
            /\ heap s !! surface r = Some d /\ test mem d = true
            /\ 0 <= width r < 2 ^ 16 /\ 0 <= height r < 2 ^ 16) as H1.
  { unfold acc1. destruct (overlaps _ _); [|by intros ?%elem_of_nil].
    unfold process_list_function. intros Hr.
    apply scan_result_origin in Hr as [Hr|(e & surf & Hin & Hc)];
      [by apply elem_of_nil in Hr|]. by apply (Hcand false _ e surf). }
  assert (r ∈ scan_result acc1
          \/ exists d, m_depth_stencil_storage s !! base_address r = Some (surface r)
               /\ is_depth r = true
               /\ heap s !! surface r = Some d /\ test mem d = true
               /\ 0 <= width r < 2 ^ 16 /\ 0 <= height r < 2 ^ 16) as [Hc|Hz].
  { revert Hr2. unfold acc2. destruct (overlaps _ (m_depth_stencil_memory_range s));
      [|by left].
    unfold process_list_function. intros Hr.
    apply scan_result_origin in Hr as [Hr|(e & surf & Hin & Hc)]; [by left|].
    right. by apply (Hcand true _ e surf). }
  - destruct (H1 Hc) as (d & Hl & -> & Hrest). by exists d.
  - destruct Hz as (d & Hl & -> & Hrest). by exists d.
Qed.




Lemma address_is_bound_slot A surf s :
  (A, surf) ∈ m_bound_render_targets s -> address_is_bound A s = true.
Proof.
  intros Hin. unfold address_is_bound. apply orb_true_iff. left.
  apply existsb_exists. exists (A, surf). split; [by apply list_elem_of_In|].
  apply Z.eqb_refl.
Qed.

(** The pruning of one dirty entry leaves a bound colour surface where it
    is. *)
Lemma invalidate_surface_address_keeps_bound A h addr depth s :
  (A, Some h) ∈ m_bound_render_targets s /\ m_render_targets_storage s !! A = Some h ->
  (A, Some h) ∈ m_bound_render_targets (invalidate_surface_address addr depth s)
  /\ m_render_targets_storage (invalidate_surface_address addr depth s) !! A = Some h.
Proof.
  intros [Hb Hl]. unfold invalidate_surface_address.
  destruct (address_is_bound addr s) eqn:E; [done|].
  assert (addr <> A) as Hne.
  { intros ->. by rewrite (address_is_bound_slot _ _ _ Hb) in E. }
  destruct (negb depth).
  - destruct (m_render_targets_storage s !! addr); [|done]. simpl.
    by rewrite lookup_delete_ne.
  - by destruct (m_depth_stencil_storage s !! addr).
Qed.

(** C2 (as the code has it).  When a surface bound as a render target fails
    [test] during the query, the query returns no record for it, and the
    pruning pass leaves it alone, the address being bound: after the query
    the storage is still in the colour map at its address and the slot
    still refers to it. *)
Theorem stale_bound_surface_is_kept (mem : guest_memory)
  (texaddr required_width required_height required_pitch : Z) (s : surface_store)
  (A : Z) (h : handle) (d : render_target_descriptor) :
  (A, Some h) ∈ m_bound_render_targets s ->
  m_render_targets_storage s !! A = Some h ->
  heap s !! h = Some d ->
  test mem d = false ->
  let r := get_merged_texture_memory_region mem texaddr required_width required_height
             required_pitch s in
  (forall info, info ∈ r.1 -> ~ (base_address info = A /\ is_depth info = false))
  /\ m_render_targets_storage r.2 !! A = Some h
  /\ (A, Some h) ∈ m_bound_render_targets r.2
  /\ invalidate_surface_address A false r.2 = r.2.
Proof.
  intros Hb Hl Hd Ht r.
  assert ((A, Some h) ∈ m_bound_render_targets r.2
          /\ m_render_targets_storage r.2 !! A = Some h) as [Hb' Hl'].
  { unfold r, get_merged_texture_memory_region. cbn [snd].
    apply (foldl_invariant
             (fun s => (A, Some h) ∈ m_bound_render_targets s
                       /\ m_render_targets_storage s !! A = Some h)).
    - intros s' p. apply invalidate_surface_address_keeps_bound.
    - by apply (foldl_invariant
                  (fun s => (A, Some h) ∈ m_bound_render_targets s
                            /\ m_render_targets_storage s !! A = Some h)). }
  split; [|repeat split; try done].
  - intros info Hin [HA Hdepth].
    apply query_result_origin in Hin as (d' & Hl2 & Hd2 & Ht2 & _).
    rewrite Hdepth, HA, Hl in Hl2. injection Hl2 as Hs.
    rewrite <- Hs, Hd in Hd2. injection Hd2 as <-. congruence.
  - unfold invalidate_surface_address.
    by rewrite (address_is_bound_slot _ _ _ Hb').
Qed.

(** The pruning pass moves an unbound surface of the dirty list to the
    invalidated pool. *)
Lemma pruning_moves_unbound A h (l : list (Z * bool)) s :
  address_is_bound A s = false ->
  (m_render_targets_storage s !! A = Some h /\ (A, false) ∈ l)
  \/ (m_render_targets_storage s !! A = None /\ h ∈ invalidated_resources s) ->
  let s' := foldl (fun s (p : Z * bool) => invalidate_surface_address p.1 p.2 s) s l in
  m_render_targets_storage s' !! A = None /\ h ∈ invalidated_resources s'.
Proof.
  revert s. induction l as [|[addr depth] l IH]; intros s Hb Hcase.
  - destruct Hcase as [[_ Hin]|Hdone]; [by apply elem_of_nil in Hin|done].
  - cbn [foldl fst snd]. apply IH.
    + unfold invalidate_surface_address. destruct (address_is_bound addr s); [done|].
      destruct (negb depth);
        [destruct (m_render_targets_storage s !! addr)
        |destruct (m_depth_stencil_storage s !! addr)]; done.
    + unfold invalidate_surface_address.
      destruct (address_is_bound addr s) eqn:Eb.
      { destruct Hcase as [[Hl Hin]|Hdone]; [left|by right]. split; [done|].
        apply elem_of_cons in Hin as [Heq|Hin]; [|done].
        injection Heq as <- _. congruence. }
      destruct depth; simpl.
      * destruct (m_depth_stencil_storage s !! addr); simpl.
        -- destruct Hcase as [[Hl Hin]|[Hn Hp]].
           ++ left. split; [done|]. by apply elem_of_cons in Hin as [?|Hin].
           ++ right. split; [done|]. apply elem_of_app. by left.
        -- destruct Hcase as [[Hl Hin]|Hdone]; [left|by right]. split; [done|].
           by apply elem_of_cons in Hin as [?|Hin].
      * destruct (m_render_targets_storage s !! addr) as [st|] eqn:El; simpl.
        -- destruct (decide (addr = A)) as [->|Hne].
           ++ right. rewrite lookup_delete_eq. split; [done|].
              destruct Hcase as [[Hl Hin]|[Hn Hp]]; [|congruence].
              rewrite El in Hl. injection Hl as ->.
              apply elem_of_app. right. apply list_elem_of_here.
           ++ rewrite lookup_delete_ne by done.
              destruct Hcase as [[Hl Hin]|[Hn Hp]].
              ** left. split; [done|].
                 apply elem_of_cons in Hin as [Heq|Hin]; [|done]. congruence.
              ** right. split; [done|]. apply elem_of_app. by left.
        -- destruct Hcase as [[Hl Hin]|Hdone]; [left|by right]. split; [done|].
           apply elem_of_cons in Hin as [Heq|Hin]; [|done].
           injection Heq as <-. congruence.
Qed.

(** A surface that is not bound and fails [test] in the scan of the colour
    map is moved: after the query it is out of the colour map and in
    [invalidated_resources]. *)
Lemma stale_unbound_surface_is_pruned (mem : guest_memory)
  (texaddr required_width required_height required_pitch : Z) (s : surface_store)
  (A : Z) (h : handle) :
  m_render_targets_storage s !! A = Some h ->
  address_is_bound A s = false ->
  let limit := u32 (texaddr + u32 (required_pitch * required_height)) in
  overlaps (start_end texaddr (u32 (limit - 1))) (m_render_targets_memory_range s) = true ->
  process_candidate mem (heap s) texaddr required_width required_height required_pitch
    limit false (A, h) = stale h ->
  let r := get_merged_texture_memory_region mem texaddr required_width required_height
             required_pitch s in
  m_render_targets_storage r.2 !! A = None /\ h ∈ invalidated_resources r.2.
Proof.
  intros Hl Hb limit Hov Hc r. unfold r, get_merged_texture_memory_region. cbn [snd].
  fold limit. rewrite Hov.
  set (acc1 := process_list_function _ _ _ _ _ _ _ (m_render_targets_storage s) false _).
  set (acc2 := if overlaps _ (m_depth_stencil_memory_range s) then _ else acc1).
  assert ((A, false) ∈ scan_dirty acc1) as H1.
  { unfold acc1, process_list_function.
    apply (scan_dirty_stale _ _ _ _ _ _ _ _ _ _ (A, h) h); [|done].
    by apply elem_of_map_to_list. }
  assert ((A, false) ∈ scan_dirty acc2) as H2.
  { unfold acc2. destruct (overlaps _ (m_depth_stencil_memory_range s)); [|done].
    unfold process_list_function. by apply scan_dirty_kept. }
  set (s1 := foldl (fun s e => call e s) s (scan_calls acc2)).
  assert (store_core s1 = store_core s) as Hcore by by apply foldl_keeps.
  unfold store_core in Hcore. injection Hcore as Hc1 _ _ _ _ Hb1 Hz1.
  apply pruning_moves_unbound.
  - unfold address_is_bound in *. by rewrite Hb1, Hz1.
  - left. by rewrite Hc1.
Qed.

(** C4 (as the code has it).  For a candidate at [A], at or after the
    texture address [T], that yields a record, let offset = A - T.  If the
    required width and height fit in 16 bits and the destination offsets
    dst_y = offset / RP and dst_x = (offset mod RP) / bpp do not exceed
    them, the record has src_x = src_y = 0, these dst_y and dst_x,
    width = min(surface_width * scale_x, RW - dst_x) / scale_x,
    height = min(surface_height * scale_y, RH - dst_y) / scale_y, and
    is_clipped exactly when one of the two minima is below RW or RH.
    Scenario S5 yields the single record dst_y = 4, dst_x = 0, src_x = 0,
    src_y = 0, width = 64, height = 60, is_clipped. *)
Theorem overlap_projection_after_texaddr (mem : guest_memory)
  (hp : gmap handle render_target_descriptor)
  (texaddr required_width required_height required_pitch limit : Z) (depth : bool)
  (A : Z) (h surf : handle) (d : render_target_descriptor) (r : surface_overlap_info) :
  hp !! h = Some d ->
  process_candidate mem hp texaddr required_width required_height required_pitch limit
    depth (A, h) = overlapping surf r ->
  let info := get_surface_info d in
  let scale_x := if aa_gt (read_aa_mode d) center_1_sample then 2 else 1 in
  let scale_y := if aa_gt (read_aa_mode d) diagonal_centered_2_samples then 2 else 1 in
  let offset := A - texaddr in
  0 <= texaddr <= A -> A < 2 ^ 32 ->
  0 < required_pitch -> 0 < bpp info ->
  0 <= required_width < 2 ^ 16 -> 0 <= required_height < 2 ^ 16 ->
  0 <= surface_width info < 2 ^ 31 -> 0 <= surface_height info < 2 ^ 31 ->
  offset / required_pitch <= required_height ->
  (offset mod required_pitch) / bpp info <= required_width ->
  (src_x r = 0 /\ src_y r = 0
   /\ dst_y r = offset / required_pitch
   /\ dst_x r = (offset mod required_pitch) / bpp info
   /\ width r = Z.min (surface_width info * scale_x) (required_width - dst_x r) / scale_x
   /\ height r = Z.min (surface_height info * scale_y) (required_height - dst_y r) / scale_y
   /\ (is_clipped r = true <->
       Z.min (surface_width info * scale_x) (required_width - dst_x r) < required_width
       \/ Z.min (surface_height info * scale_y) (required_height - dst_y r)
          < required_height))
  /\ (get_merged_texture_memory_region (T := sample_backend) zero_memory
        16777216 128 64 256 s5_store).1
     = [mk_surface_overlap_info 1%nat 16778240 false true 0 0 0 4 64 60].
Proof.
  intros Hd Hc info scale_x scale_y offset HT HA Hrp Hbpp Hrw Hrh Hsw Hsh Hdy Hdx.
  split; [|by vm_compute].
  apply process_candidate_overlapping in Hc as (d' & Hd' & _ & _ & ->).
  simpl in Hd'. rewrite Hd in Hd'. injection Hd' as <-.
  fold info scale_x scale_y. unfold project_overlap. cbn [fst snd].
  assert ((A <? texaddr) = false) as -> by (apply Z.ltb_ge; lia).
  assert (1 <= scale_x <= 2) as Hsx
    by (unfold scale_x; destruct (aa_gt (read_aa_mode d) center_1_sample); lia).
  assert (1 <= scale_y <= 2) as Hsy
    by (unfold scale_y; destruct (aa_gt (read_aa_mode d) diagonal_centered_2_samples); lia).
  assert (u32 (A - texaddr) = offset) as -> by (unfold u32; apply Z.mod_small; lia).
  assert (0 <= offset / required_pitch) as Hdy0 by (apply Z.div_pos; lia).
  assert (0 <= (offset mod required_pitch) / bpp info) as Hdx0.
  { apply Z.div_pos; [|lia]. apply Z.mod_pos_bound. lia. }
  assert (u16 (offset / required_pitch) = offset / required_pitch) as Edy
    by (unfold u16; apply Z.mod_small; lia).
  assert (u16 ((offset mod required_pitch) / bpp info)
          = (offset mod required_pitch) / bpp info) as Edx
    by (unfold u16; apply Z.mod_small; lia).
  cbn [src_x src_y dst_x dst_y width height is_clipped]. rewrite Edy, Edx.
  set (dx := (offset mod required_pitch) / bpp info) in *.
  set (dy := offset / required_pitch) in *.
  assert (u32 (surface_width info * scale_x) = surface_width info * scale_x) as ->
    by (unfold u32; apply Z.mod_small; nia).
  assert (u32 (surface_height info * scale_y) = surface_height info * scale_y) as ->
    by (unfold u32; apply Z.mod_small; nia).
  assert (u32 (required_width - dx) = required_width - dx) as ->
    by (unfold u32; apply Z.mod_small; lia).
  assert (u32 (required_height - dy) = required_height - dy) as ->
    by (unfold u32; apply Z.mod_small; lia).
  set (w := Z.min (surface_width info * scale_x) (required_width - dx)).
  set (hh := Z.min (surface_height info * scale_y) (required_height - dy)).
  assert (0 <= surface_width info * scale_x) as Hsw0 by nia.
  assert (0 <= surface_height info * scale_y) as Hsh0 by nia.
  assert (0 <= w < 2 ^ 16) as Hw by (unfold w; lia).
  assert (0 <= hh < 2 ^ 16) as Hh by (unfold hh; lia).
  assert (u16 w = w) as -> by (unfold u16; apply Z.mod_small; lia).
  assert (u16 hh = hh) as -> by (unfold u16; apply Z.mod_small; lia).
  assert (0 <= w / scale_x <= w) as Hwd.
  { split; [apply Z.div_pos; lia|]. apply Z.div_le_upper_bound; nia. }
  assert (0 <= hh / scale_y <= hh) as Hhd.
  { split; [apply Z.div_pos; lia|]. apply Z.div_le_upper_bound; nia. }
  assert (u16 (w / scale_x) = w / scale_x) as -> by (unfold u16; apply Z.mod_small; lia).
  assert (u16 (hh / scale_y) = hh / scale_y) as -> by (unfold u16; apply Z.mod_small; lia).
  repeat split; try done.
  - rewrite orb_true_iff, !Z.ltb_lt. done.
  - rewrite orb_true_iff, !Z.ltb_lt. done.
Qed.

End Query.

(** ** Binding the same targets again *)

Section Rebind.
Context {T : Traits}.
Hypothesis Hexact : installs_exact_shapes.

Lemma heap_extends_refl s s' : heap s' = heap s -> heap_extends s s'.
Proof. unfold heap_extends. by intros ->. Qed.

Lemma heap_extends_trans s1 s2 s3 :
  heap_extends s1 s2 -> heap_extends s2 s3 -> heap_extends s1 s3.
Proof. unfold heap_extends. auto. Qed.

Lemma on_storage_extends p s s' st :
  heap_extends s s' -> on_storage p s st = true -> on_storage p s' st = true.
Proof.
  unfold on_storage. intros He. destruct (heap s !! st) as [d|] eqn:E; [|done].
  by rewrite (He _ _ E).
Qed.

Lemma heap_fresh_spec s :
  heap_fresh s = true <-> forall h d, heap s !! h = Some d -> (h < next_handle s)%nat.
Proof.
  unfold heap_fresh. rewrite forallb_forall. split.
  - intros H h d Hd. apply Nat.ltb_lt.
    apply (H (h, d)). by apply list_elem_of_In, elem_of_map_to_list.
  - intros H [h d] Hin. apply Nat.ltb_lt.
    apply (H h d). by apply elem_of_map_to_list, list_elem_of_In.
Qed.

Lemma heap_fresh_same s s' :
  heap s' = heap s -> next_handle s' = next_handle s ->
  heap_fresh s = true -> heap_fresh s' = true.
Proof. unfold heap_fresh. by intros -> ->. Qed.

Lemma find_reusable_hit p l pre hit post :
  find_reusable p l = Some (pre, hit, post) -> p hit = true.
Proof.
  revert pre. induction l as [|st r IH]; intros pre; [done|]. simpl.
  destruct (p st) eqn:E; [by intros [= <- <- <-]|].
  destruct (find_reusable p r) as [[[pre' hit'] post']|]; [|done].
  intros [= <- <- <-]. by apply (IH pre').
Qed.

(** What a bind establishes: the returned surface has the requested shape,
    the surface objects that existed are untouched, pointers stay fresh. *)
Lemma install_render_target_settles address color_format antialias width height pitch
  old conv s :
  heap_fresh s = true ->
  let r := install_render_target address color_format antialias width height pitch
             old conv s in
  on_storage (fun d => rtt_has_format_width_height d color_format width height false)
    r.2 r.1 = true
  /\ heap_extends s r.2 /\ heap_fresh r.2 = true.
Proof.
  intros Hf. destruct Hexact as (Hcreate & Hreuse & _ & _).
  unfold install_render_target.
  set (s1 := set_render_targets_memory_range _ s).
  destruct (find_reusable _ _) as [[[pre hit] post]|] eqn:Hfind.
  - apply find_reusable_hit in Hfind.
    assert (on_storage
              (fun d => rtt_has_format_width_height d color_format width height false)
              s hit = true) as Hhit.
    { revert Hfind. unfold on_storage. cbn [heap s1 set_render_targets_memory_range].
      destruct (heap s !! hit); [apply Hreuse|done]. }
    destruct old; simpl; (split; [exact Hhit|split; [by apply heap_extends_refl|exact Hf]]).
  - rewrite heap_fresh_spec in Hf.
    assert (heap s !! next_handle s = None) as Hnone.
    { destruct (heap s !! next_handle s) eqn:E; [|done]. apply Hf in E. lia. }
    assert (forall s0, heap s0 = heap s -> next_handle s0 = next_handle s ->
              let h := next_handle s0 in
              let d := create_new_color_surface address color_format width height pitch
                         (match old with None => conv | Some o => Some o end) in
              let s2 := set_next_handle (S h) (set_heap (<[h := d]> (heap s0)) s0) in
              on_storage
                (fun d => rtt_has_format_width_height d color_format width height false)
                s2 h = true
              /\ heap_extends s s2 /\ heap_fresh s2 = true) as Hnew.
    { intros s0 Hh Hn h d s2. subst h s2. rewrite Hn, Hh. repeat split.
      - unfold on_storage. cbn [heap set_next_handle set_heap].
        rewrite lookup_insert_eq. apply Hcreate.
      - intros h' d' Hd'. cbn [heap set_next_handle set_heap].
        rewrite lookup_insert_ne; [done|]. intros <-. congruence.
      - apply heap_fresh_spec. intros h' d'. cbn [heap next_handle set_next_handle set_heap].
        destruct (decide (next_handle s = h')) as [<-|Hne].
        + lia.
        + rewrite lookup_insert_ne by done. intros Hd'. apply Hf in Hd'. lia. }
    destruct old; apply Hnew; done.
Qed.

Lemma install_depth_stencil_settles address depth_format antialias width height pitch
  old conv s :
  heap_fresh s = true ->
  let r := install_depth_stencil address depth_format antialias width height pitch
             old conv s in
  on_storage (fun d => ds_has_format_width_height d depth_format width height false)
    r.2 r.1 = true
  /\ heap_extends s r.2 /\ heap_fresh r.2 = true.
Proof.
  intros Hf. destruct Hexact as (_ & _ & Hcreate & Hreuse).
  unfold install_depth_stencil.
  set (s1 := set_depth_stencil_memory_range _ s).
  destruct (find_reusable _ _) as [[[pre hit] post]|] eqn:Hfind.
  - apply find_reusable_hit in Hfind.
    assert (on_storage
              (fun d => ds_has_format_width_height d depth_format width height false)
              s hit = true) as Hhit.
    { revert Hfind. unfold on_storage. cbn [heap s1 set_depth_stencil_memory_range].
      destruct (heap s !! hit); [apply Hreuse|done]. }
    destruct old; simpl; (split; [exact Hhit|split; [by apply heap_extends_refl|exact Hf]]).
  - rewrite heap_fresh_spec in Hf.
    assert (heap s !! next_handle s = None) as Hnone.
    { destruct (heap s !! next_handle s) eqn:E; [|done]. apply Hf in E. lia. }
    assert (forall s0, heap s0 = heap s -> next_handle s0 = next_handle s ->
              let h := next_handle s0 in
              let d := create_new_depth_surface address depth_format width height pitch
                         (match old with None => conv | Some o => Some o end) in
              let s2 := set_next_handle (S h) (set_heap (<[h := d]> (heap s0)) s0) in
              on_storage
                (fun d => ds_has_format_width_height d depth_format width height false)
                s2 h = true
              /\ heap_extends s s2 /\ heap_fresh s2 = true) as Hnew.
    { intros s0 Hh Hn h d s2. subst h s2. rewrite Hn, Hh. repeat split.
      - unfold on_storage. cbn [heap set_next_handle set_heap].
        rewrite lookup_insert_eq. apply Hcreate.
      - intros h' d' Hd'. cbn [heap set_next_handle set_heap].
        rewrite lookup_insert_ne; [done|]. intros <-. congruence.
      - apply heap_fresh_spec. intros h' d'. cbn [heap next_handle set_next_handle set_heap].
        destruct (decide (next_handle s = h')) as [<-|Hne].
        + lia.
        + rewrite lookup_insert_ne by done. intros Hd'. apply Hf in Hd'. lia. }
    destruct old; apply Hnew; done.
Qed.

Lemma bind_address_as_render_targets_settles address color_format antialias width
  height pitch s :
  heap_fresh s = true ->
  let r := bind_address_as_render_targets address color_format antialias
             width height pitch s in
  on_storage (fun d => rtt_has_format_width_height d color_format width height false)
    r.2 r.1 = true
  /\ heap_extends s r.2 /\ heap_fresh r.2 = true.
Proof.
  intros Hf. unfold bind_address_as_render_targets.
  assert (heap (evict_aliased_depth address s).2 = heap s
          /\ next_handle (evict_aliased_depth address s).2 = next_handle s) as [Hh Hn].
  { unfold evict_aliased_depth. by destruct (m_depth_stencil_storage s !! address). }
  destruct (evict_aliased_depth address s) as [conv s0]. simpl in Hh, Hn.
  pose proof (heap_fresh_same s s0 Hh Hn Hf) as Hf0.
  pose proof (heap_extends_refl s s0 Hh) as He0.
  destruct (m_render_targets_storage s0 !! address) as [rtt|].
  - destruct (on_storage _ s0 rtt) eqn:Hshape.
    + destruct (on_storage (fun d => surface_is_pitch_compatible d pitch) s0 rtt);
        simpl; (split; [exact Hshape|by split]).
    + set (s1 := set_render_targets_storage _ s0).
      destruct (install_render_target_settles address color_format antialias width height
                  pitch (Some rtt) conv s1 Hf0) as (H1 & H2 & H3).
      split; [done|]. split; [|done]. by apply (heap_extends_trans s s1).
  - destruct (install_render_target_settles address color_format antialias width height
                pitch None conv s0 Hf0) as (H1 & H2 & H3).
    split; [done|]. split; [|done]. by apply (heap_extends_trans s s0).
Qed.

Lemma bind_address_as_depth_stencil_settles address depth_format antialias width
  height pitch s :
  heap_fresh s = true ->
  let r := bind_address_as_depth_stencil address depth_format antialias
             width height pitch s in
  on_storage (fun d => ds_has_format_width_height d depth_format width height false)
    r.2 r.1 = true
  /\ heap_extends s r.2 /\ heap_fresh r.2 = true.
Proof.
  intros Hf. unfold bind_address_as_depth_stencil.
  assert (heap (evict_aliased_rtt address s).2 = heap s
          /\ next_handle (evict_aliased_rtt address s).2 = next_handle s) as [Hh Hn].
  { unfold evict_aliased_rtt. by destruct (m_render_targets_storage s !! address). }
  destruct (evict_aliased_rtt address s) as [conv s0]. simpl in Hh, Hn.
  pose proof (heap_fresh_same s s0 Hh Hn Hf) as Hf0.
  pose proof (heap_extends_refl s s0 Hh) as He0.
  destruct (m_depth_stencil_storage s0 !! address) as [ds|].
  - destruct (on_storage _ s0 ds) eqn:Hshape.
    + destruct (on_storage (fun d => surface_is_pitch_compatible d pitch) s0 ds);
        simpl; (split; [exact Hshape|by split]).
    + set (s1 := set_depth_stencil_storage _ s0).
      destruct (install_depth_stencil_settles address depth_format antialias width height
                  pitch (Some ds) conv s1 Hf0) as (H1 & H2 & H3).
      split; [done|]. split; [|done]. by apply (heap_extends_trans s s1).
  - destruct (install_depth_stencil_settles address depth_format antialias width height
                pitch None conv s0 Hf0) as (H1 & H2 & H3).
    split; [done|]. split; [|done]. by apply (heap_extends_trans s s0).
Qed.

(** A bind at an address that holds a surface of the requested shape, and
    nothing of the other type, returns that surface and moves nothing. *)
Lemma bind_address_as_render_targets_in_place address color_format antialias width
  height pitch s :
  stored_with_shape (fun d => rtt_has_format_width_height d color_format width height false)
    (m_render_targets_storage s) address s = true ->
  m_depth_stencil_storage s !! address = None ->
  let r := bind_address_as_render_targets address color_format antialias
             width height pitch s in
  m_render_targets_storage s !! address = Some r.1 /\ store_core r.2 = store_core s.
Proof.
  unfold stored_with_shape, bind_address_as_render_targets, evict_aliased_depth.
  intros Hshape ->.
  destruct (m_render_targets_storage s !! address) as [rtt|]; [|done].
  rewrite Hshape.
  by destruct (on_storage (fun d => surface_is_pitch_compatible d pitch) s rtt).
Qed.

Lemma bind_address_as_depth_stencil_in_place address depth_format antialias width
  height pitch s :
  stored_with_shape (fun d => ds_has_format_width_height d depth_format width height false)
    (m_depth_stencil_storage s) address s = true ->
  m_render_targets_storage s !! address = None ->
  let r := bind_address_as_depth_stencil address depth_format antialias
             width height pitch s in
  m_depth_stencil_storage s !! address = Some r.1 /\ store_core r.2 = store_core s.
Proof.
  unfold stored_with_shape, bind_address_as_depth_stencil, evict_aliased_rtt.
  intros Hshape ->.
  destruct (m_depth_stencil_storage s !! address) as [ds|]; [|done].
  rewrite Hshape.
  by destruct (on_storage (fun d => surface_is_pitch_compatible d pitch) s ds).
Qed.

Lemma bind_address_as_render_targets_bound address color_format antialias width
  height pitch s :
  let r := bind_address_as_render_targets address color_format antialias
             width height pitch s in
  m_bound_render_targets r.2 = m_bound_render_targets s
  /\ m_bound_depth_stencil r.2 = m_bound_depth_stencil s.
Proof.
  unfold bind_address_as_render_targets, evict_aliased_depth.
  destruct (m_depth_stencil_storage s !! address); cbn [fst snd];
    (destruct (m_render_targets_storage _ !! address) as [rtt|];
     [destruct (on_storage _ _ rtt);
      [by destruct (on_storage (fun d => surface_is_pitch_compatible d pitch) _ rtt)|]
     |]);
    unfold install_render_target;
    destruct (find_reusable _ _) as [[[pre hit] post]|]; done.
Qed.

Lemma bind_address_as_depth_stencil_bound address depth_format antialias width
  height pitch s :
  let r := bind_address_as_depth_stencil address depth_format antialias
             width height pitch s in
  m_bound_render_targets r.2 = m_bound_render_targets s
  /\ m_bound_depth_stencil r.2 = m_bound_depth_stencil s.
Proof.
  unfold bind_address_as_depth_stencil, evict_aliased_rtt.
  destruct (m_render_targets_storage s !! address); cbn [fst snd];
    (destruct (m_depth_stencil_storage _ !! address) as [ds|];
     [destruct (on_storage _ _ ds);
      [by destruct (on_storage (fun d => surface_is_pitch_compatible d pitch) _ ds)|]
     |]);
    unfold install_depth_stencil;
    destruct (find_reusable _ _) as [[[pre hit] post]|]; done.
Qed.

Lemma foldl_assign_slot_ext surface_addresses (m1 m2 : gmap Z handle) indexes b :
  (forall idx, idx ∈ indexes -> array_at surface_addresses idx <> 0 ->
     m1 !! array_at surface_addresses idx = m2 !! array_at surface_addresses idx) ->
  foldl (assign_slot surface_addresses m1) b indexes
  = foldl (assign_slot surface_addresses m2) b indexes.
Proof.
  revert b. induction indexes as [|idx l IH]; intros b Hm; [done|]. simpl.
  assert (assign_slot surface_addresses m1 b idx = assign_slot surface_addresses m2 b idx)
    as ->.
  { unfold assign_slot. destruct (array_at surface_addresses idx =? 0) eqn:E; [done|].
    rewrite Hm; [done|apply list_elem_of_here|]. by apply Z.eqb_neq. }
  apply IH. intros idx' Hin. apply Hm. by apply list_elem_of_further.
Qed.

Lemma length_foldl_assign_slot surface_addresses m indexes b :
  length (foldl (assign_slot surface_addresses m) b indexes) = length b.
Proof.
  revert b. induction indexes as [|idx l IH]; intros b; [done|]. simpl. rewrite IH.
  unfold assign_slot. destruct (_ =? 0); [done|]. apply length_insert.
Qed.

Section BindSet.
Variables (color_format : surface_color_format) (antialias : surface_antialiasing)
  (clip_width clip_height : Z) (surface_addresses surface_pitch : list Z).

(** The colour loop of a bind set whose surfaces are all in place moves
    nothing and binds, in each active slot, the surface stored at the
    slot's address. *)
Lemma bind_render_targets_in_place indexes s :
  settled_colour color_format clip_width clip_height surface_addresses indexes s ->
  let s' := bind_render_targets color_format antialias clip_width clip_height
              surface_addresses surface_pitch indexes s in
  store_core s'
  = (m_render_targets_storage s, m_depth_stencil_storage s, invalidated_resources s,
     heap s, next_handle s,
     foldl (assign_slot surface_addresses (m_render_targets_storage s))
           (m_bound_render_targets s) indexes,
     m_bound_depth_stencil s).
Proof.
  revert s. induction indexes as [|idx l IH]; intros s Hs; [done|].
  unfold bind_render_targets in *. cbn [foldl].
  set (A := array_at surface_addresses idx).
  set (step := if A =? 0 then s else _).
  assert (store_core step
          = (m_render_targets_storage s, m_depth_stencil_storage s,
             invalidated_resources s, heap s, next_handle s,
             assign_slot surface_addresses (m_render_targets_storage s)
               (m_bound_render_targets s) idx,
             m_bound_depth_stencil s)) as Hstep.
  { unfold step, assign_slot. fold A. destruct (A =? 0) eqn:E; [done|].
    apply Z.eqb_neq in E. destruct (Hs idx (list_elem_of_here _ _) E) as [Hsh Hnone].
    destruct (bind_address_as_render_targets_in_place A color_format antialias
                clip_width clip_height (array_at surface_pitch idx) s Hsh Hnone)
      as [Hl Hcore].
    destruct (bind_address_as_render_targets _ _ _ _ _ _ s) as [surf s1].
    cbn [fst snd] in Hl, Hcore. unfold store_core in Hcore |- *.
    injection Hcore as Hc' Hd' Hp' Hh' Hn' Hb' Hz'. simpl.
    by rewrite Hc', Hd', Hp', Hh', Hn', Hb', Hz', Hl. }
  injection Hstep as Hc Hd Hp Hh Hn Hb Hz.
  rewrite (IH step).
  - by rewrite Hc, Hd, Hp, Hh, Hn, Hb, Hz.
  - intros idx' Hin HA. destruct (Hs idx' (list_elem_of_further _ _ _ Hin) HA) as [H1 H2].
    unfold stored_with_shape in *. rewrite Hc, Hd.
    by rewrite (on_storage_heap _ step s Hh).
Qed.

(** The colour loop of a bind set, from any store with fresh pointers,
    leaves every active slot settled and bound to the surface stored at its
    address. *)
Lemma bind_render_targets_settles indexes s :
  heap_fresh s = true ->
  let s' := bind_render_targets color_format antialias clip_width clip_height
              surface_addresses surface_pitch indexes s in
  heap_fresh s' = true /\ heap_extends s s'
  /\ settled_colour color_format clip_width clip_height surface_addresses indexes s'
  /\ m_bound_render_targets s'
     = foldl (assign_slot surface_addresses (m_render_targets_storage s'))
             (m_bound_render_targets s) indexes
  /\ m_bound_depth_stencil s' = m_bound_depth_stencil s.
Proof.
  intros Hf. induction indexes as [|idx l IH] using rev_ind.
  - simpl. split; [done|]. split; [by apply heap_extends_refl|].
    split; [by intros idx ?%elem_of_nil|done].
  - unfold bind_render_targets in *. rewrite foldl_app. cbn [foldl].
    set (mid := foldl _ s l) in *. cbv zeta in IH.
    destruct IH as (Hfm & Hem & Hsm & Hbm & Hzm).
    set (A := array_at surface_addresses idx).
    destruct (A =? 0) eqn:E.
    + apply Z.eqb_eq in E. split; [done|]. split; [done|]. split; [|split; [|done]].
      * intros idx' [Hin| ->%list_elem_of_singleton]%elem_of_app HA; [by apply Hsm|done].
      * rewrite foldl_app. cbn [foldl]. unfold assign_slot at 1. fold A.
        rewrite E. simpl. done.
    + apply Z.eqb_neq in E.
      pose proof (bind_address_as_render_targets_settles A color_format antialias
                    clip_width clip_height (array_at surface_pitch idx) mid Hfm)
        as (Hshape & Hext & Hfresh).
      pose proof (bind_address_as_render_targets_maps A color_format antialias
                    clip_width clip_height (array_at surface_pitch idx) mid)
        as (Hdm & Hcm).
      pose proof (bind_address_as_render_targets_bound A color_format antialias
                    clip_width clip_height (array_at surface_pitch idx) mid)
        as (Hbb & Hbz).
      assert (forall idx', idx' ∈ l -> array_at surface_addresses idx' = A ->
                m_render_targets_storage mid !! A
                = Some (bind_address_as_render_targets A color_format antialias
                          clip_width clip_height (array_at surface_pitch idx) mid).1)
        as Hsame.
      { intros idx' Hin HA. destruct (Hsm idx' Hin) as [H1 H2]; [by rewrite HA|].
        rewrite HA in H1, H2.
        by destruct (bind_address_as_render_targets_in_place A color_format antialias
                       clip_width clip_height (array_at surface_pitch idx) mid H1 H2). }
      destruct (bind_address_as_render_targets A color_format antialias clip_width
                  clip_height (array_at surface_pitch idx) mid) as [surf s1].
      cbn [fst snd] in *.
      split; [done|]. split; [by apply (heap_extends_trans s mid)|].
      cbn [m_render_targets_storage m_depth_stencil_storage m_bound_render_targets
           m_bound_depth_stencil set_bound_render_targets].
      split; [|split; [|congruence]].
      * intros idx' Hin HA. unfold stored_with_shape.
        cbn [m_render_targets_storage m_depth_stencil_storage set_bound_render_targets].
        rewrite Hcm, Hdm.
        destruct (decide (array_at surface_addresses idx' = A)) as [->|Hne].
        -- rewrite lookup_insert_eq, lookup_delete_eq. by split.
        -- rewrite lookup_insert_ne, lookup_delete_ne by done.
           apply elem_of_app in Hin as [Hin| ->%list_elem_of_singleton]; [|done].
           destruct (Hsm idx' Hin HA) as [H1 H2]. split; [|done].
           unfold stored_with_shape in H1.
           destruct (m_render_targets_storage mid !! array_at surface_addresses idx')
             as [h'|]; [|done].
           apply (on_storage_extends _ mid); [|done].
           intros h0 d0 Hd0. by apply Hext.
      * rewrite foldl_app. cbn [foldl]. unfold assign_slot at 1. fold A.
        assert ((A =? 0) = false) as -> by by apply Z.eqb_neq.
        rewrite Hcm at 1. rewrite lookup_insert_eq. rewrite Hbb, Hbm. f_equal.
        apply foldl_assign_slot_ext. intros idx' Hin HA. rewrite Hcm.
        destruct (decide (array_at surface_addresses idx' = A)) as [HeqA|Hne].
        -- rewrite HeqA, lookup_insert_eq. by apply (Hsame idx').
        -- by rewrite lookup_insert_ne.
Qed.

End BindSet.

Lemma sample_bound_render_targets_core s :
  store_core (sample_bound_render_targets s)
  = (m_render_targets_storage s, m_depth_stencil_storage s, invalidated_resources s,
     heap s, next_handle s, replicate (length (m_bound_render_targets s)) (0, None),
     m_bound_depth_stencil s).
Proof.
  unfold sample_bound_render_targets.
  set (f := fun (s : surface_store) (rtt : Z * option handle) => _).
  assert (store_core (foldl f s (m_bound_render_targets s)) = store_core s) as Hc.
  { apply foldl_keeps. intros s' x. unfold f. by destruct x.2. }
  unfold store_core in *. injection Hc as Hc Hd Hp Hh Hn Hb Hz. simpl.
  rewrite Hc, Hd, Hp, Hh, Hn, Hb, Hz. do 2 f_equal. by apply const_fmap.
Qed.

Lemma sample_bound_render_targets_parts s s0 :
  store_core s = store_core s0 ->
  let s' := sample_bound_render_targets s in
  m_render_targets_storage s' = m_render_targets_storage s0
  /\ m_depth_stencil_storage s' = m_depth_stencil_storage s0
  /\ invalidated_resources s' = invalidated_resources s0
  /\ heap s' = heap s0
  /\ next_handle s' = next_handle s0
  /\ m_bound_render_targets s'
     = replicate (length (m_bound_render_targets s0)) (0, None)
  /\ m_bound_depth_stencil s' = m_bound_depth_stencil s0.
Proof.
  intros H0 s'. pose proof (sample_bound_render_targets_core s) as Hc. fold s' in Hc.
  unfold store_core in H0. injection H0 as <- <- <- <- <- <- <-.
  clearbody s'. unfold store_core in Hc. by injection Hc as -> -> -> -> -> -> ->.
Qed.

Lemma settled_colour_same color_format width height surface_addresses indexes s s' :
  m_render_targets_storage s' = m_render_targets_storage s ->
  m_depth_stencil_storage s' = m_depth_stencil_storage s ->
  heap s' = heap s ->
  settled_colour color_format width height surface_addresses indexes s ->
  settled_colour color_format width height surface_addresses indexes s'.
Proof.
  unfold settled_colour, stored_with_shape. intros -> -> Hh Hs idx Hin HA.
  rewrite (on_storage_heap _ s' s Hh). by apply Hs.
Qed.

Section BindTwice.
Variables (color_format : surface_color_format) (depth_format : surface_depth_format)
  (clip_horizontal_reg clip_vertical_reg : Z) (set_surface_target : surface_target)
  (antialias : surface_antialiasing) (surface_addresses : list Z) (address_z : Z)
  (surface_pitch : list Z) (zeta_pitch : Z).

Lemma prepare_render_target_in_place s :
  settled_colour color_format clip_horizontal_reg clip_vertical_reg surface_addresses
    (get_rtt_indexes set_surface_target) s ->
  settled_depth depth_format clip_horizontal_reg clip_vertical_reg address_z s ->
  let s' := prepare_render_target color_format depth_format clip_horizontal_reg
              clip_vertical_reg set_surface_target antialias surface_addresses
              address_z surface_pitch zeta_pitch s in
  m_render_targets_storage s' = m_render_targets_storage s
  /\ m_depth_stencil_storage s' = m_depth_stencil_storage s
  /\ invalidated_resources s' = invalidated_resources s
  /\ heap s' = heap s
  /\ m_bound_render_targets s' = slots_of set_surface_target surface_addresses (length (m_bound_render_targets s)) s
  /\ m_bound_depth_stencil s' = depth_slot_of address_z s.
Proof.
  intros Hcol Hdep. unfold prepare_render_target. cbn [get_shared_tag].
  set (sa := set_memory_tree [] _).
  destruct (sample_bound_render_targets_parts sa s eq_refl)
    as (Hbc & Hbd & Hbp & Hbh & Hbn & Hbb & Hbz).
  remember (sample_bound_render_targets sa) as sb eqn:Esb. clear Esb.
  assert (settled_colour color_format clip_horizontal_reg clip_vertical_reg
            surface_addresses (get_rtt_indexes set_surface_target) sb) as Hcolb
    by by apply (settled_colour_same _ _ _ _ _ s).
  pose proof (bind_render_targets_in_place color_format antialias clip_horizontal_reg
                clip_vertical_reg surface_addresses surface_pitch _ sb Hcolb) as Hc.
  remember (bind_render_targets color_format antialias clip_horizontal_reg
              clip_vertical_reg surface_addresses surface_pitch
              (get_rtt_indexes set_surface_target) sb) as sc eqn:Esc.
  clear Esc. cbv zeta in Hc.
  unfold store_core in Hc. injection Hc as Hcc Hcd Hcp Hch Hcn Hcb Hcz.
  set (sd := match (m_bound_depth_stencil sc).2 with Some _ => _ | None => sc end).
  assert (store_core sd = store_core sc) as Hd
    by (unfold sd; by destruct (m_bound_depth_stencil sc).2).
  unfold store_core in Hd. injection Hd as Hdc Hdd Hdp Hdh Hdn Hdb Hdz.
  set (se := set_bound_depth_stencil (0, None) sd).
  unfold slots_of, depth_slot_of. destruct (address_z =? 0) eqn:E.
  - cbn [se m_render_targets_storage m_depth_stencil_storage invalidated_resources heap
         m_bound_render_targets m_bound_depth_stencil set_bound_depth_stencil].
    rewrite Hdc, Hdd, Hdp, Hdh, Hdb, Hcc, Hcd, Hcp, Hch, Hcb, Hbc, Hbd, Hbp, Hbh, Hbb.
    done.
  - apply Z.eqb_neq in E. destruct (Hdep E) as [Hshape Hnone].
    assert (stored_with_shape
              (fun d => ds_has_format_width_height d depth_format clip_horizontal_reg
                          clip_vertical_reg false)
              (m_depth_stencil_storage se) address_z se = true
            /\ m_render_targets_storage se !! address_z = None) as [Hshape' Hnone'].
    { unfold stored_with_shape in *.
      cbn [se m_render_targets_storage m_depth_stencil_storage set_bound_depth_stencil].
      rewrite Hdc, Hdd, Hcc, Hcd, Hbc, Hbd. split; [|done].
      rewrite (on_storage_heap _ se s); [done|].
      cbn [se heap set_bound_depth_stencil]. by rewrite Hdh, Hch, Hbh. }
    destruct (bind_address_as_depth_stencil_in_place address_z depth_format antialias
                clip_horizontal_reg clip_vertical_reg zeta_pitch se Hshape' Hnone')
      as [Hl Hcore].
    destruct (bind_address_as_depth_stencil _ _ _ _ _ _ se) as [surf sf].
    cbn [fst snd] in Hl, Hcore. unfold store_core in Hcore.
    injection Hcore as Hfc Hfd Hfp Hfh Hfn Hfb Hfz.
    cbn [se m_render_targets_storage m_depth_stencil_storage invalidated_resources heap
         m_bound_render_targets m_bound_depth_stencil set_bound_depth_stencil]
      in Hl, Hfc, Hfd, Hfp, Hfh, Hfb |- *.
    rewrite Hfc, Hfd, Hfp, Hfh, Hfb.
    rewrite Hdc, Hdd, Hdp, Hdh, Hdb, Hcc, Hcd, Hcp, Hch, Hcb, Hbc, Hbd, Hbp, Hbh, Hbb.
    repeat split. rewrite Hdd, Hcd, Hbd in Hl. by rewrite Hl.
Qed.

Lemma prepare_render_target_settles s :
  heap_fresh s = true ->
  (forall idx, idx ∈ get_rtt_indexes set_surface_target ->
     array_at surface_addresses idx <> 0 -> array_at surface_addresses idx <> address_z) ->
  let s' := prepare_render_target color_format depth_format clip_horizontal_reg
              clip_vertical_reg set_surface_target antialias surface_addresses
              address_z surface_pitch zeta_pitch s in
  settled_colour color_format clip_horizontal_reg clip_vertical_reg surface_addresses
    (get_rtt_indexes set_surface_target) s'
  /\ settled_depth depth_format clip_horizontal_reg clip_vertical_reg address_z s'
  /\ m_bound_render_targets s' = slots_of set_surface_target surface_addresses (length (m_bound_render_targets s)) s'
  /\ m_bound_depth_stencil s' = depth_slot_of address_z s'.
Proof.
  intros Hf Hapart. unfold prepare_render_target. cbn [get_shared_tag].
  set (sa := set_memory_tree [] _).
  destruct (sample_bound_render_targets_parts sa s eq_refl)
    as (Hbc & Hbd & Hbp & Hbh & Hbn & Hbb & Hbz).
  remember (sample_bound_render_targets sa) as sb eqn:Esb. clear Esb.
  pose proof (heap_fresh_same s sb Hbh Hbn Hf) as Hfb.
  pose proof (bind_render_targets_settles color_format antialias clip_horizontal_reg
                clip_vertical_reg surface_addresses surface_pitch
                (get_rtt_indexes set_surface_target) sb Hfb) as Hc.
  remember (bind_render_targets color_format antialias clip_horizontal_reg
              clip_vertical_reg surface_addresses surface_pitch
              (get_rtt_indexes set_surface_target) sb) as sc eqn:Esc.
  clear Esc. cbv zeta in Hc.
  destruct Hc as (Hfc & _ & Hsc & Hbc' & _).
  set (sd := match (m_bound_depth_stencil sc).2 with Some _ => _ | None => sc end).
  assert (store_core sd = store_core sc) as Hd
    by (unfold sd; by destruct (m_bound_depth_stencil sc).2).
  unfold store_core in Hd. injection Hd as Hdc Hdd Hdp Hdh Hdn Hdb Hdz.
  set (se := set_bound_depth_stencil (0, None) sd).
  assert (heap_fresh se = true) as Hfe by by apply (heap_fresh_same sc).
  unfold slots_of, depth_slot_of, settled_depth. destruct (address_z =? 0) eqn:E.
  - apply Z.eqb_eq in E. split; [|split; [done|]].
    + by apply (settled_colour_same _ _ _ _ _ sc).
    + cbn [se m_render_targets_storage m_bound_render_targets m_bound_depth_stencil
           set_bound_depth_stencil].
      by rewrite Hdb, Hdc, Hbc', Hbb.
  - apply Z.eqb_neq in E.
    pose proof (bind_address_as_depth_stencil_settles address_z depth_format antialias
                  clip_horizontal_reg clip_vertical_reg zeta_pitch se Hfe)
      as (Hshape & Hext & _).
    pose proof (bind_address_as_depth_stencil_maps address_z depth_format antialias
                  clip_horizontal_reg clip_vertical_reg zeta_pitch se) as (Hmc & Hmd).
    pose proof (bind_address_as_depth_stencil_bound address_z depth_format antialias
                  clip_horizontal_reg clip_vertical_reg zeta_pitch se) as (Hmb & _).
    destruct (bind_address_as_depth_stencil _ _ _ _ _ _ se) as [surf sf].
    cbn [fst snd se m_render_targets_storage m_depth_stencil_storage
         m_bound_render_targets set_bound_depth_stencil] in Hshape, Hext, Hmc, Hmd, Hmb.
    cbn [m_render_targets_storage m_depth_stencil_storage m_bound_render_targets
         m_bound_depth_stencil set_bound_depth_stencil].
    rewrite Hdc in Hmc. rewrite Hdd in Hmd. rewrite Hdb in Hmb.
    assert (forall idx, idx ∈ get_rtt_indexes set_surface_target ->
              array_at surface_addresses idx <> 0 ->
              m_render_targets_storage sc !! array_at surface_addresses idx
              = m_render_targets_storage sf !! array_at surface_addresses idx) as Hsame.
    { intros idx Hin HA. rewrite Hmc, lookup_delete_ne; [done|].
      intros Heq. by apply (Hapart idx Hin HA). }
    split; [|split; [|split]].
    + intros idx Hin HA. destruct (Hsc idx Hin HA) as [H1 H2].
      unfold stored_with_shape in *.
      cbn [m_render_targets_storage m_depth_stencil_storage set_bound_depth_stencil].
      rewrite <- (Hsame idx Hin HA), Hmd.
      rewrite lookup_insert_ne by (intros Heq; by apply (Hapart idx Hin HA)).
      split; [|done].
      destruct (m_render_targets_storage sc !! array_at surface_addresses idx) as [h'|];
        [|done].
      apply (on_storage_extends _ se); [|by rewrite (on_storage_heap _ se sc)].
      intros h0 d0 Hd0. by apply Hext.
    + intros _. unfold stored_with_shape.
      cbn [m_render_targets_storage m_depth_stencil_storage set_bound_depth_stencil].
      rewrite Hmd, Hmc, lookup_insert_eq, lookup_delete_eq. split; [|done]. exact Hshape.
    + rewrite Hmb, Hbc', Hbb. by apply foldl_assign_slot_ext.
    + by rewrite Hmd, lookup_insert_eq.
Qed.

(** C6 (as the code has it).  With a backend whose exact shape test accepts
    the surfaces a bind installs, in a store whose live pointers are below
    the next allocated one, and for a bind set none of whose active colour
    addresses is the depth address: a second [prepare_render_target] with
    the arguments of the first leaves the bound colour slots and the bound
    depth slot with the handles the first call gave them, and leaves
    [invalidated_resources] and both maps as the first call left them. *)
Theorem prepare_render_target_again (s : surface_store) :
  heap_fresh s = true ->
  (forall idx, idx ∈ get_rtt_indexes set_surface_target ->
     array_at surface_addresses idx <> 0 -> array_at surface_addresses idx <> address_z) ->
  let s1 := prepare_render_target color_format depth_format clip_horizontal_reg
              clip_vertical_reg set_surface_target antialias surface_addresses
              address_z surface_pitch zeta_pitch s in
  let s2 := prepare_render_target color_format depth_format clip_horizontal_reg
              clip_vertical_reg set_surface_target antialias surface_addresses
              address_z surface_pitch zeta_pitch s1 in
  m_bound_render_targets s2 = m_bound_render_targets s1
  /\ m_bound_depth_stencil s2 = m_bound_depth_stencil s1
  /\ invalidated_resources s2 = invalidated_resources s1
  /\ m_render_targets_storage s2 = m_render_targets_storage s1
  /\ m_depth_stencil_storage s2 = m_depth_stencil_storage s1.
Proof.
  intros Hf Hapart s1 s2.
  destruct (prepare_render_target_settles s Hf Hapart) as (Hcol & Hdep & Hb & Hz).
  fold s1 in Hcol, Hdep, Hb, Hz.
  destruct (prepare_render_target_in_place s1 Hcol Hdep) as (Hc2 & Hd2 & Hp2 & _ & Hb2 & Hz2).
  fold s2 in Hc2, Hd2, Hp2, Hb2, Hz2.
  repeat split; try done; [|congruence].
  rewrite Hb2, Hb. unfold slots_of at 1. f_equal. f_equal. unfold slots_of.
  by rewrite length_foldl_assign_slot, length_replicate.
Qed.

End BindTwice.

End Rebind.

(** ** The scenarios, run *)

Lemma sample_backend_installs_exact_shapes : installs_exact_shapes (T := sample_backend).
Proof.
  unfold installs_exact_shapes. simpl. repeat split; try done.
  - intros address color_format w h pitch contents. unfold sample_has_shape, sample_surface.
    assert (forall d, get_surface_width (queue_tag address d) = get_surface_width d
                      /\ get_surface_height (queue_tag address d) = get_surface_height d
                      /\ is_depth_surface (queue_tag address d) = is_depth_surface d)
      as Hq.
    { intros d. unfold queue_tag. destruct (_ <? 16); [done|]. by destruct (1 <? _). }
    destruct (Hq (mk_render_target_descriptor 0 (replicate 5 (0, 0)) false contents
                    center_1_sample None center_1_sample w h pitch (w * 4) false))
      as (-> & -> & ->).
    simpl. by rewrite !Z.eqb_refl.
  - intros address depth_format w h pitch contents. unfold sample_has_shape, sample_surface.
    assert (forall d, get_surface_width (queue_tag address d) = get_surface_width d
                      /\ get_surface_height (queue_tag address d) = get_surface_height d
                      /\ is_depth_surface (queue_tag address d) = is_depth_surface d)
      as Hq.
    { intros d. unfold queue_tag. destruct (_ <? 16); [done|]. by destruct (1 <? _). }
    destruct (Hq (mk_render_target_descriptor 0 (replicate 5 (0, 0)) false contents
                    center_1_sample None center_1_sample w h pitch (w * 4) true))
      as (-> & -> & ->).
    simpl. by rewrite !Z.eqb_refl.
Qed.

(** C1, counterexample.  Rebinding 640x480 targets over [pooled_store]
    reuses the pooled surfaces 1 (colour) and 2 (depth).  The calls are, for
    colour, [invalidate_surface_contents] and then [prepare_rtt_for_drawing];
    for depth, [prepare_ds_for_drawing] and then
    [invalidate_surface_contents]: for neither type is the second call made
    before the first. *)
Lemma reuse_order_counterexample :
  let calls := new_calls pooled_store (two_targets 640 480 2560 pooled_store) in
  calls
  = [prepare_rtt_for_sampling 3%nat; notify_surface_invalidated 3%nat;
     invalidate_surface_contents 1%nat (Some 3%nat) 16777216 2560;
     prepare_rtt_for_drawing 1%nat; prepare_ds_for_sampling 4%nat;
     notify_surface_invalidated 4%nat; prepare_ds_for_drawing 2%nat;
     invalidate_surface_contents 2%nat (Some 4%nat) 33554432 2560]
  /\ called_before (prepare_rtt_for_drawing 1%nat)
       (invalidate_surface_contents 1%nat (Some 3%nat) 16777216 2560) calls = false
  /\ called_before (invalidate_surface_contents 2%nat (Some 4%nat) 33554432 2560)
       (prepare_ds_for_drawing 2%nat) calls = false.
Proof. by vm_compute. Qed.

Lemma reuse_branch_call_order_witness :
  let r := bind_address_as_render_targets (T := sample_backend) 16777216 a8r8g8b8
             center_1_sample 640 480 2560 pooled_store in
  r.1 = 1%nat
  /\ exists (calls : list backend_call) (source : option handle),
       trace r.2
       = trace pooled_store ++ calls
         ++ [invalidate_surface_contents 1%nat source 16777216 2560;
             prepare_rtt_for_drawing 1%nat].
Proof.
  apply (proj1 (reuse_branch_call_order (T := sample_backend) 16777216 640 480 2560
                  center_1_sample pooled_store [] [2%nat] 1%nat) a8r8g8b8);
    vm_compute; reflexivity.
Defined.

(** C2, counterexample.  Scenario S4: the surface bound at 0x01000000 fails
    [test] once the guest has written there; the query returns nothing, but
    the storage is still in the colour map and [invalidated_resources] is
    still empty. *)
Lemma stale_bound_surface_counterexample :
  let r := get_merged_texture_memory_region (T := sample_backend) written_memory
             16777216 640 480 2560 s1_written in
  m_bound_render_targets s1_written !! 0%nat = Some (16777216, Some 1%nat)
  /\ (test written_memory <$> heap s1_written !! 1%nat) = Some false
  /\ r.1 = []
  /\ invalidated_resources r.2 = []
  /\ m_render_targets_storage r.2 !! 16777216 = Some 1%nat.
Proof. by vm_compute. Qed.

Lemma stale_bound_surface_is_kept_witness :
  let r := get_merged_texture_memory_region (T := sample_backend) written_memory
             16777216 640 480 2560 s1_written in
  (forall info, info ∈ r.1 -> ~ (base_address info = 16777216 /\ is_depth info = false))
  /\ m_render_targets_storage r.2 !! 16777216 = Some 1%nat
  /\ (16777216, Some 1%nat) ∈ m_bound_render_targets r.2
  /\ invalidate_surface_address 16777216 false r.2 = r.2.
Proof.
  apply (stale_bound_surface_is_kept (T := sample_backend) written_memory
           16777216 640 480 2560 s1_written 16777216 1%nat
           (desc_on_write zero_memory 1 (sample_surface false 16777216 640 480 2560 None))).
  - vm_compute. apply list_elem_of_here.
  - vm_compute. reflexivity.
  - vm_compute. reflexivity.
  - vm_compute. reflexivity.
Defined.

Lemma maps_stay_disjoint_witness :
  reachable (T := sample_backend) pooled_store /\ maps_disjoint pooled_store.
Proof.
  assert (reachable (T := sample_backend) pooled_store) as Hr.
  { apply (reachable_step (two_targets 640 480 2560 empty_store)).
    - apply (reachable_step empty_store).
      + apply reachable_new; reflexivity.
      + exact (step_prepare_render_target empty_store a8r8g8b8 z24s8 640 480 surface_a
                 center_1_sample [16777216; 0; 0; 0] 33554432 [2560; 0; 0; 0] 2560).
    - exact (step_prepare_render_target (two_targets 640 480 2560 empty_store)
               a8r8g8b8 z24s8 320 240 surface_a center_1_sample
               [16777216; 0; 0; 0] 33554432 [1280; 0; 0; 0] 1280). }
  split; [exact Hr|]. exact (proj1 (maps_stay_disjoint (T := sample_backend) pooled_store Hr)).
Defined.

(** C4, counterexample.  The surface of [padding_store] starts 2000 bytes
    after the texture address, in the row padding of a texture 16 pixels
    wide: dst_x = 500 exceeds RW = 16, the [u32] difference RW - dst_x
    wraps, and the record has width 64 where the stated formula gives
    min(64, 16 - 500) = -484. *)
Lemma overlap_projection_counterexample :
  let r := mk_surface_overlap_info 1%nat 16779216 false false 0 0 500 0 64 64 in
  (get_merged_texture_memory_region (T := sample_backend) zero_memory
     16777216 16 64 2560 padding_store).1 = [r]
  /\ 16777216 <= base_address r
  /\ (surface_width <$> (get_surface_info (Traits := sample_backend)
                           <$> heap padding_store !! 1%nat)) = Some 64
  /\ width r = 64
  /\ Z.min (64 * 1) (16 - dst_x r) / 1 = -484.
Proof. by vm_compute. Qed.

Lemma overlap_projection_after_texaddr_witness :
  let r := mk_surface_overlap_info 1%nat 16778240 false true 0 0 0 4 64 60 in
  src_x r = 0 /\ src_y r = 0
  /\ dst_y r = (16778240 - 16777216) / 256
  /\ dst_x r = ((16778240 - 16777216) mod 256) / 4
  /\ width r = Z.min (64 * 1) (128 - dst_x r) / 1
  /\ height r = Z.min (64 * 1) (64 - dst_y r) / 1
  /\ (is_clipped r = true <->
      Z.min (64 * 1) (128 - dst_x r) < 128 \/ Z.min (64 * 1) (64 - dst_y r) < 64).
Proof.
  apply (proj1 (overlap_projection_after_texaddr (T := sample_backend) zero_memory
                  (heap s5_store) 16777216 128 64 256 16793600 false 16778240 1%nat 1%nat
                  (sample_surface false 16778240 64 64 256 None)
                  (mk_surface_overlap_info 1%nat 16778240 false true 0 0 0 4 64 60)
                  ltac:(vm_compute; reflexivity) ltac:(vm_compute; reflexivity)
                  ltac:(vm_compute; split; discriminate) ltac:(reflexivity)
                  ltac:(reflexivity) ltac:(reflexivity)
                  ltac:(vm_compute; split; [discriminate|reflexivity])
                  ltac:(vm_compute; split; [discriminate|reflexivity])
                  ltac:(vm_compute; split; [discriminate|reflexivity])
                  ltac:(vm_compute; split; [discriminate|reflexivity])
                  ltac:(vm_compute; discriminate) ltac:(vm_compute; discriminate))).
Defined.



(** C6, counterexample.  On the round-up backend the first 640x480 bind
    over [roundup_store] takes the pooled 1024x1024 surface 1; the second
    call with the same arguments finds it of another shape, binds a new
    surface 3 and the pool grows from one entry to two.  On the sample
    backend, with the colour and the depth target at one address and two
    fitting surfaces in the pool, the first call binds colour surface 1, the
    second colour surface 2. *)
Lemma prepare_render_target_again_counterexample :
  let r1 := roundup_target 640 480 2560 roundup_store in
  let r2 := roundup_target 640 480 2560 r1 in
  let a1 := aliased_targets two_pooled_store in
  let a2 := aliased_targets a1 in
  (m_bound_render_targets r1 !! 0%nat = Some (16777216, Some 1%nat)
   /\ m_bound_render_targets r2 !! 0%nat = Some (16777216, Some 3%nat)
   /\ invalidated_resources r1 = [2%nat]
   /\ invalidated_resources r2 = [2%nat; 1%nat])
  /\ (m_bound_render_targets a1 !! 0%nat = Some (50331648, Some 1%nat)
      /\ m_bound_render_targets a2 !! 0%nat = Some (50331648, Some 2%nat)).
Proof. by vm_compute. Qed.

Lemma prepare_render_target_again_witness :
  let s1 := two_targets 640 480 2560 pooled_store in
  let s2 := two_targets 640 480 2560 s1 in
  m_bound_render_targets s2 = m_bound_render_targets s1
  /\ m_bound_depth_stencil s2 = m_bound_depth_stencil s1
  /\ invalidated_resources s2 = invalidated_resources s1
  /\ m_render_targets_storage s2 = m_render_targets_storage s1
  /\ m_depth_stencil_storage s2 = m_depth_stencil_storage s1.
Proof.
  apply (prepare_render_target_again (T := sample_backend)
           sample_backend_installs_exact_shapes a8r8g8b8 z24s8 640 480 surface_a
           center_1_sample [16777216; 0; 0; 0] 33554432 [2560; 0; 0; 0] 2560 pooled_store).
  - vm_compute. reflexivity.
  - intros idx Hin _. apply list_elem_of_singleton in Hin as ->. vm_compute. discriminate.
Defined.

Lemma on_write_again_is_noop_witness :
  (write_tag s1_written =? cache_tag s1_written) = true
  /\ on_write (T := sample_backend) written_memory 0 s1_written = s1_written.
Proof.
  apply (on_write_again_is_noop (T := sample_backend) zero_memory written_memory
           s1_store s1_written); reflexivity.
Defined.

Lemma queue_tag_small_surface_witness :
  let d := sample_surface false 16777216 2 1 8 None in
  (memory_tag_samples (queue_tag 16777216 d)).*1 = [16777216; 0; 0; 0; 0]
  /\ length (armed (memory_tag_samples (queue_tag 16777216 d))) = 1%nat.
Proof.
  destruct (queue_tag_small_surface 16777216 (sample_surface false 16777216 2 1 8 None)
              ltac:(reflexivity)) as [Hpitch _].
  destruct (Hpitch ltac:(vm_compute; reflexivity)) as [Haddr Harmed].
  split; [exact Haddr|]. apply Harmed. discriminate.
Defined.

(** C10, counterexample.  In [tall_store] the bound surface has 40000 rows
    of pitch 65535 and the stored 16x25539 surface starts at its row 39999.
    The [u32] product (39999 + 25539) * 65535 = 4295032830 wraps to 65534,
    which is below the footprint 2621400000: the height test passes and the
    record is emitted, although its 65538 rows end outside the footprint. *)
Lemma memory_tree_record_outside_counterexample :
  let s := generate_render_target_memory_tree (T := sample_backend) tall_store in
  let r := mk_memory_overlap 1%nat 2638111681 0 39999 16 25539 in
  let b := mk_surface_hierachy_info 16777216 2621400000 (Some 2%nat) [r] in
  m_memory_tree s = [b]
  /\ (get_surface_info (Traits := sample_backend) <$> heap s !! 2%nat)
     = Some (mk_surface_format_info 16 40000 64 65535 4)
  /\ u32 ((ov_y r + ov_h r) * 65535) = 65534
  /\ ~ ((ov_y r + ov_h r) * 65535 <= memory_range b)
  /\ ~ Forall (block_inside (T := sample_backend) (heap s)) (m_memory_tree s).
Proof.
  intros s r b.
  assert (m_memory_tree s = [b]) as Htree by (vm_compute; reflexivity).
  assert (get_surface_info (Traits := sample_backend) <$> heap s !! (2%nat : handle)
          = Some (mk_surface_format_info 16 40000 64 65535 4)) as Hinfo
    by (vm_compute; reflexivity).
  split; [exact Htree|]. split; [exact Hinfo|].
  split; [vm_compute; reflexivity|]. 
  split; [unfold r, b; cbn [ov_y ov_h memory_range]; lia|].
  rewrite Htree. intros Hall. apply Forall_inv in Hall.
  unfold block_inside, b in Hall. cbn [overlapping_set] in Hall.
  apply Forall_inv in Hall. unfold record_inside in Hall.
  destruct Hall as (hB & dB & dS & HB & HdB & _ & Hrange & _ & _ & Hrows).
  unfold b in HB. cbn [memory_contents] in HB. injection HB as <-.
  assert (rsx_pitch (get_surface_info (Traits := sample_backend) dB) = 65535) as Hp.
  { pose proof (f_equal (fun o => rsx_pitch <$> o) Hinfo) as Hp. rewrite HdB in Hp.
    simpl in Hp. injection Hp as Hp. exact Hp. }
  rewrite Hp in Hrows. unfold r, b in Hrows. cbn [ov_y ov_h memory_range] in Hrows. lia.
Qed.

Lemma memory_tree_records_inside_witness :
  let s := generate_render_target_memory_tree (T := sample_backend) s6_store in
  heap s = heap s6_store
  /\ Forall (block_inside (T := sample_backend) (heap s6_store)) (m_memory_tree s).
Proof.
  apply (memory_tree_records_inside (T := sample_backend) s6_store).
  - vm_compute. reflexivity.
  - vm_compute. constructor.
Defined.

Lemma desc_on_write_effect_witness :
  let d := sample_surface false 16777216 640 480 2560 None in
  let d' := desc_on_write written_memory 7 d in
  memory_tag_samples d !! 0%nat = Some (16777216, 0)
  /\ memory_tag_samples d' !! 0%nat = Some (16777216, 16045690984833335023)
  /\ last_use_tag d' = 7 /\ dirty d' = false /\ old_contents d' = None.
Proof.
  pose proof (desc_on_write_effect written_memory 7
                (sample_surface false 16777216 640 480 2560 None))
    as (Htag & _ & Hsamples & _ & _ & Hdirty & Hold & _).
  split; [reflexivity|]. split; [|by repeat split].
  exact (Hsamples 0%nat 16777216 0 eq_refl).
Defined.

(** * Further properties *)

(** ** The fingerprint *)

Lemma armed_elem (l : list (Z * Z)) (a v : Z) :
  (a, v) ∈ armed l -> (a, v) ∈ l /\ a <> 0.
Proof.
  induction l as [|[a0 v0] r IH]; simpl; [by intros ?%elem_of_nil|].
  destruct (a0 =? 0) eqn:E; [by intros ?%elem_of_nil|]. apply Z.eqb_neq in E.
  intros [[= -> ->]|Hin]%elem_of_cons.
  - split; [apply list_elem_of_here|done].
  - destruct (IH Hin). split; [by apply list_elem_of_further|done].
Qed.

Lemma test_samples_armed (mem : guest_memory) (l : list (Z * Z)) :
  test_samples mem l = true <-> forall a v, (a, v) ∈ armed l -> v = mem a.
Proof.
  induction l as [|[a0 v0] r IH]; simpl.
  - split; [by intros _ a v ?%elem_of_nil|done].
  - destruct (a0 =? 0); [split; [by intros _ a v ?%elem_of_nil|done]|].
    destruct (v0 =? mem a0) eqn:E.
    + apply Z.eqb_eq in E. rewrite IH. split.
      * intros H a v [[= -> ->]|Hin]%elem_of_cons; [done|by apply H].
      * intros H a v Hin. apply H. by apply list_elem_of_further.
    + apply Z.eqb_neq in E. split; [done|]. intros H.
      destruct E. apply H. apply list_elem_of_here.
Qed.

(** X1.  [test] passes exactly when every armed sample, the entries before
    the first address 0, holds the word guest memory has at its address;
    entries after a terminator are not looked at, and neither is [dirty]. *)
Theorem test_iff_armed_samples_match (mem : guest_memory) (d : render_target_descriptor) :
  test mem d = true
  <-> forall a v, (a, v) ∈ armed (memory_tag_samples d) -> v = mem a.
Proof. apply test_samples_armed. Qed.

Lemma armed_sync_samples mem l :
  armed (sync_samples mem l) = (fun p : Z * Z => (p.1, mem p.1)) <$> armed l.
Proof.
  induction l as [|[a v] r IH]; [done|]. simpl.
  destruct (a =? 0) eqn:E; simpl; rewrite E; [done|]. by rewrite IH.
Qed.

(** X2.  A fingerprint taken by [sync_tag] is accepted by [test] against a
    later guest memory exactly when that memory still holds, at every armed
    address, the word it held when the fingerprint was taken. *)
Theorem test_after_sync_tag (mem mem' : guest_memory) (d : render_target_descriptor) :
  test mem' (sync_tag mem d) = true
  <-> forall a, a ∈ (armed (memory_tag_samples d)).*1 -> mem' a = mem a.
Proof.
  unfold test, sync_tag. simpl. rewrite test_samples_armed, armed_sync_samples. split.
  - intros H a Hin. apply list_elem_of_fmap in Hin as ([a' v] & -> & Hin). simpl.
    symmetry. apply (H a' (mem a')).
    apply list_elem_of_fmap. by exists (a', v).
  - intros H a v Hin. apply list_elem_of_fmap in Hin as ([a' v'] & [= -> ->] & Hin).
    simpl. symmetry. apply H. apply list_elem_of_fmap. by exists (a', v').
Qed.

Lemma u32_small (x : Z) : 0 <= x < 2 ^ 32 -> u32 x = x.
Proof. apply Z.mod_small. Qed.

(** The sample array [queue_tag] leaves, entry by entry. *)
Lemma queue_tag_samples (base : Z) (d : render_target_descriptor)
  (v0 v1 v2 v3 v4 : Z) (a0 a1 a2 a3 a4 : Z) :
  memory_tag_samples d = [(a0, v0); (a1, v1); (a2, v2); (a3, v3); (a4, v4)] ->
  memory_tag_samples (queue_tag base d)
  = if get_native_pitch d <? 16
    then [(base, v0); (0, v1); (0, v2); (0, v3); (0, v4)]
    else if 1 <? get_surface_height d
    then [(base, v0);
          (u32 (base + get_native_pitch d - 8), v1);
          (u32 (base + u32 (get_rsx_pitch d * (get_surface_height d - 1))), v2);
          (u32 (base + u32 (get_rsx_pitch d * (get_surface_height d - 1))
                + get_native_pitch d - 8), v3);
          (u32 (base + u32 (get_rsx_pitch d * (get_surface_height d / 2))
                + get_native_pitch d / 2), v4)]
    else [(base, v0); (u32 (base + get_native_pitch d - 8), v1);
          (0, v2); (0, v3); (0, v4)].
Proof.
  intros E. unfold queue_tag. rewrite E.
  destruct (get_native_pitch d <? 16); [done|].
  by destruct (1 <? get_surface_height d).
Qed.

Lemma queue_tag_getters (base : Z) (d : render_target_descriptor) :
  let d' := queue_tag base d in
  last_use_tag d' = last_use_tag d /\ dirty d' = dirty d
  /\ old_contents d' = old_contents d /\ read_aa_mode d' = read_aa_mode d
  /\ tile d' = tile d /\ write_aa_mode d' = write_aa_mode d
  /\ get_surface_width d' = get_surface_width d
  /\ get_surface_height d' = get_surface_height d
  /\ get_rsx_pitch d' = get_rsx_pitch d /\ get_native_pitch d' = get_native_pitch d
  /\ is_depth_surface d' = is_depth_surface d.
Proof.
  unfold queue_tag. destruct (get_native_pitch d <? 16); [done|].
  by destruct (1 <? get_surface_height d).
Qed.

(** X3.  On a surface with 16 <= native pitch <= rsx pitch and at least one
    row, whose footprint base .. base + rsx_pitch * height lies within the
    32-bit address space, [queue_tag] arms five samples (two when the height
    is 1), and the 8-byte word of every armed sample lies inside the
    footprint. *)
Theorem queue_tag_samples_within_footprint (base : Z) (d : render_target_descriptor) :
  length (memory_tag_samples d) = 5%nat ->
  0 < base ->
  16 <= get_native_pitch d <= get_rsx_pitch d ->
  1 <= get_surface_height d ->
  base + get_rsx_pitch d * get_surface_height d <= 2 ^ 32 ->
  length (armed (memory_tag_samples (queue_tag base d)))
  = (if 1 <? get_surface_height d then 5%nat else 2%nat)
  /\ forall a v, (a, v) ∈ armed (memory_tag_samples (queue_tag base d)) ->
       base <= a /\ a + 8 <= base + get_rsx_pitch d * get_surface_height d.
Proof.
  intros Hl Hb Hp Hh Hfit.
  destruct (five_samples _ Hl) as ([a0 v0] & [a1 v1] & [a2 v2] & [a3 v3] & [a4 v4] & E).
  rewrite (queue_tag_samples base d _ _ _ _ _ _ _ _ _ _ E).
  assert ((get_native_pitch d <? 16) = false) as -> by (apply Z.ltb_ge; lia).
  set (p := get_native_pitch d) in *. set (q := get_rsx_pitch d) in *.
  set (h := get_surface_height d) in *.
  assert (q * 1 <= q * h) as Hq1 by (apply Z.mul_le_mono_nonneg_l; lia).
  assert (u32 (base + p - 8) = base + p - 8) as E1
    by (unfold u32; apply Z.mod_small; lia).
  destruct (1 <? h) eqn:Eh.
  - apply Z.ltb_lt in Eh.
    assert (0 <= q * (h - 1) /\ q * (h - 1) + q = q * h) as [Hr0 Hr1] by nia.
    assert (0 <= h / 2 <= h - 1) as Hh2.
    { split; [apply Z.div_pos; lia|]. apply Z.div_le_upper_bound; lia. }
    assert (0 <= q * (h / 2) <= q * (h - 1)) as Hc by nia.
    assert (0 <= p / 2 /\ p / 2 + 8 <= p) as Hp2.
    { split; [apply Z.div_pos; lia|].
      assert (p / 2 <= p - 8); [|lia]. apply Z.div_le_upper_bound; lia. }
    assert (u32 (q * (h - 1)) = q * (h - 1)) as E2
      by (unfold u32; apply Z.mod_small; lia).
    assert (u32 (q * (h / 2)) = q * (h / 2)) as E3
      by (unfold u32; apply Z.mod_small; lia).
    rewrite E1, E2, E3.
    rewrite !u32_small by lia.
    assert (forall x, 0 < x -> (x =? 0) = false) as Hnz by (intros; apply Z.eqb_neq; lia).
    simpl. rewrite !Hnz by lia. simpl. split; [done|].
    intros a v Hin. rewrite !elem_of_cons in Hin.
    destruct Hin as [[= -> _]|[[= -> _]|[[= -> _]|[[= -> _]|[[= -> _]|Hin]]]]];
      [lia..|by apply elem_of_nil in Hin].
  - apply Z.ltb_ge in Eh. assert (h = 1) as Eh1 by lia. rewrite E1.
    assert (forall x, 0 < x -> (x =? 0) = false) as Hnz by (intros; apply Z.eqb_neq; lia).
    simpl. rewrite !Hnz by lia. simpl. split; [done|].
    intros a v Hin. rewrite !elem_of_cons in Hin.
    destruct Hin as [[= -> _]|[[= -> _]|Hin]]; [lia..|by apply elem_of_nil in Hin].
Qed.

(** X4.  [queue_tag] neither reads guest memory nor touches the sample
    values: the values, and every other field, stay as they were (a [test]
    before the next [sync_tag] compares the old values); arming again
    replaces the earlier addresses altogether. *)
Theorem queue_tag_keeps_values (base base' : Z) (d : render_target_descriptor) :
  length (memory_tag_samples d) = 5%nat ->
  (memory_tag_samples (queue_tag base d)).*2 = (memory_tag_samples d).*2
  /\ queue_tag base (queue_tag base' d) = queue_tag base d.
Proof.
  intros Hl.
  destruct (five_samples _ Hl) as ([a0 v0] & [a1 v1] & [a2 v2] & [a3 v3] & [a4 v4] & E).
  split.
  - rewrite (queue_tag_samples base d _ _ _ _ _ _ _ _ _ _ E), E.
    destruct (get_native_pitch d <? 16); [done|].
    by destruct (1 <? get_surface_height d).
  - destruct d as [tag samples drt old raa tl waa w h rp np dep]. simpl in E. subst samples.
    unfold queue_tag. simpl.
    destruct (np <? 16) eqn:Ep; simpl; rewrite ?Ep; [done|].
    destruct (1 <? h) eqn:Eh; simpl; rewrite ?Ep, ?Eh; simpl; rewrite ?Eh; done.
Qed.

Lemma queue_tag_keeps_values_witness :
  let d := sample_surface false 16777216 640 480 2560 None in
  (memory_tag_samples (queue_tag 33554432 d)).*2 = (memory_tag_samples d).*2
  /\ queue_tag 33554432 (queue_tag 16777216 d) = queue_tag 33554432 d.
Proof.
  apply (queue_tag_keeps_values 33554432 16777216
           (sample_surface false 16777216 640 480 2560 None)).
  reflexivity.
Defined.

Lemma queue_tag_samples_within_footprint_witness :
  let d := sample_surface false 16777216 640 480 2560 None in
  length (armed (memory_tag_samples (queue_tag 16777216 d))) = 5%nat
  /\ forall a v, (a, v) ∈ armed (memory_tag_samples (queue_tag 16777216 d)) ->
       16777216 <= a /\ a + 8 <= 16777216 + 2560 * 480.
Proof.
  apply (queue_tag_samples_within_footprint 16777216
           (sample_surface false 16777216 640 480 2560 None));
    vm_compute; try reflexivity; try discriminate; split; discriminate.
Defined.

Lemma u32_divide_8 (x : Z) : (8 | x) -> (8 | u32 x).
Proof.
  intros H. unfold u32. rewrite Z.mod_eq by lia.
  apply Z.divide_sub_r; [done|]. apply Z.divide_mul_l. by exists (2 ^ 29).
Qed.

(** X5.  When the base address and the rsx pitch are multiples of 8 and the
    native pitch a multiple of 16, every sample address [queue_tag] writes
    is a multiple of 8: the 64-bit reads of [test] and [sync_tag] are
    aligned. *)
Theorem queue_tag_samples_aligned (base : Z) (d : render_target_descriptor) :
  length (memory_tag_samples d) = 5%nat ->
  (8 | base) -> (16 | get_native_pitch d) -> (8 | get_rsx_pitch d) ->
  Forall (fun p : Z * Z => (8 | p.1)) (memory_tag_samples (queue_tag base d)).
Proof.
  intros Hl Hb Hp Hq.
  destruct (five_samples _ Hl) as ([a0 v0] & [a1 v1] & [a2 v2] & [a3 v3] & [a4 v4] & E).
  rewrite (queue_tag_samples base d _ _ _ _ _ _ _ _ _ _ E).
  assert ((8 | 0)) as H0 by apply Z.divide_0_r.
  assert ((8 | get_native_pitch d)) as Hp8.
  { destruct Hp as [k ->]. exists (k * 2). lia. }
  assert ((8 | get_native_pitch d / 2)) as Hp2.
  { destruct Hp as [k ->]. exists k. replace (k * 16) with (k * 8 * 2) by lia.
    by rewrite Z.div_mul. }
  assert ((8 | 8)) as H8 by by exists 1.
  assert ((8 | - (8))) as H8n by by exists (-1).
  assert (forall k, (8 | u32 (get_rsx_pitch d * k))) as Hrow.
  { intros k. apply u32_divide_8. by apply Z.divide_mul_l. }
  destruct (get_native_pitch d <? 16); [by repeat constructor|].
  destruct (1 <? get_surface_height d); repeat constructor; simpl; try done;
    apply u32_divide_8;
    repeat first [apply Z.divide_add_r | apply Z.divide_sub_r | done | apply Hrow].
Qed.

Lemma queue_tag_samples_aligned_witness :
  Forall (fun p : Z * Z => (8 | p.1))
    (memory_tag_samples
       (queue_tag 16777216 (sample_surface false 16777216 640 480 2560 None))).
Proof.
  apply (queue_tag_samples_aligned 16777216
           (sample_surface false 16777216 640 480 2560 None)).
  - reflexivity.
  - by exists 2097152.
  - by exists 160.
  - by exists 320.
Defined.

(** ** The readback copy *)

Section ReadbackCopy.
Context {T U : Type} (conv : U -> T).

(** X6.  With rows that do not overlap in the source (width <= stride), the
    copy completes exactly when there is nothing to copy or the destination
    holds height * width elements and the source height * stride: the last
    row, too, must be followed by its padding, since the source span is
    advanced by a whole stride after every row. *)
Theorem copy_pitched_src_to_dst_completes (dest : list T) (src : list U)
  (stride width height : nat) :
  (width <= stride)%nat ->
  is_Some (copy_pitched_src_to_dst conv dest src stride width height)
  <-> height = 0%nat
      \/ (height * width <= length dest /\ height * stride <= length src)%nat.
Proof.
  intros Hws. revert dest src.
  induction height as [|n IH]; intros dest src; simpl.
  - split; [by left|by eexists].
  - destruct (decide (width <= length dest /\ width <= length src
                      /\ stride <= length src)%nat) as [(Hd & Hs & Hp)|Hno].
    + specialize (IH (drop width dest) (drop stride src)).
      rewrite !length_drop in IH.
      destruct (copy_pitched_src_to_dst conv (drop width dest) (drop stride src)
                  stride width n) as [rest|].
      * split; [|by eexists]. intros _. right.
        destruct (proj1 IH ltac:(by eexists)) as [->|[H1 H2]]; lia.
      * split; [by intros [? ?]|]. intros [?|[H1 H2]]; [done|].
        assert (is_Some (@None (list T))) as [? ?]; [|done].
        apply IH. right. lia.
    + split; [by intros [? ?]|]. intros [?|[H1 H2]]; [done|]. destruct Hno. lia.
Qed.

(** X7.  A copy that completes leaves the destination buffer with its
    length, with element [col] of row [row] of the source, converted, at
    position row * width + col for every row < height and col < width, and
    with its elements from height * width on as they were. *)
Theorem copy_pitched_src_to_dst_result (dest : list T) (src : list U)
  (stride width height : nat) (out : list T) :
  copy_pitched_src_to_dst conv dest src stride width height = Some out ->
  length out = length dest
  /\ (forall row col : nat, (row < height)%nat -> (col < width)%nat ->
        out !! (row * width + col)%nat = conv <$> src !! (row * stride + col)%nat)
  /\ (forall i : nat, (height * width <= i)%nat -> out !! i = dest !! i).
Proof.
  revert dest src out. induction height as [|n IH]; intros dest src out; simpl.
  - intros [= <-]. split; [done|]. split; [intros; lia|done].
  - destruct (decide _) as [(Hd & Hs & Hp)|]; [|done].
    destruct (copy_pitched_src_to_dst conv (drop width dest) (drop stride src)
                stride width n) as [rest|] eqn:E; [|done].
    intros [= <-]. destruct (IH _ _ _ E) as (Hlen & Hrows & Htail).
    rewrite length_drop in Hlen.
    assert (length (conv <$> take width src) = width) as Hw
      by (rewrite length_fmap, length_take; lia).
    split; [rewrite length_app; lia|]. split.
    + intros [|row] col Hrow Hcol.
      * rewrite lookup_app_l by (simpl; lia). simpl.
        by rewrite list_lookup_fmap, lookup_take_lt.
      * rewrite lookup_app_r by (rewrite Hw; simpl; lia). rewrite Hw.
        replace (S row * width + col - width)%nat with (row * width + col)%nat
          by (simpl; lia).
        rewrite Hrows by lia. rewrite lookup_drop. do 2 f_equal. simpl. lia.
    + intros i Hi. rewrite lookup_app_r by (rewrite Hw; simpl in *; lia).
      rewrite Hw, Htail by (simpl in *; lia). rewrite lookup_drop. f_equal.
      simpl in *. lia.
Qed.

(** X8.  From a source that is already packed (stride = width) a copy that
    completes is the plain copy of the first height * width elements. *)
Theorem copy_pitched_src_to_dst_packed (dest : list T) (src : list U)
  (width height : nat) (out : list T) :
  copy_pitched_src_to_dst conv dest src width width height = Some out ->
  out = (conv <$> take (height * width) src) ++ drop (height * width) dest.
Proof.
  revert dest src out. induction height as [|n IH]; intros dest src out; simpl.
  - intros [= <-]. by rewrite drop_0.
  - destruct (decide _) as [(Hd & Hs & Hp)|]; [|done].
    destruct (copy_pitched_src_to_dst conv (drop width dest) (drop width src)
                width width n) as [rest|] eqn:E; [|done].
    intros [= <-]. rewrite (IH _ _ _ E), drop_drop.
    rewrite <- (take_take_drop src width (n * width)), fmap_app.
    by rewrite <- app_assoc.
Qed.

End ReadbackCopy.

Lemma copy_pitched_src_to_dst_completes_witness :
  is_Some (copy_pitched_src_to_dst Z.of_nat [0; 0; 0; 0] [1; 2; 9; 3; 4; 9]%nat 3 2 2)
  /\ ~ is_Some (copy_pitched_src_to_dst Z.of_nat [0; 0; 0; 0] [1; 2; 9; 3; 4]%nat 3 2 2).
Proof.
  split.
  - apply (copy_pitched_src_to_dst_completes Z.of_nat [0; 0; 0; 0]
             [1; 2; 9; 3; 4; 9]%nat 3 2 2); [lia|]. right. simpl. lia.
  - intros H. apply (copy_pitched_src_to_dst_completes Z.of_nat [0; 0; 0; 0]
                       [1; 2; 9; 3; 4]%nat 3 2 2 ltac:(lia)) in H.
    destruct H as [H|[_ H]]; [discriminate|]. simpl in H. lia.
Defined.

Lemma copy_pitched_src_to_dst_result_witness :
  [1; 2; 3; 4; 7] !! (1 * 2 + 0)%nat = Z.of_nat <$> [1; 2; 9; 3; 4; 9]%nat !! (1 * 3 + 0)%nat.
Proof.
  exact (proj1 (proj2 (copy_pitched_src_to_dst_result Z.of_nat [0; 0; 0; 0; 7]
                         [1; 2; 9; 3; 4; 9]%nat 3 2 2 [1; 2; 3; 4; 7] eq_refl))
           1%nat 0%nat ltac:(lia) ltac:(lia)).
Defined.

Lemma copy_pitched_src_to_dst_packed_witness :
  [1; 2; 3; 4; 7] = (Z.of_nat <$> take (2 * 2) [1; 2; 3; 4; 5]%nat) ++ drop (2 * 2) [0; 0; 0; 0; 7].
Proof.
  exact (copy_pitched_src_to_dst_packed Z.of_nat [0; 0; 0; 0; 7] [1; 2; 3; 4; 5]%nat
           2 2 [1; 2; 3; 4; 7] eq_refl).
Defined.

(** ** Binding and looking up *)

Section Lookups.
Context {T : Traits}.

(** X9.  After a bind at an address the lookup of the bound type returns
    the bound surface there, the lookup of the other type returns nothing,
    and [get_surface_at] returns the bound surface; at every other address
    the three lookups answer as before the bind. *)
Theorem bind_then_lookup (address width height pitch : Z)
  (antialias : surface_antialiasing) (s : surface_store) :
  (forall (color_format : surface_color_format),
     let r := bind_address_as_render_targets address color_format antialias
                width height pitch s in
     get_texture_from_render_target_if_applicable address r.2 = Some r.1
     /\ get_texture_from_depth_stencil_if_applicable address r.2 = None
     /\ get_surface_at address r.2 = Some r.1
     /\ forall A, A <> address ->
          get_texture_from_render_target_if_applicable A r.2
          = get_texture_from_render_target_if_applicable A s
          /\ get_texture_from_depth_stencil_if_applicable A r.2
             = get_texture_from_depth_stencil_if_applicable A s
          /\ get_surface_at A r.2 = get_surface_at A s)
  /\ (forall (depth_format : surface_depth_format),
        let r := bind_address_as_depth_stencil address depth_format antialias
                   width height pitch s in
        get_texture_from_depth_stencil_if_applicable address r.2 = Some r.1
        /\ get_texture_from_render_target_if_applicable address r.2 = None
        /\ get_surface_at address r.2 = Some r.1
        /\ forall A, A <> address ->
             get_texture_from_render_target_if_applicable A r.2
             = get_texture_from_render_target_if_applicable A s
             /\ get_texture_from_depth_stencil_if_applicable A r.2
                = get_texture_from_depth_stencil_if_applicable A s
             /\ get_surface_at A r.2 = get_surface_at A s).
Proof.
  split.
  - intros color_format r.
    destruct (bind_address_as_render_targets_maps address color_format antialias
                width height pitch s) as [Hd Hc]. fold r in Hd, Hc.
    unfold get_surface_at, get_texture_from_render_target_if_applicable,
      get_texture_from_depth_stencil_if_applicable.
    rewrite Hd, Hc, lookup_insert_eq, lookup_delete_eq. repeat split; try done.
    + by rewrite lookup_insert_ne.
    + by rewrite lookup_delete_ne.
    + by rewrite lookup_insert_ne, lookup_delete_ne.
  - intros depth_format r.
    destruct (bind_address_as_depth_stencil_maps address depth_format antialias
                width height pitch s) as [Hc Hd]. fold r in Hd, Hc.
    unfold get_surface_at, get_texture_from_render_target_if_applicable,
      get_texture_from_depth_stencil_if_applicable.
    rewrite Hd, Hc, lookup_insert_eq, lookup_delete_eq. repeat split; try done.
    + by rewrite lookup_delete_ne.
    + by rewrite lookup_insert_ne.
    + by rewrite lookup_insert_ne, lookup_delete_ne.
Qed.

(** X10.  In every store reached from a new one [get_surface_at] finds the
    surface of an address in whichever map holds it, and throws its
    exception ([None]; the function never returns a null surface) exactly
    when neither does. *)
Theorem get_surface_at_reachable (s : surface_store) (A : Z) :
  reachable s ->
  (forall surf, get_surface_at A s = Some surf
                <-> m_render_targets_storage s !! A = Some surf
                    \/ m_depth_stencil_storage s !! A = Some surf)
  /\ (get_surface_at A s = None
      <-> m_render_targets_storage s !! A = None
          /\ m_depth_stencil_storage s !! A = None).
Proof.
  intros Hr. pose proof (reachable_maps_disjoint s Hr) as Hd.
  unfold maps_disjoint in Hd. rewrite map_disjoint_spec in Hd.
  unfold get_surface_at.
  destruct (m_render_targets_storage s !! A) as [c|] eqn:Ec;
    destruct (m_depth_stencil_storage s !! A) as [z|] eqn:Ez.
  - destruct (Hd _ _ _ Ec Ez).
  - split; [|by split; [|intros [? ?]]].
    intros surf. split; [by left|]. by intros [?|?].
  - split; [|by split; [|intros [? ?]]].
    intros surf. split; [by right|]. by intros [?|?].
  - split; [|done]. intros surf. split; [done|]. by intros [?|?].
Qed.

End Lookups.

Lemma pooled_store_reachable : reachable (T := sample_backend) pooled_store.
Proof.
  apply (reachable_step (two_targets 640 480 2560 empty_store)).
  - apply (reachable_step empty_store).
    + apply reachable_new; reflexivity.
    + exact (step_prepare_render_target empty_store a8r8g8b8 z24s8 640 480 surface_a
               center_1_sample [16777216; 0; 0; 0] 33554432 [2560; 0; 0; 0] 2560).
  - exact (step_prepare_render_target (two_targets 640 480 2560 empty_store)
             a8r8g8b8 z24s8 320 240 surface_a center_1_sample
             [16777216; 0; 0; 0] 33554432 [1280; 0; 0; 0] 1280).
Qed.

Lemma get_surface_at_reachable_witness :
  get_surface_at 33554432 pooled_store = Some 4%nat
  /\ get_surface_at 5 pooled_store = None.
Proof.
  pose proof pooled_store_reachable as Hr.
  destruct (get_surface_at_reachable (T := sample_backend) pooled_store 33554432 Hr)
    as [Hsome _].
  destruct (get_surface_at_reachable (T := sample_backend) pooled_store 5 Hr)
    as [_ Hnone].
  split; [apply Hsome; right; reflexivity|apply Hnone; split; reflexivity].
Defined.

(** ** Recycling storages *)

Lemma find_reusable_split (p : handle -> bool) (l pre post : list handle) (hit : handle) :
  find_reusable p l = Some (pre, hit, post) -> l = pre ++ hit :: post /\ p hit = true.
Proof.
  revert pre. induction l as [|st r IH]; intros pre; [done|]. simpl.
  destruct (p st) eqn:E; [by intros [= <- <- <-]|].
  destruct (find_reusable p r) as [[[pre' hit'] post']|]; [|done].
  intros [= <- <- <-]. destruct (IH pre' eq_refl) as [-> Hp]. by split.
Qed.

Lemma find_reusable_some (p : handle -> bool) (l : list handle) (x : handle) :
  x ∈ l -> p x = true -> is_Some (find_reusable p l).
Proof.
  induction l as [|st r IH]; [by intros ?%elem_of_nil|]. simpl.
  intros [->|Hin]%elem_of_cons Hp.
  - rewrite Hp. by eexists.
  - destruct (p st); [by eexists|]. destruct (IH Hin Hp) as [[[pre hit] post] ->].
    by eexists.
Qed.

Section Recycling.
Context {T : Traits}.

(** X11.  Invalidating the colour surface of an address that is not bound,
    and then binding a colour target there with a shape the pool search
    accepts that surface for, creates nothing: the bind returns a surface
    taken from the pool, which holds as many storages afterwards as before
    the invalidation. *)
Theorem invalidate_then_bind_reuses (A width height pitch : Z)
  (color_format : surface_color_format) (antialias : surface_antialiasing)
  (s : surface_store) (st : handle) (d : render_target_descriptor) :
  m_render_targets_storage s !! A = Some st ->
  m_depth_stencil_storage s !! A = None ->
  address_is_bound A s = false ->
  heap s !! st = Some d ->
  rtt_has_format_width_height d color_format width height true = true ->
  let s1 := invalidate_surface_address A false s in
  let r := bind_address_as_render_targets A color_format antialias width height pitch s1 in
  r.1 ∈ invalidated_resources s ++ [st]
  /\ length (invalidated_resources r.2) = length (invalidated_resources s)
  /\ m_render_targets_storage r.2 !! A = Some r.1
  /\ heap r.2 = heap s /\ next_handle r.2 = next_handle s.
Proof.
  intros Hl Hz Hb Hd Hshape s1 r.
  assert (s1 = retire_render_target A st s) as Hs1.
  { unfold s1, invalidate_surface_address. by rewrite Hb, Hl. }
  assert (m_depth_stencil_storage s1 !! A = None
          /\ m_render_targets_storage s1 !! A = None
          /\ invalidated_resources s1 = invalidated_resources s ++ [st]
          /\ heap s1 = heap s /\ next_handle s1 = next_handle s)
    as (Hz1 & Hl1 & Hp1 & Hh1 & Hn1).
  { rewrite Hs1. simpl. by rewrite lookup_delete_eq. }
  clearbody s1. clear Hs1.
  assert (exists pre hit post,
            find_reusable
              (on_storage
                 (fun d => rtt_has_format_width_height d color_format width height true) s1)
              (invalidated_resources s1) = Some (pre, hit, post)) as (pre & hit & post & Hf).
  { destruct (find_reusable_some
                (on_storage
                   (fun d => rtt_has_format_width_height d color_format width height true)
                   s1)
                (invalidated_resources s1) st) as [[[pre hit] post] Hf].
    - rewrite Hp1. apply elem_of_app. right. apply list_elem_of_here.
    - unfold on_storage. by rewrite Hh1, Hd.
    - by exists pre, hit, post. }
  destruct (find_reusable_split _ _ _ _ _ Hf) as [Hsplit _].
  unfold r, bind_address_as_render_targets, evict_aliased_depth. rewrite Hz1, Hl1.
  unfold install_render_target.
  set (s2 := set_render_targets_memory_range _ s1).
  rewrite (on_storage_heap _ s2 s1 eq_refl).
  change (invalidated_resources s2) with (invalidated_resources s1). rewrite Hf.
  cbn [fst snd invalidated_resources m_render_targets_storage heap next_handle call
       set_invalidated_resources set_render_targets_storage s2
       set_render_targets_memory_range].
  rewrite lookup_insert_eq, <- Hp1, Hsplit.
  split; [apply elem_of_app; right; apply list_elem_of_here|].
  split; [|by repeat split].
  assert (length (invalidated_resources s1) = S (length (invalidated_resources s))) as Hlen
    by (rewrite Hp1, length_app; simpl; lia).
  rewrite Hsplit in Hlen. rewrite length_app in *. simpl in Hlen. lia.
Qed.

Lemma find_storage_of (m : gmap Z handle) (surf : handle) :
  match find (fun e : Z * handle => bool_decide (e.2 = surf)) (map_to_list m) with
  | Some (A, st) => st = surf /\ m !! A = Some surf
  | None => forall A, m !! A <> Some surf
  end.
Proof.
  destruct (find _ _) as [[A st]|] eqn:E.
  - apply find_some in E as [Hin Heq]. apply bool_decide_eq_true in Heq. simpl in Heq.
    subst st. split; [done|]. by apply elem_of_map_to_list, list_elem_of_In.
  - intros A HA.
    assert (In (A, surf) (map_to_list m)) as Hin
      by by apply list_elem_of_In, elem_of_map_to_list.
    pose proof (find_none _ _ E (A, surf) Hin) as Hf. simpl in Hf.
    by rewrite bool_decide_eq_true_2 in Hf.
Qed.

(** X12.  [invalidate_single_surface] looks for the surface in the map its
    flag selects.  If it is not there, nothing happens.  If it is, the
    entry of one address holding it is erased, the storage is pushed at the
    back of the pool and [cache_tag] takes a new shared tag; whether the
    address is bound is not looked at, and the bound slots stay as they
    are. *)
Theorem invalidate_single_surface_moves (surf : handle) (s : surface_store) :
  ((forall A, m_render_targets_storage s !! A <> Some surf) ->
   invalidate_single_surface surf false s = s)
  /\ ((forall A, m_depth_stencil_storage s !! A <> Some surf) ->
      invalidate_single_surface surf true s = s)
  /\ ((exists A, m_render_targets_storage s !! A = Some surf) ->
      exists A, m_render_targets_storage s !! A = Some surf
        /\ let s' := invalidate_single_surface surf false s in
           m_render_targets_storage s' = delete A (m_render_targets_storage s)
           /\ m_depth_stencil_storage s' = m_depth_stencil_storage s
           /\ invalidated_resources s' = invalidated_resources s ++ [surf]
           /\ m_bound_render_targets s' = m_bound_render_targets s
           /\ m_bound_depth_stencil s' = m_bound_depth_stencil s
           /\ cache_tag s' = shared_tag s)
  /\ ((exists A, m_depth_stencil_storage s !! A = Some surf) ->
      exists A, m_depth_stencil_storage s !! A = Some surf
        /\ let s' := invalidate_single_surface surf true s in
           m_depth_stencil_storage s' = delete A (m_depth_stencil_storage s)
           /\ m_render_targets_storage s' = m_render_targets_storage s
           /\ invalidated_resources s' = invalidated_resources s ++ [surf]
           /\ m_bound_render_targets s' = m_bound_render_targets s
           /\ m_bound_depth_stencil s' = m_bound_depth_stencil s
           /\ cache_tag s' = shared_tag s).
Proof.
  unfold invalidate_single_surface. simpl.
  pose proof (find_storage_of (m_render_targets_storage s) surf) as Hc.
  pose proof (find_storage_of (m_depth_stencil_storage s) surf) as Hz.
  destruct (find _ (map_to_list (m_render_targets_storage s))) as [[Ac stc]|];
    destruct (find _ (map_to_list (m_depth_stencil_storage s))) as [[Az stz]|];
    repeat split;
    try (intros Hno; exfalso;
         first [destruct Hc as [_ Hc]; by apply (Hno _ Hc)
               |destruct Hz as [_ Hz]; by apply (Hno _ Hz)]);
    try done;
    try (intros [A HA]; exfalso; first [by apply (Hc A)|by apply (Hz A)]);
    intros _;
    first [destruct Hc as [-> Hc]; by exists Ac|destruct Hz as [-> Hz]; by exists Az].
Qed.

Lemma held_same_fields s s' st :
  m_render_targets_storage s' = m_render_targets_storage s ->
  m_depth_stencil_storage s' = m_depth_stencil_storage s ->
  invalidated_resources s' = invalidated_resources s ->
  held s st -> held s' st.
Proof. unfold held. by intros -> -> ->. Qed.

(** A storage stays held when a free address of the colour map takes a
    storage [x] and the pool loses at most [x]. *)
Lemma held_install_colour s s' A x st :
  m_render_targets_storage s !! A = None ->
  m_render_targets_storage s' = <[A := x]> (m_render_targets_storage s) ->
  m_depth_stencil_storage s' = m_depth_stencil_storage s ->
  (forall y, y ∈ invalidated_resources s -> y ∈ invalidated_resources s' \/ y = x) ->
  held s st -> held s' st.
Proof.
  unfold held. intros Hfree -> -> Hpool [Hp|[[A' Hc]|Hz]].
  - destruct (Hpool _ Hp) as [?| ->]; [by left|].
    right. left. exists A. apply lookup_insert_eq.
  - right. left. exists A'. rewrite lookup_insert_ne; [done|]. intros <-. congruence.
  - by right; right.
Qed.

Lemma held_install_depth s s' A x st :
  m_depth_stencil_storage s !! A = None ->
  m_depth_stencil_storage s' = <[A := x]> (m_depth_stencil_storage s) ->
  m_render_targets_storage s' = m_render_targets_storage s ->
  (forall y, y ∈ invalidated_resources s -> y ∈ invalidated_resources s' \/ y = x) ->
  held s st -> held s' st.
Proof.
  unfold held. intros Hfree -> -> Hpool [Hp|[Hc|[A' Hz]]].
  - destruct (Hpool _ Hp) as [?| ->]; [by left|].
    right. right. exists A. apply lookup_insert_eq.
  - by right; left.
  - right. right. exists A'. rewrite lookup_insert_ne; [done|]. intros <-. congruence.
Qed.

(** What [install_render_target] does to the maps and the pool. *)
Lemma install_render_target_stock address color_format antialias width height pitch
  old conv s :
  let r := install_render_target address color_format antialias width height pitch
             old conv s in
  m_render_targets_storage r.2 = <[address := r.1]> (m_render_targets_storage s)
  /\ m_depth_stencil_storage r.2 = m_depth_stencil_storage s
  /\ (forall y, y ∈ invalidated_resources s -> y ∈ invalidated_resources r.2 \/ y = r.1)
  /\ (forall o, old = Some o -> o ∈ invalidated_resources r.2).
Proof.
  unfold install_render_target.
  set (s1 := set_render_targets_memory_range _ s).
  rewrite (on_storage_heap _ s1 s eq_refl).
  change (invalidated_resources s1) with (invalidated_resources s).
  destruct (find_reusable _ _) as [[[pre hit] post]|] eqn:Hf.
  - destruct (find_reusable_split _ _ _ _ _ Hf) as [-> _].
    destruct old as [o|]; simpl; (split; [done|]); (split; [done|]); split.
    + intros y. rewrite !elem_of_app, !elem_of_cons. tauto.
    + intros o' [= <-]. rewrite elem_of_app, elem_of_cons. tauto.
    + intros y. rewrite !elem_of_app, !elem_of_cons. tauto.
    + done.
  - destruct old as [o|]; simpl; (split; [done|]); (split; [done|]); split.
    + intros y Hy. left. apply elem_of_app. by left.
    + intros o' [= <-]. apply elem_of_app. right. apply list_elem_of_here.
    + intros y Hy. by left.
    + done.
Qed.

Lemma install_depth_stencil_stock address depth_format antialias width height pitch
  old conv s :
  let r := install_depth_stencil address depth_format antialias width height pitch
             old conv s in
  m_depth_stencil_storage r.2 = <[address := r.1]> (m_depth_stencil_storage s)
  /\ m_render_targets_storage r.2 = m_render_targets_storage s
  /\ (forall y, y ∈ invalidated_resources s -> y ∈ invalidated_resources r.2 \/ y = r.1)
  /\ (forall o, old = Some o -> o ∈ invalidated_resources r.2).
Proof.
  unfold install_depth_stencil.
  set (s1 := set_depth_stencil_memory_range _ s).
  rewrite (on_storage_heap _ s1 s eq_refl).
  change (invalidated_resources s1) with (invalidated_resources s).
  destruct (find_reusable _ _) as [[[pre hit] post]|] eqn:Hf.
  - destruct (find_reusable_split _ _ _ _ _ Hf) as [-> _].
    destruct old as [o|]; simpl; (split; [done|]); (split; [done|]); split.
    + intros y. rewrite !elem_of_app, !elem_of_cons. tauto.
    + intros o' [= <-]. rewrite elem_of_app, elem_of_cons. tauto.
    + intros y. rewrite !elem_of_app, !elem_of_cons. tauto.
    + done.
  - destruct old as [o|]; simpl; (split; [done|]); (split; [done|]); split.
    + intros y Hy. left. apply elem_of_app. by left.
    + intros o' [= <-]. apply elem_of_app. right. apply list_elem_of_here.
    + intros y Hy. by left.
    + done.
Qed.

Lemma evict_aliased_depth_held address s st :
  held s st -> held (evict_aliased_depth address s).2 st.
Proof.
  unfold evict_aliased_depth, held.
  destruct (m_depth_stencil_storage s !! address) as [x|] eqn:E; [|done]. simpl.
  intros [Hp|[Hc|[A Hz]]].
  - left. apply elem_of_app. by left.
  - by right; left.
  - destruct (decide (address = A)) as [->|Hne].
    + left. apply elem_of_app. right. rewrite E in Hz. injection Hz as ->.
      apply list_elem_of_here.
    + right. right. exists A. by rewrite lookup_delete_ne.
Qed.

Lemma evict_aliased_rtt_held address s st :
  held s st -> held (evict_aliased_rtt address s).2 st.
Proof.
  unfold evict_aliased_rtt, held.
  destruct (m_render_targets_storage s !! address) as [x|] eqn:E; [|done]. simpl.
  intros [Hp|[[A Hc]|Hz]].
  - left. apply elem_of_app. by left.
  - destruct (decide (address = A)) as [->|Hne].
    + left. apply elem_of_app. right. rewrite E in Hc. injection Hc as ->.
      apply list_elem_of_here.
    + right. left. exists A. by rewrite lookup_delete_ne.
  - by right; right.
Qed.

Lemma bind_address_as_render_targets_held address color_format antialias width height
  pitch s st :
  held s st ->
  held (bind_address_as_render_targets address color_format antialias
          width height pitch s).2 st.
Proof.
  intros Hh. apply (evict_aliased_depth_held address) in Hh.
  unfold bind_address_as_render_targets.
  destruct (evict_aliased_depth address s) as [conv s0]. cbn [snd] in Hh.
  destruct (m_render_targets_storage s0 !! address) as [rtt|] eqn:El.
  - destruct (on_storage _ s0 rtt).
    + by destruct (on_storage (fun d => surface_is_pitch_compatible d pitch) s0 rtt).
    + set (s1 := set_render_targets_storage _ s0).
      destruct (install_render_target_stock address color_format antialias width height
                  pitch (Some rtt) conv s1) as (Hc & Hz & Hp & Ho).
      assert (held s1 st \/ st = rtt) as [H1| ->].
      { destruct Hh as [?|[[A HA]|?]]; [left; by left| |left; by right; right].
        destruct (decide (address = A)) as [->|Hne].
        - right. congruence.
        - left. right. left. exists A. simpl. by rewrite lookup_delete_ne. }
      * exact (held_install_colour s1 _ address _ st (lookup_delete_eq _ _) Hc Hz Hp H1).
      * left. by apply Ho.
  - destruct (install_render_target_stock address color_format antialias width height
                pitch None conv s0) as (Hc & Hz & Hp & _).
    exact (held_install_colour s0 _ address _ st El Hc Hz Hp Hh).
Qed.

Lemma bind_address_as_depth_stencil_held address depth_format antialias width height
  pitch s st :
  held s st ->
  held (bind_address_as_depth_stencil address depth_format antialias
          width height pitch s).2 st.
Proof.
  intros Hh. apply (evict_aliased_rtt_held address) in Hh.
  unfold bind_address_as_depth_stencil.
  destruct (evict_aliased_rtt address s) as [conv s0]. cbn [snd] in Hh.
  destruct (m_depth_stencil_storage s0 !! address) as [ds|] eqn:El.
  - destruct (on_storage _ s0 ds).
    + by destruct (on_storage (fun d => surface_is_pitch_compatible d pitch) s0 ds).
    + set (s1 := set_depth_stencil_storage _ s0).
      destruct (install_depth_stencil_stock address depth_format antialias width height
                  pitch (Some ds) conv s1) as (Hz & Hc & Hp & Ho).
      assert (held s1 st \/ st = ds) as [H1| ->].
      { destruct Hh as [?|[?|[A HA]]]; [left; by left|left; by right; left|].
        destruct (decide (address = A)) as [->|Hne].
        - right. congruence.
        - left. right. right. exists A. simpl. by rewrite lookup_delete_ne. }
      * exact (held_install_depth s1 _ address _ st (lookup_delete_eq _ _) Hz Hc Hp H1).
      * left. by apply Ho.
  - destruct (install_depth_stencil_stock address depth_format antialias width height
                pitch None conv s0) as (Hz & Hc & Hp & _).
    exact (held_install_depth s0 _ address _ st El Hz Hc Hp Hh).
Qed.

Lemma prepare_render_target_held color_format depth_format clip_horizontal_reg
  clip_vertical_reg set_surface_target antialias surface_addresses address_z
  surface_pitch zeta_pitch s st :
  held s st ->
  held (prepare_render_target color_format depth_format clip_horizontal_reg
          clip_vertical_reg set_surface_target antialias surface_addresses
          address_z surface_pitch zeta_pitch s) st.
Proof.
  intros Hh. unfold prepare_render_target. cbn [get_shared_tag].
  remember (set_memory_tree [] (set_cache_tag (shared_tag s)
              (set_shared_tag (shared_tag s + 1) s))) as sa eqn:Esa.
  assert (held sa st) as Ha by (subst sa; by apply (held_same_fields s)).
  clear Esa.
  assert (held (sample_bound_render_targets sa) st) as Hb.
  { pose proof (sample_bound_render_targets_maps sa) as Hm.
    unfold store_maps in Hm. injection Hm as Hc Hz.
    apply (held_same_fields sa); try done.
    unfold sample_bound_render_targets.
    change (invalidated_resources (set_bound_render_targets ?b ?x))
      with (invalidated_resources x).
    apply (foldl_keeps invalidated_resources). intros s' x. by destruct x.2. }
  remember (sample_bound_render_targets sa) as sb eqn:Esb. clear Esb.
  assert (held (bind_render_targets color_format antialias clip_horizontal_reg
                  clip_vertical_reg surface_addresses surface_pitch
                  (get_rtt_indexes set_surface_target) sb) st) as Hc.
  { unfold bind_render_targets. apply (foldl_invariant (fun s => held s st)); [|done].
    intros s' i Hs'. destruct (array_at surface_addresses i =? 0); [done|].
    pose proof (bind_address_as_render_targets_held (array_at surface_addresses i)
                  color_format antialias clip_horizontal_reg clip_vertical_reg
                  (array_at surface_pitch i) s' st Hs') as Hbind.
    by destruct (bind_address_as_render_targets _ _ _ _ _ _ s'). }
  remember (bind_render_targets color_format antialias clip_horizontal_reg
              clip_vertical_reg surface_addresses surface_pitch
              (get_rtt_indexes set_surface_target) sb) as sc eqn:Esc. clear Esc.
  set (sd := match (m_bound_depth_stencil sc).2 with Some _ => _ | None => sc end).
  assert (held sd st) as Hd by (unfold sd; by destruct (m_bound_depth_stencil sc).2).
  destruct (address_z =? 0); [done|].
  pose proof (bind_address_as_depth_stencil_held address_z depth_format antialias
                clip_horizontal_reg clip_vertical_reg zeta_pitch
                (set_bound_depth_stencil (0, None) sd) st Hd) as Hbind.
  by destruct (bind_address_as_depth_stencil _ _ _ _ _ _ _).
Qed.

Lemma retire_render_target_held address x s st :
  m_render_targets_storage s !! address = Some x ->
  held s st -> held (retire_render_target address x s) st.
Proof.
  unfold held. simpl. intros Hx [Hp|[[A Hc]|Hz]].
  - left. apply elem_of_app. by left.
  - destruct (decide (address = A)) as [->|Hne].
    + left. apply elem_of_app. right. rewrite Hx in Hc. injection Hc as ->.
      apply list_elem_of_here.
    + right. left. exists A. by rewrite lookup_delete_ne.
  - by right; right.
Qed.

Lemma retire_depth_stencil_held address x s st :
  m_depth_stencil_storage s !! address = Some x ->
  held s st -> held (retire_depth_stencil address x s) st.
Proof.
  unfold held. simpl. intros Hx [Hp|[Hc|[A Hz]]].
  - left. apply elem_of_app. by left.
  - by right; left.
  - destruct (decide (address = A)) as [->|Hne].
    + left. apply elem_of_app. right. rewrite Hx in Hz. injection Hz as ->.
      apply list_elem_of_here.
    + right. right. exists A. by rewrite lookup_delete_ne.
Qed.

Lemma invalidate_surface_address_held addr depth s st :
  held s st -> held (invalidate_surface_address addr depth s) st.
Proof.
  intros Hh. unfold invalidate_surface_address.
  destruct (address_is_bound addr s); [done|]. destruct (negb depth).
  - destruct (m_render_targets_storage s !! addr) eqn:E; [|done].
    by apply retire_render_target_held.
  - destruct (m_depth_stencil_storage s !! addr) eqn:E; [|done].
    by apply retire_depth_stencil_held.
Qed.

Lemma invalidate_single_surface_held surf depth s st :
  held s st -> held (invalidate_single_surface surf depth s) st.
Proof.
  intros Hh. unfold invalidate_single_surface.
  pose proof (find_storage_of (m_render_targets_storage s) surf) as Hc.
  pose proof (find_storage_of (m_depth_stencil_storage s) surf) as Hz.
  destruct (negb depth).
  - destruct (find _ (map_to_list (m_render_targets_storage s))) as [[A x]|]; [|done].
    destruct Hc as [-> Hc]. by apply retire_render_target_held.
  - destruct (find _ (map_to_list (m_depth_stencil_storage s))) as [[A x]|]; [|done].
    destruct Hz as [-> Hz]. by apply retire_depth_stencil_held.
Qed.

(** [on_write] past its early return touches only the surface objects, the
    memory tree and the memory tag. *)
Lemma on_write_propagate_frame mem address s :
  store_frame (on_write_propagate mem address s) = store_frame s.
Proof.
  unfold on_write_propagate.
  set (s1 := if negb (memory_tag s =? cache_tag s) then _ else s).
  assert (store_frame s1 = store_frame s) as <-.
  { unfold s1. by destruct (negb (memory_tag s =? cache_tag s)). }
  set (s2 := foldl (mark_overlapping_dirty address) s1 (m_memory_tree s1)).
  assert (store_frame s2 = store_frame s1) as <-.
  { apply foldl_keeps. intros s' e.
    unfold mark_overlapping_dirty. destruct (_ && _); [done|].
    by apply foldl_keeps. }
  set (s3 := foldl (write_bound_render_target mem address) s2 (m_bound_render_targets s2)).
  assert (store_frame s3 = store_frame s2) as <-.
  { apply foldl_keeps. intros s' e.
    unfold write_bound_render_target. destruct (_ && _); [done|]. by destruct e.2. }
  destruct (m_bound_depth_stencil s3).2; [|done]. by destruct (_ || _).
Qed.

Lemma on_write_frame_fields mem address s :
  let s' := on_write mem address s in
  m_render_targets_storage s' = m_render_targets_storage s
  /\ m_depth_stencil_storage s' = m_depth_stencil_storage s
  /\ invalidated_resources s' = invalidated_resources s
  /\ m_bound_render_targets s' = m_bound_render_targets s
  /\ m_bound_depth_stencil s' = m_bound_depth_stencil s
  /\ cache_tag s' = cache_tag s /\ shared_tag s' = shared_tag s
  /\ next_handle s' = next_handle s /\ trace s' = trace s.
Proof.
  intros s'.
  assert (store_frame s' = store_frame s) as Hf.
  { unfold s', on_write. destruct (address =? 0).
    - destruct (write_tag s =? cache_tag s); [done|].
      by rewrite on_write_propagate_frame.
    - apply on_write_propagate_frame. }
  clearbody s'. unfold store_frame in Hf.
  by injection Hf as -> -> -> -> -> -> -> -> ->.
Qed.

(** X13.  No call of a public member function drops a storage: a storage
    that is in the colour map, the depth map or the invalidated pool before
    the call is in one of the three after it. *)
Theorem step_keeps_storages (s s' : surface_store) (st : handle) :
  step s s' -> held s st -> held s' st.
Proof.
  intros Hstep Hh. destruct Hstep.
  - by apply prepare_render_target_held.
  - by apply invalidate_single_surface_held.
  - by apply invalidate_surface_address_held.
  - unfold get_merged_texture_memory_region. cbn [snd].
    apply (foldl_invariant (fun s => held s st));
      [intros; by apply invalidate_surface_address_held|].
    by apply (foldl_invariant (fun s => held s st)).
  - destruct (on_write_frame_fields mem address s) as (Hc & Hz & Hp & _).
    by apply (held_same_fields s).
  - done.
Qed.

End Recycling.

Lemma invalidate_then_bind_reuses_witness :
  let s1 := invalidate_surface_address 16777216 false moved_store in
  let r := bind_address_as_render_targets (T := sample_backend) 16777216 a8r8g8b8
             center_1_sample 640 480 2560 s1 in
  r.1 ∈ invalidated_resources moved_store ++ [1%nat]
  /\ length (invalidated_resources r.2) = length (invalidated_resources moved_store)
  /\ m_render_targets_storage r.2 !! 16777216 = Some r.1
  /\ heap r.2 = heap moved_store /\ next_handle r.2 = next_handle moved_store.
Proof.
  apply (invalidate_then_bind_reuses (T := sample_backend) 16777216 640 480 2560
           a8r8g8b8 center_1_sample moved_store 1%nat
           (sample_surface false 16777216 640 480 2560 None));
    vm_compute; reflexivity.
Defined.

Lemma invalidate_single_surface_moves_witness :
  exists A, m_render_targets_storage pooled_store !! A = Some 3%nat
    /\ let s' := invalidate_single_surface 3%nat false pooled_store in
       m_render_targets_storage s' = delete A (m_render_targets_storage pooled_store)
       /\ m_depth_stencil_storage s' = m_depth_stencil_storage pooled_store
       /\ invalidated_resources s' = invalidated_resources pooled_store ++ [3%nat]
       /\ m_bound_render_targets s' = m_bound_render_targets pooled_store
       /\ m_bound_depth_stencil s' = m_bound_depth_stencil pooled_store
       /\ cache_tag s' = shared_tag pooled_store.
Proof.
  destruct (invalidate_single_surface_moves 3%nat pooled_store) as (_ & _ & H & _).
  apply H. exists 16777216. vm_compute. reflexivity.
Defined.

Lemma step_keeps_storages_witness :
  held (invalidate_single_surface 3%nat false pooled_store) 3%nat.
Proof.
  apply (step_keeps_storages (T := sample_backend) pooled_store).
  - apply step_invalidate_single_surface.
  - right. left. exists 16777216. vm_compute. reflexivity.
Defined.

(** ** Writes *)

Section Writes.
Context {T : Traits}.

Lemma sync_samples_again mem l : sync_samples mem (sync_samples mem l) = sync_samples mem l.
Proof.
  induction l as [|[a v] r IH]; [done|]. simpl.
  destruct (a =? 0) eqn:Ha; simpl; rewrite Ha; [done|]. by rewrite IH.
Qed.

Lemma desc_on_write_again mem tag d :
  desc_on_write mem tag (desc_on_write mem tag d) = desc_on_write mem tag d.
Proof.
  unfold desc_on_write, sync_tag. destruct (tag =? 0); simpl;
    by rewrite sync_samples_again.
Qed.

Lemma desc_on_write_set_dirty mem tag b d :
  desc_on_write mem tag (set_dirty b d) = desc_on_write mem tag d.
Proof. unfold desc_on_write, sync_tag. by destruct (tag =? 0). Qed.

Lemma desc_on_write_clean mem tag d :
  let d' := desc_on_write mem tag d in
  dirty d' = false /\ old_contents d' = None /\ test mem d' = true
  /\ read_aa_mode d' = write_aa_mode d /\ (tag <> 0 -> last_use_tag d' = tag).
Proof.
  unfold desc_on_write, sync_tag, test. destruct (tag =? 0) eqn:E; simpl;
    rewrite test_sync_samples; repeat split; try done.
  intros Hne. by apply Z.eqb_eq in E.
Qed.

(** A loop each of whose iterations applies [g] to the surface objects it
    touches applies [g] to the objects some iteration touches. *)
Lemma alter_fold {A : Type} (P : surface_store -> Prop)
  (f : surface_store -> A -> surface_store)
  (g : render_target_descriptor -> render_target_descriptor)
  (touches : A -> handle -> bool) :
  (forall d, g (g d) = g d) ->
  (forall s x, P s -> P (f s x)) ->
  (forall s x h, P s ->
     heap (f s x) !! h = if touches x h then g <$> heap s !! h else heap s !! h) ->
  forall l s h, P s ->
    heap (foldl f s l) !! h
    = if existsb (fun x => touches x h) l then g <$> heap s !! h else heap s !! h.
Proof.
  intros Hg HP Hstep l. induction l as [|x l IH]; intros s h Hs; [done|].
  simpl. rewrite IH by auto. rewrite Hstep by done.
  destruct (touches x h), (existsb _ l); simpl; try done.
  destruct (heap s !! h); simpl; [by rewrite Hg|done].
Qed.

Lemma existsb_bool_decide_ref (h : handle) (l : list memory_overlap_t) :
  existsb (fun entry => bool_decide (_ref entry = h)) l = bool_decide (h ∈ _ref <$> l).
Proof.
  induction l as [|x l IH]; [done|]. simpl. rewrite IH.
  destruct (decide (_ref x = h)) as [<-|Hne].
  - rewrite (bool_decide_eq_true_2 (_ref x = _ref x)) by done. simpl. symmetry.
    apply bool_decide_eq_true_2. apply list_elem_of_here.
  - rewrite (bool_decide_eq_false_2 (_ref x = h)) by done. simpl.
    apply bool_decide_ext. rewrite elem_of_cons.
    split; [by right|]. by intros [Heq|Hin].
Qed.

Lemma mark_set_heap (l : list memory_overlap_t) s h :
  heap (foldl (fun s entry => set_heap (alter (set_dirty true) (_ref entry) (heap s)) s)
          s l) !! h
  = if bool_decide (h ∈ _ref <$> l) then set_dirty true <$> heap s !! h else heap s !! h.
Proof.
  rewrite <- existsb_bool_decide_ref.
  pose proof (alter_fold (fun _ => True)
                (fun s (entry : memory_overlap_t) =>
                   set_heap (alter (set_dirty true) (_ref entry) (heap s)) s)
                (set_dirty true)
                (fun (entry : memory_overlap_t) (h0 : handle) =>
                   bool_decide (_ref entry = h0))) as Hf.
  apply Hf; try done.
  intros s' x h' _. simpl. destruct (decide (_ref x = h')) as [<-|Hne].
  - rewrite bool_decide_eq_true_2 by done. by rewrite lookup_alter_eq.
  - rewrite bool_decide_eq_false_2 by done. by rewrite lookup_alter_ne.
Qed.

Lemma mark_overlapping_dirty_heap address s e h :
  heap (mark_overlapping_dirty address s e) !! h
  = if marks address h e then set_dirty true <$> heap s !! h else heap s !! h.
Proof.
  unfold mark_overlapping_dirty, marks.
  destruct (address =? 0), (memory_address e =? address); simpl; try done;
    apply mark_set_heap.
Qed.

Lemma write_bound_render_target_heap mem address s slot h :
  heap (write_bound_render_target mem address s slot) !! h
  = if writes address h slot
    then desc_on_write mem (write_tag s) <$> heap s !! h else heap s !! h.
Proof.
  unfold write_bound_render_target, writes.
  destruct (address =? 0), (slot.1 =? address); simpl; try done.
  all: destruct slot.2 as [surf|]; simpl; [|done];
    destruct (decide (surf = h)) as [<-|Hne];
    [rewrite bool_decide_eq_true_2 by done; by rewrite lookup_alter_eq
    |rewrite bool_decide_eq_false_2 by congruence; by rewrite lookup_alter_ne].
Qed.

(** What [on_write] past its early return does to each surface object. *)
Lemma on_write_propagate_heap mem address s h :
  let s' := on_write_propagate mem address s in
  heap s' !! h
  = if existsb (writes address h) (m_bound_render_targets s)
       || writes address h (m_bound_depth_stencil s)
    then desc_on_write mem (write_tag s) <$> heap s !! h
    else if existsb (marks address h) (m_memory_tree s')
         then set_dirty true <$> heap s !! h else heap s !! h.
Proof.
  intros s'. unfold s', on_write_propagate.
  remember (if negb (memory_tag s =? cache_tag s)
            then set_memory_tag (cache_tag (generate_render_target_memory_tree s))
                   (generate_render_target_memory_tree s)
            else s) as s1 eqn:E1.
  assert (heap s1 = heap s /\ m_bound_render_targets s1 = m_bound_render_targets s
          /\ m_bound_depth_stencil s1 = m_bound_depth_stencil s
          /\ write_tag s1 = write_tag s) as (Hh1 & Hb1 & Hz1 & Hw1).
  { subst s1. by destruct (negb (memory_tag s =? cache_tag s)). }
  clear E1.
  remember (foldl (mark_overlapping_dirty address) s1 (m_memory_tree s1)) as s2 eqn:E2.
  assert (forall h, heap s2 !! h
            = if existsb (marks address h) (m_memory_tree s1)
              then set_dirty true <$> heap s1 !! h else heap s1 !! h) as Hh2.
  { intros h'. subst s2.
    apply (alter_fold (fun _ => True) (mark_overlapping_dirty address) (set_dirty true)
             (fun e h => marks address h e)); try done.
    intros s0 x h0 _. apply mark_overlapping_dirty_heap. }
  assert (m_bound_render_targets s2 = m_bound_render_targets s1
          /\ m_bound_depth_stencil s2 = m_bound_depth_stencil s1
          /\ write_tag s2 = write_tag s1 /\ m_memory_tree s2 = m_memory_tree s1)
    as (Hb2 & Hz2 & Hw2 & Ht2).
  { subst s2.
    assert (forall s0 e,
              (m_bound_render_targets (mark_overlapping_dirty address s0 e),
               m_bound_depth_stencil (mark_overlapping_dirty address s0 e),
               write_tag (mark_overlapping_dirty address s0 e),
               m_memory_tree (mark_overlapping_dirty address s0 e))
              = (m_bound_render_targets s0, m_bound_depth_stencil s0, write_tag s0,
                 m_memory_tree s0)) as Hstep.
    { intros s0 e. unfold mark_overlapping_dirty. destruct (_ && _); [done|].
      by apply (foldl_keeps (fun s => (m_bound_render_targets s, m_bound_depth_stencil s,
                                        write_tag s, m_memory_tree s))). }
    pose proof (foldl_keeps (fun s => (m_bound_render_targets s, m_bound_depth_stencil s,
                                        write_tag s, m_memory_tree s))
                  _ Hstep (m_memory_tree s1) s1) as Hk.
    simpl in Hk. by injection Hk as -> -> -> ->. }
  clear E2.
  remember (foldl (write_bound_render_target mem address) s2 (m_bound_render_targets s2))
    as s3 eqn:E3.
  assert (forall s0 slot,
            (m_bound_depth_stencil (write_bound_render_target mem address s0 slot),
             write_tag (write_bound_render_target mem address s0 slot),
             m_memory_tree (write_bound_render_target mem address s0 slot))
            = (m_bound_depth_stencil s0, write_tag s0, m_memory_tree s0)) as Hstep.
  { intros s0 slot. unfold write_bound_render_target. destruct (_ && _); [done|].
    by destruct slot.2. }
  assert (forall h, heap s3 !! h
            = if existsb (writes address h) (m_bound_render_targets s2)
              then desc_on_write mem (write_tag s2) <$> heap s2 !! h
              else heap s2 !! h) as Hh3.
  { intros h'. subst s3.
    apply (alter_fold (fun s0 => write_tag s0 = write_tag s2)
             (write_bound_render_target mem address) (desc_on_write mem (write_tag s2))
             (fun slot h => writes address h slot)); try done.
    - apply desc_on_write_again.
    - intros s0 x Hs0. specialize (Hstep s0 x). injection Hstep as _ Hw _. congruence.
    - intros s0 x h0 Hs0. rewrite <- Hs0. apply write_bound_render_target_heap. }
  assert (m_bound_depth_stencil s3 = m_bound_depth_stencil s2
          /\ write_tag s3 = write_tag s2 /\ m_memory_tree s3 = m_memory_tree s2)
    as (Hz3 & Hw3 & Ht3).
  { subst s3.
    pose proof (foldl_keeps (fun s => (m_bound_depth_stencil s, write_tag s, m_memory_tree s))
                  _ Hstep (m_bound_render_targets s2) s2) as Hk.
    simpl in Hk. by injection Hk as -> -> ->. }
  clear E3 Hstep.
  assert (m_memory_tree
            (match (m_bound_depth_stencil s3).2 with
             | Some ds =>
                 if (address =? 0) || ((m_bound_depth_stencil s3).1 =? address)
                 then set_heap (alter (desc_on_write mem (write_tag s3)) ds (heap s3)) s3
                 else s3
             | None => s3
             end) = m_memory_tree s1) as ->.
  { rewrite <- Ht2, <- Ht3. destruct (m_bound_depth_stencil s3).2; [|done].
    by destruct (_ || _). }
  assert (heap
            (match (m_bound_depth_stencil s3).2 with
             | Some ds =>
                 if (address =? 0) || ((m_bound_depth_stencil s3).1 =? address)
                 then set_heap (alter (desc_on_write mem (write_tag s3)) ds (heap s3)) s3
                 else s3
             | None => s3
             end) !! h
          = if writes address h (m_bound_depth_stencil s3)
            then desc_on_write mem (write_tag s3) <$> heap s3 !! h else heap s3 !! h) as ->.
  { unfold writes. destruct (m_bound_depth_stencil s3).2 as [ds|]; simpl.
    - destruct ((address =? 0) || ((m_bound_depth_stencil s3).1 =? address)); simpl; [|done].
      destruct (decide (ds = h)) as [<-|Hne].
      + rewrite bool_decide_eq_true_2 by done. by rewrite lookup_alter_eq.
      + rewrite bool_decide_eq_false_2 by congruence. by rewrite lookup_alter_ne.
    - by rewrite andb_false_r. }
  rewrite Hh3, Hh2, Hz3, Hz2, Hz1, Hb2, Hb1, Hw3, Hw2, Hw1, Hh1.
  destruct (existsb (writes address h) (m_bound_render_targets s)),
    (writes address h (m_bound_depth_stencil s)),
    (existsb (marks address h) (m_memory_tree s1)), (heap s !! h) as [d|];
    simpl; try done; by rewrite ?desc_on_write_again, ?desc_on_write_set_dirty.
Qed.

Lemma writes_slot address surf (slot : Z * option handle) l z :
  slot ∈ l ++ [z] -> slot.2 = Some surf -> address = 0 \/ slot.1 = address ->
  existsb (writes address surf) l || writes address surf z = true.
Proof.
  intros Hin H2 Ha.
  assert (writes address surf slot = true) as Hw.
  { unfold writes. rewrite bool_decide_eq_true_2 by done.
    destruct Ha as [->| ->]; [done|]. by rewrite Z.eqb_refl, orb_true_r. }
  apply elem_of_app in Hin as [Hin|Hin].
  - apply orb_true_iff. left. apply existsb_exists. exists slot.
    split; [by apply list_elem_of_In|done].
  - apply list_elem_of_singleton in Hin as <-. by rewrite Hw, orb_true_r.
Qed.

Lemma writes_no_slot address h l (z : Z * option handle) :
  (forall slot : Z * option handle, slot ∈ l ++ [z] -> slot.2 = Some h ->
     address <> 0 /\ slot.1 <> address) ->
  existsb (writes address h) l || writes address h z = false.
Proof.
  intros Hno.
  assert (forall slot, slot ∈ l ++ [z] -> writes address h slot = false) as Hw.
  { intros slot Hin. unfold writes.
    destruct (decide (slot.2 = Some h)) as [Heq|Hne].
    - destruct (Hno slot Hin Heq) as [Ha Hs].
      apply Z.eqb_neq in Ha, Hs. by rewrite Ha, Hs.
    - rewrite (bool_decide_eq_false_2 _ Hne). apply andb_false_r. }
  apply orb_false_iff. split.
  - destruct (existsb (writes address h) l) eqn:E; [|done].
    apply existsb_exists in E as (slot & Hin & Hs). apply list_elem_of_In in Hin.
    rewrite Hw in Hs; [done|]. apply elem_of_app. by left.
  - apply Hw. apply elem_of_app. right. apply list_elem_of_here.
Qed.

Lemma marks_entry address (e : surface_hierachy_info) entry l :
  e ∈ l -> address = 0 \/ memory_address e = address -> entry ∈ overlapping_set e ->
  existsb (marks address (_ref entry)) l = true.
Proof.
  intros He Ha Hentry. apply existsb_exists. exists e.
  split; [by apply list_elem_of_In|]. unfold marks.
  rewrite bool_decide_eq_true_2 by (apply list_elem_of_fmap; by exists entry).
  destruct Ha as [->| ->]; [done|]. by rewrite Z.eqb_refl, orb_true_r.
Qed.

Lemma marks_no_entry address h (l : list surface_hierachy_info) :
  (forall e entry, e ∈ l -> entry ∈ overlapping_set e -> _ref entry = h ->
     address <> 0 /\ memory_address e <> address) ->
  existsb (marks address h) l = false.
Proof.
  intros Hno. destruct (existsb (marks address h) l) eqn:E; [|done].
  apply existsb_exists in E as (e & Hin & Hm). apply list_elem_of_In in Hin.
  unfold marks in Hm. apply andb_true_iff in Hm as [Ha Hr].
  apply bool_decide_eq_true in Hr. apply list_elem_of_fmap in Hr as (entry & Href & Hentry).
  destruct (Hno e entry Hin Hentry (eq_sym Href)) as [Hz Hne].
  apply Z.eqb_neq in Hz, Hne. by rewrite Hz, Hne in Ha.
Qed.

(** The call of [on_write_propagate] that [on_write] makes, if it makes
    one: on a store with the bound slots and the surface objects of [s]. *)
Lemma on_write_cases mem address s :
  on_write mem address s = s
  \/ exists s0,
       on_write mem address s = on_write_propagate mem address s0
       /\ heap s0 = heap s /\ m_bound_render_targets s0 = m_bound_render_targets s
       /\ m_bound_depth_stencil s0 = m_bound_depth_stencil s
       /\ write_tag s0 = (if address =? 0 then cache_tag s else write_tag s).
Proof.
  unfold on_write. destruct (address =? 0).
  - destruct (write_tag s =? cache_tag s); [by left|]. right. by eexists.
  - right. by eexists.
Qed.

Lemma on_write_runs mem address s :
  (address = 0 -> write_tag s <> cache_tag s) ->
  exists s0,
    on_write mem address s = on_write_propagate mem address s0
    /\ heap s0 = heap s /\ m_bound_render_targets s0 = m_bound_render_targets s
    /\ m_bound_depth_stencil s0 = m_bound_depth_stencil s
    /\ write_tag s0 = (if address =? 0 then cache_tag s else write_tag s).
Proof.
  intros Hrun. unfold on_write. destruct (address =? 0) eqn:Ea.
  - apply Z.eqb_eq in Ea. apply Hrun, Z.eqb_neq in Ea. rewrite Ea. by eexists.
  - by eexists.
Qed.

(** X14.  A call of [on_write] that does not take the early return runs
    [render_target_descriptor::on_write(write_tag)] on the surface of every
    bound colour or depth slot the address selects (all of them for
    address 0): afterwards the surface is clean, has no old contents,
    passes [test] against the memory it was tagged from, reads with its
    write antialiasing mode, and carries the store's write tag as its use
    tag when that tag is not 0. *)
Theorem on_write_cleans_bound (mem : guest_memory) (address : Z) (s : surface_store)
  (slot : Z * option handle) (surf : handle) (d : render_target_descriptor) :
  (address = 0 -> write_tag s <> cache_tag s) ->
  slot ∈ m_bound_render_targets s ++ [m_bound_depth_stencil s] ->
  slot.2 = Some surf ->
  address = 0 \/ slot.1 = address ->
  heap s !! surf = Some d ->
  let s' := on_write mem address s in
  write_tag s' = (if address =? 0 then cache_tag s else write_tag s)
  /\ exists d', heap s' !! surf = Some d'
       /\ d' = desc_on_write mem (write_tag s') d
       /\ dirty d' = false /\ old_contents d' = None /\ test mem d' = true
       /\ read_aa_mode d' = write_aa_mode d
       /\ (write_tag s' <> 0 -> last_use_tag d' = write_tag s').
Proof.
  intros Hrun Hin H2 Ha Hd s'.
  destruct (on_write_runs mem address s Hrun) as (s0 & Hs' & Hh & Hb & Hz & Hw).
  fold s' in Hs'.
  assert (write_tag s' = write_tag s0) as Hw'.
  { rewrite Hs'. by destruct (on_write_propagate_tags mem address s0). }
  split; [congruence|].
  exists (desc_on_write mem (write_tag s') d).
  destruct (desc_on_write_clean mem (write_tag s') d) as (H1 & H3 & H4 & H5 & H6).
  repeat split; try done.
  rewrite Hs', on_write_propagate_heap, Hb, Hz, Hh.
  rewrite (writes_slot address surf slot _ _ Hin H2 Ha), Hd. simpl. congruence.
Qed.

(** X15.  A call of [on_write] that does not take the early return marks
    dirty every surface recorded in the overlapping set of a block of the
    memory tree that the address selects (all blocks for address 0),
    unless that surface is itself written as a bound surface; nothing else
    of the surface changes. *)
Theorem on_write_dirties_overlapped (mem : guest_memory) (address : Z) (s : surface_store)
  (e : surface_hierachy_info) (entry : memory_overlap_t) (d : render_target_descriptor) :
  (address = 0 -> write_tag s <> cache_tag s) ->
  let s' := on_write mem address s in
  e ∈ m_memory_tree s' ->
  address = 0 \/ memory_address e = address ->
  entry ∈ overlapping_set e ->
  (forall slot : Z * option handle,
     slot ∈ m_bound_render_targets s ++ [m_bound_depth_stencil s] ->
     slot.2 = Some (_ref entry) -> address <> 0 /\ slot.1 <> address) ->
  heap s !! _ref entry = Some d ->
  heap s' !! _ref entry = Some (set_dirty true d).
Proof.
  intros Hrun s' He Ha Hentry Hno Hd.
  destruct (on_write_runs mem address s Hrun) as (s0 & Hs' & Hh & Hb & Hz & Hw).
  fold s' in Hs'. rewrite Hs' in He |- *.
  rewrite on_write_propagate_heap, Hb, Hz, Hh.
  rewrite (writes_no_slot address (_ref entry) _ _ Hno).
  by rewrite (marks_entry address e entry _ He Ha Hentry), Hd.
Qed.

(** X16.  [on_write] changes neither map, the pool, the bound slots,
    [cache_tag] or the shared tag, calls no backend hook, and creates or
    frees no surface object.  A surface keeps its shape, pitches, depth
    flag, write antialiasing mode, tile and the addresses of its samples;
    and a surface that is neither written as a bound surface nor recorded
    in a selected block of the memory tree is not changed at all. *)
Theorem on_write_leaves_others (mem : guest_memory) (address : Z) (s : surface_store) :
  let s' := on_write mem address s in
  store_frame s' = store_frame s
  /\ (forall h d, heap s !! h = Some d ->
        exists d', heap s' !! h = Some d'
          /\ get_surface_width d' = get_surface_width d
          /\ get_surface_height d' = get_surface_height d
          /\ get_rsx_pitch d' = get_rsx_pitch d
          /\ get_native_pitch d' = get_native_pitch d
          /\ is_depth_surface d' = is_depth_surface d
          /\ write_aa_mode d' = write_aa_mode d /\ tile d' = tile d
          /\ (memory_tag_samples d').*1 = (memory_tag_samples d).*1)
  /\ (forall h, heap s !! h = None -> heap s' !! h = None)
  /\ (forall h,
        (forall slot : Z * option handle,
           slot ∈ m_bound_render_targets s ++ [m_bound_depth_stencil s] ->
           slot.2 = Some h -> address <> 0 /\ slot.1 <> address) ->
        (forall e entry, e ∈ m_memory_tree s' -> entry ∈ overlapping_set e ->
           _ref entry = h -> address <> 0 /\ memory_address e <> address) ->
        heap s' !! h = heap s !! h).
Proof.
  intros s'.
  assert (store_frame s' = store_frame s) as Hframe.
  { unfold s', on_write. destruct (address =? 0).
    - destruct (write_tag s =? cache_tag s); [done|].
      by rewrite on_write_propagate_frame.
    - apply on_write_propagate_frame. }
  split; [done|].
  destruct (on_write_cases mem address s) as [Hsame|(s0 & Hs' & Hh & Hb & Hz & Hw)];
    fold s' in Hsame || fold s' in Hs'.
  { rewrite Hsame. split; [|by split]. intros h d Hd. exists d. by repeat split. }
  assert (forall h, heap s' !! h = heap s !! h
            \/ heap s' !! h = set_dirty true <$> heap s !! h
            \/ heap s' !! h = desc_on_write mem (write_tag s0) <$> heap s !! h) as Hcases.
  { intros h. rewrite Hs', on_write_propagate_heap, Hh.
    destruct (_ || _); [by right; right|]. destruct (existsb _ _); [by right; left|by left]. }
  split; [|split].
  - intros h d Hd. destruct (Hcases h) as [Hc|[Hc|Hc]]; rewrite Hd in Hc; simpl in Hc.
    + exists d. by repeat split.
    + eexists. split; [exact Hc|]. by repeat split.
    + eexists. split; [exact Hc|]. unfold desc_on_write, sync_tag.
      destruct (write_tag s0 =? 0); simpl; repeat split; try done;
        apply sync_samples_addresses.
  - intros h Hn. by destruct (Hcases h) as [Hc|[Hc|Hc]]; rewrite Hn in Hc.
  - intros h Hno_slot Hno_entry. rewrite Hs' in Hno_entry |- *.
    rewrite on_write_propagate_heap, Hb, Hz, Hh.
    rewrite (writes_no_slot address h _ _ Hno_slot).
    by rewrite (marks_no_entry address h _ Hno_entry).
Qed.

Lemma on_write_propagate_tree mem address s :
  let s' := on_write_propagate mem address s in
  memory_tag s' = (if memory_tag s =? cache_tag s then memory_tag s else cache_tag s)
  /\ m_memory_tree s'
     = (if memory_tag s =? cache_tag s then m_memory_tree s
        else m_memory_tree (generate_render_target_memory_tree s)).
Proof.
  intros s'. unfold s', on_write_propagate.
  remember (if negb (memory_tag s =? cache_tag s)
            then set_memory_tag (cache_tag (generate_render_target_memory_tree s))
                   (generate_render_target_memory_tree s)
            else s) as s1 eqn:E1.
  assert ((memory_tag s1, m_memory_tree s1)
          = (if memory_tag s =? cache_tag s then memory_tag s else cache_tag s,
             if memory_tag s =? cache_tag s then m_memory_tree s
             else m_memory_tree (generate_render_target_memory_tree s))) as H1.
  { subst s1. by destruct (memory_tag s =? cache_tag s). }
  clear E1.
  assert (forall s0 e,
            (memory_tag (mark_overlapping_dirty address s0 e),
             m_memory_tree (mark_overlapping_dirty address s0 e))
            = (memory_tag s0, m_memory_tree s0)) as Hmark.
  { intros s0 e. unfold mark_overlapping_dirty. destruct (_ && _); [done|].
    by apply (foldl_keeps (fun s => (memory_tag s, m_memory_tree s))). }
  assert (forall s0 slot,
            (memory_tag (write_bound_render_target mem address s0 slot),
             m_memory_tree (write_bound_render_target mem address s0 slot))
            = (memory_tag s0, m_memory_tree s0)) as Hwrite.
  { intros s0 slot. unfold write_bound_render_target. destruct (_ && _); [done|].
    by destruct slot.2. }
  pose proof (foldl_keeps (fun s => (memory_tag s, m_memory_tree s)) _ Hmark
                (m_memory_tree s1) s1) as H2.
  remember (foldl (mark_overlapping_dirty address) s1 (m_memory_tree s1)) as s2 eqn:E2.
  clear E2.
  pose proof (foldl_keeps (fun s => (memory_tag s, m_memory_tree s)) _ Hwrite
                (m_bound_render_targets s2) s2) as H3.
  remember (foldl (write_bound_render_target mem address) s2 (m_bound_render_targets s2))
    as s3 eqn:E3.
  clear E3. simpl in H2, H3.
  assert ((memory_tag
             (match (m_bound_depth_stencil s3).2 with
              | Some ds =>
                  if (address =? 0) || ((m_bound_depth_stencil s3).1 =? address)
                  then set_heap (alter (desc_on_write mem (write_tag s3)) ds (heap s3)) s3
                  else s3
              | None => s3
              end),
           m_memory_tree
             (match (m_bound_depth_stencil s3).2 with
              | Some ds =>
                  if (address =? 0) || ((m_bound_depth_stencil s3).1 =? address)
                  then set_heap (alter (desc_on_write mem (write_tag s3)) ds (heap s3)) s3
                  else s3
              | None => s3
              end)) = (memory_tag s3, m_memory_tree s3)) as H4.
  { destruct (m_bound_depth_stencil s3).2; [|done]. by destruct (_ || _). }
  rewrite H3, H2, H1 in H4. by injection H4 as -> ->.
Qed.

(** X24.  [on_write] never takes a block out of the memory tree.  A call
    that does not take the early return leaves [memory_tag] equal to
    [cache_tag]; if the two were equal it keeps the tree, and otherwise it
    appends, behind the blocks that are there, one block for each bound
    slot with a nonzero address whose surface has overlaps, the colour
    slots in order and then the depth slot, whether or not an equal block
    is already in the tree. *)
Theorem on_write_appends_to_tree (mem : guest_memory) (address : Z) (s : surface_store) :
  (address = 0 -> write_tag s <> cache_tag s) ->
  let s' := on_write mem address s in
  memory_tag s' = cache_tag s' /\ cache_tag s' = cache_tag s
  /\ m_memory_tree s'
     = (if memory_tag s =? cache_tag s then m_memory_tree s
        else m_memory_tree s ++ omap (bound_block s) (m_bound_render_targets s)
             ++ option_list (bound_block s (m_bound_depth_stencil s))).
Proof.
  intros Hrun s'.
  assert (exists s0, s' = on_write_propagate mem address s0
            /\ memory_tag s0 = memory_tag s /\ cache_tag s0 = cache_tag s
            /\ m_memory_tree s0 = m_memory_tree s
            /\ m_memory_tree (generate_render_target_memory_tree s0)
               = m_memory_tree s ++ omap (bound_block s) (m_bound_render_targets s)
                 ++ option_list (bound_block s (m_bound_depth_stencil s)))
    as (s0 & -> & Hm & Hc & Ht & Hg).
  { unfold s', on_write. destruct (address =? 0) eqn:Ea.
    - apply Z.eqb_eq in Ea. apply Hrun, Z.eqb_neq in Ea. rewrite Ea. by eexists.
    - by eexists. }
  destruct (on_write_propagate_tree mem address s0) as [Hm' Ht'].
  destruct (on_write_propagate_tags mem address s0) as [_ Hc'].
  rewrite Hm', Ht', Hc', Hm, Hc, Ht, Hg.
  destruct (memory_tag s =? cache_tag s) eqn:E; [|done].
  by apply Z.eqb_eq in E.
Qed.

End Writes.

Lemma on_write_cleans_bound_witness :
  let d := sample_surface false 33554432 1024 1024 4096 None in
  let s' := on_write (T := sample_backend) zero_memory 0 s6_store in
  write_tag s' = (if 0 =? 0 then cache_tag s6_store else write_tag s6_store)
  /\ exists d', heap s' !! 2%nat = Some d'
       /\ d' = desc_on_write zero_memory (write_tag s') d
       /\ dirty d' = false /\ old_contents d' = None /\ test zero_memory d' = true
       /\ read_aa_mode d' = write_aa_mode d
       /\ (write_tag s' <> 0 -> last_use_tag d' = write_tag s').
Proof.
  apply (on_write_cleans_bound (T := sample_backend) zero_memory 0 s6_store
           (33554432, Some 2%nat) 2%nat).
  - intros _ H. vm_compute in H. discriminate H.
  - vm_compute. apply list_elem_of_here.
  - reflexivity.
  - left. reflexivity.
  - vm_compute. reflexivity.
Defined.

Lemma on_write_dirties_overlapped_witness :
  heap (on_write (T := sample_backend) zero_memory 0 s6_store) !! 1%nat
  = Some (set_dirty true (sample_surface false 33570848 16 16 64 None)).
Proof.
  apply (on_write_dirties_overlapped (T := sample_backend) zero_memory 0 s6_store
           (mk_surface_hierachy_info 33554432 4194304 (Some 2%nat)
              [mk_memory_overlap 1%nat 33570848 8 4 16 16])
           (mk_memory_overlap 1%nat 33570848 8 4 16 16)).
  - intros _ H. vm_compute in H. discriminate H.
  - vm_compute. apply list_elem_of_here.
  - left. reflexivity.
  - apply list_elem_of_here.
  - intros slot Hin Hs. exfalso. vm_compute in Hin.
    repeat (apply elem_of_cons in Hin as [->|Hin]; [discriminate Hs|]).
    by apply elem_of_nil in Hin.
  - vm_compute. reflexivity.
Defined.

(** ** What the memory tree holds *)

Section TreeContents.
Context {T : Traits}.

Lemma process_entry_fits hp info MA A surf d2 :
  0 <= rsx_pitch info ->
  0 <= bpp (get_surface_info d2) -> 0 <= surface_width (get_surface_info d2) ->
  0 <= surface_height (get_surface_info d2) ->
  0 <= MA -> hp !! surf = Some d2 ->
  MA + rsx_pitch info * surface_height info < 2 ^ 32 ->
  MA < A < MA + rsx_pitch info * surface_height info ->
  (A - MA) mod rsx_pitch info
  + bpp (get_surface_info d2) * surface_width (get_surface_info d2) <= rsx_pitch info ->
  ((A - MA) / rsx_pitch info + surface_height (get_surface_info d2)) * rsx_pitch info
  <= rsx_pitch info * surface_height info ->
  process_entry hp info MA (u32 (MA + u32 (rsx_pitch info * surface_height info))) A surf
  = Some (mk_memory_overlap surf A ((A - MA) mod rsx_pitch info / bpp info)
            ((A - MA) / rsx_pitch info) (surface_width (get_surface_info d2))
            (surface_height (get_surface_info d2))).
Proof.
  intros Hp Hb2 Hw2 Hh2 HMA Hd Hno Hin Hfw Hfh.
  remember (rsx_pitch info) as p eqn:Ep. remember (surface_height info) as H eqn:EH.
  remember (surface_width (get_surface_info d2)) as w2 eqn:Ew2.
  remember (surface_height (get_surface_info d2)) as h2 eqn:Eh2.
  remember (bpp (get_surface_info d2)) as b2 eqn:Eb2.
  assert (0 < p * H) as HpH by lia.
  assert (0 < p) as Hp0.
  { destruct (Z.eq_dec p 0) as [Hz|Hz]; [|lia]. rewrite Hz in HpH. lia. }
  assert (0 < H) as HH0 by (by apply (Z.mul_pos_cancel_l p H Hp0)).
  assert (p <= p * H) as Hple by nia.
  pose proof (Z.mod_pos_bound (A - MA) p Hp0) as Hm.
  assert (0 <= (A - MA) / p) as Hq by (apply Z.div_pos; lia).
  assert (0 <= b2 * w2) as Hbw by nia.
  assert (0 <= ((A - MA) / p + h2) * p) as Hprod by nia.
  assert ((A - MA) / p + h2 <= ((A - MA) / p + h2) * p) as Hrows by nia.
  assert (u32 (p * H) = p * H) as E1 by (apply u32_small; lia).
  assert (u32 (MA + p * H) = MA + p * H) as E2 by (apply u32_small; lia).
  assert (u32 (A - MA) = A - MA) as E3 by (apply u32_small; lia).
  assert (u32 (b2 * w2) = b2 * w2) as E4 by (apply u32_small; lia).
  assert (u32 ((A - MA) mod p + b2 * w2) = (A - MA) mod p + b2 * w2) as E5
    by (apply u32_small; lia).
  assert (u32 ((A - MA) / p + h2) = (A - MA) / p + h2) as E6 by (apply u32_small; lia).
  assert (u32 (((A - MA) / p + h2) * p) = ((A - MA) / p + h2) * p) as E7
    by (apply u32_small; lia).
  assert (u32 (MA + p * H - MA) = p * H) as E8.
  { replace (MA + p * H - MA) with (p * H) by lia. exact E1. }
  unfold process_entry. rewrite Hd. cbv zeta.
  rewrite <- ?Ep, <- ?EH, <- ?Ew2, <- ?Eh2, <- ?Eb2.
  rewrite ?E1, ?E2, ?E3, ?E4, ?E5, ?E6, ?E7, ?E8.
  destruct (A <=? MA) eqn:C1; [apply Z.leb_le in C1; lia|].
  destruct (MA + p * H <=? A) eqn:C2; [apply Z.leb_le in C2; lia|].
  destruct (_ <=? p) eqn:C3; [|apply Z.leb_gt in C3; lia].
  destruct (_ <=? p * H) eqn:C4; [|apply Z.leb_gt in C4; lia].
  done.
Qed.

Lemma bound_block_in_tree s (slot : Z * option handle) b :
  slot ∈ m_bound_render_targets s ++ [m_bound_depth_stencil s] ->
  bound_block s slot = Some b ->
  b ∈ m_memory_tree (generate_render_target_memory_tree s).
Proof.
  intros Hin Hb. unfold generate_render_target_memory_tree. simpl.
  apply elem_of_app. right. apply elem_of_app.
  apply elem_of_app in Hin as [Hin|Hin].
  - left. apply list_elem_of_omap. by exists slot.
  - right. apply list_elem_of_singleton in Hin as ->. rewrite Hb. apply list_elem_of_here.
Qed.

Lemma new_block_origin s b :
  b ∈ m_memory_tree (generate_render_target_memory_tree s) ->
  b ∈ m_memory_tree s
  \/ exists slot, slot ∈ m_bound_render_targets s ++ [m_bound_depth_stencil s]
        /\ bound_block s slot = Some b.
Proof.
  unfold generate_render_target_memory_tree. simpl. intros Hin.
  apply elem_of_app in Hin as [Hin|Hin]; [by left|]. right.
  apply elem_of_app in Hin as [Hin|Hin].
  - apply list_elem_of_omap in Hin as (slot & Hs & Hb). exists slot.
    split; [|done]. apply elem_of_app. by left.
  - exists (m_bound_depth_stencil s). split.
    + apply elem_of_app. right. apply list_elem_of_here.
    + destruct (bound_block s (m_bound_depth_stencil s)); simpl in Hin.
      * by apply list_elem_of_singleton in Hin as ->.
      * by apply elem_of_nil in Hin.
Qed.

(** X17.  [generate_render_target_memory_tree] misses no overlap.  Take a
    bound slot with a nonzero address whose surface reports a nonzero bpp
    and whose footprint, rsx_pitch * height bytes from the address, does
    not pass 2^32, and a stored surface (sizes are unsigned) that starts
    strictly inside the footprint, ends its rows within a row of the bound
    surface and ends within the footprint, in exact arithmetic.  Then the
    stored surface has its record, with its x and y offsets in the bound
    surface, in a block made for that slot. *)
Theorem memory_tree_records_contained (s : surface_store) (slot : Z * option handle)
  (surf surf2 : handle) (d d2 : render_target_descriptor) (B : Z) :
  slot ∈ m_bound_render_targets s ++ [m_bound_depth_stencil s] ->
  0 < slot.1 -> slot.2 = Some surf ->
  heap s !! surf = Some d ->
  m_render_targets_storage s !! B = Some surf2
  \/ m_depth_stencil_storage s !! B = Some surf2 ->
  heap s !! surf2 = Some d2 ->
  let info := get_surface_info d in
  let info2 := get_surface_info d2 in
  0 <= rsx_pitch info -> 0 < bpp info ->
  0 <= bpp info2 -> 0 <= surface_width info2 -> 0 <= surface_height info2 ->
  slot.1 + rsx_pitch info * surface_height info < 2 ^ 32 ->
  slot.1 < B < slot.1 + rsx_pitch info * surface_height info ->
  (B - slot.1) mod rsx_pitch info + bpp info2 * surface_width info2 <= rsx_pitch info ->
  ((B - slot.1) / rsx_pitch info + surface_height info2) * rsx_pitch info
  <= rsx_pitch info * surface_height info ->
  exists b, b ∈ m_memory_tree (generate_render_target_memory_tree s)
    /\ memory_address b = slot.1 /\ memory_contents b = Some surf
    /\ memory_range b = rsx_pitch info * surface_height info
    /\ mk_memory_overlap surf2 B ((B - slot.1) mod rsx_pitch info / bpp info)
         ((B - slot.1) / rsx_pitch info) (surface_width info2) (surface_height info2)
       ∈ overlapping_set b.
Proof.
  intros Hin Hnz Hsurf Hd Hstored Hd2 info info2 Hp Hbpp Hb2 Hw2 Hh2 Hno Hinside Hfw Hfh.
  destruct slot as [A o]. simpl in *. subst o.
  pose proof (process_entry_fits (heap s) info A B surf2 d2 Hp Hb2 Hw2 Hh2 ltac:(lia) Hd2
                Hno Hinside Hfw Hfh) as Hentry.
  remember (mk_memory_overlap surf2 B ((B - A) mod rsx_pitch info / bpp info)
              ((B - A) / rsx_pitch info) (surface_width info2) (surface_height info2))
    as r eqn:Er.
  remember (u32 (A + u32 (rsx_pitch info * surface_height info))) as mend eqn:Em.
  remember (omap (fun e : Z * handle => process_entry (heap s) info A mend e.1 e.2)
              (map_to_list (m_render_targets_storage s))
            ++ omap (fun e : Z * handle => process_entry (heap s) info A mend e.1 e.2)
                 (map_to_list (m_depth_stencil_storage s))) as ov eqn:Eov.
  assert (r ∈ ov) as Hr.
  { subst ov. apply elem_of_app.
    destruct Hstored as [Hc|Hz]; [left|right]; apply list_elem_of_omap;
      exists (B, surf2); (split; [by apply elem_of_map_to_list|by rewrite Er]). }
  assert (process_block s A surf
          = Some (mk_surface_hierachy_info A (u32 (mend - A)) (Some surf) ov)) as Hblock.
  { unfold process_block. rewrite Hd. fold info. cbv zeta. rewrite <- Em, <- Eov.
    destruct ov; [by apply elem_of_nil in Hr|done]. }
  exists (mk_surface_hierachy_info A (u32 (mend - A)) (Some surf) ov).
  split; [|simpl; repeat split; try done].
  - apply (bound_block_in_tree s (A, Some surf)); [done|].
    unfold bound_block. simpl.
    assert ((A =? 0) = false) as -> by (apply Z.eqb_neq; lia). done.
  - subst mend. rewrite (u32_small (rsx_pitch info * surface_height info)) by lia.
    rewrite (u32_small (A + _)) by lia.
    replace (A + rsx_pitch info * surface_height info - A)
      with (rsx_pitch info * surface_height info) by lia.
    apply u32_small. lia.
Qed.

(** X18.  Every block [generate_render_target_memory_tree] appends belongs
    to a bound colour or depth slot with a nonzero address and a surface,
    has a nonempty overlapping set, and records only surfaces stored in one
    of the two maps at the recorded address, which is never the block's
    own, with the width and height the backend reports for them; a surface
    that is only in the invalidated pool is never recorded. *)
Theorem memory_tree_blocks_origin (s : surface_store) (b : surface_hierachy_info) :
  b ∈ m_memory_tree (generate_render_target_memory_tree s) ->
  b ∈ m_memory_tree s
  \/ exists surf d,
       (memory_address b, Some surf) ∈ m_bound_render_targets s ++ [m_bound_depth_stencil s]
       /\ memory_address b <> 0 /\ memory_contents b = Some surf
       /\ heap s !! surf = Some d /\ overlapping_set b <> []
       /\ forall r, r ∈ overlapping_set b ->
            ov_memory_address r <> memory_address b
            /\ (m_render_targets_storage s !! ov_memory_address r = Some (_ref r)
                \/ m_depth_stencil_storage s !! ov_memory_address r = Some (_ref r))
            /\ exists d2, heap s !! _ref r = Some d2
                 /\ ov_w r = surface_width (get_surface_info d2)
                 /\ ov_h r = surface_height (get_surface_info d2).
Proof.
  intros Hin. apply new_block_origin in Hin as [Hold|([A o] & Hslot & Hb)]; [by left|].
  right. unfold bound_block in Hb. simpl in Hb.
  destruct (A =? 0) eqn:EA; [done|]. apply Z.eqb_neq in EA.
  destruct o as [surf|]; [|done]. unfold process_block in Hb.
  destruct (heap s !! surf) as [d|] eqn:Hd; [|done]. cbv zeta in Hb.
  remember (u32 (A + u32 (rsx_pitch (get_surface_info d)
                          * surface_height (get_surface_info d)))) as mend eqn:Em.
  remember (omap (fun e : Z * handle =>
                    process_entry (heap s) (get_surface_info d) A mend e.1 e.2)
              (map_to_list (m_render_targets_storage s))
            ++ omap (fun e : Z * handle =>
                       process_entry (heap s) (get_surface_info d) A mend e.1 e.2)
                 (map_to_list (m_depth_stencil_storage s))) as ov eqn:Eov.
  assert (ov <> [] /\ b = mk_surface_hierachy_info A (u32 (mend - A)) (Some surf) ov)
    as [Hne ->].
  { destruct ov; [done|]. split; [done|]. by injection Hb. }
  exists surf, d. simpl. repeat split; try done.
  all: assert (exists B surf2,
                 (m_render_targets_storage s !! B = Some surf2
                  \/ m_depth_stencil_storage s !! B = Some surf2)
                 /\ process_entry (heap s) (get_surface_info d) A mend B surf2 = Some r)
         as (B & surf2 & Hstored & Hentry)
       by (subst ov; apply elem_of_app in H as [H|H];
           apply list_elem_of_omap in H as ([B surf2] & Hm & He);
           apply elem_of_map_to_list in Hm; exists B, surf2; auto).
  all: unfold process_entry in Hentry;
    destruct (B <=? A) eqn:C1; [done|]; apply Z.leb_gt in C1;
    destruct (mend <=? B); [done|];
    destruct (heap s !! surf2) as [d2|] eqn:Hd2; [|done];
    destruct (_ && _) in Hentry; [|done]; injection Hentry as <-; simpl.
  - lia.
  - done.
  - by exists d2.
Qed.

End TreeContents.

Lemma memory_tree_records_contained_witness :
  exists b,
    b ∈ m_memory_tree (generate_render_target_memory_tree (T := sample_backend) s6_store)
    /\ memory_address b = 33554432 /\ memory_contents b = Some 2%nat
    /\ memory_range b = 4194304
    /\ mk_memory_overlap 1%nat 33570848 8 4 16 16 ∈ overlapping_set b.
Proof.
  apply (memory_tree_records_contained (T := sample_backend) s6_store
           (33554432, Some 2%nat) 2%nat 1%nat
           (sample_surface false 33554432 1024 1024 4096 None)
           (sample_surface false 33570848 16 16 64 None) 33570848).
  - vm_compute. apply list_elem_of_here.
  - reflexivity.
  - reflexivity.
  - vm_compute. reflexivity.
  - left. vm_compute. reflexivity.
  - vm_compute. reflexivity.
  - vm_compute. discriminate.
  - vm_compute. reflexivity.
  - vm_compute. discriminate.
  - vm_compute. discriminate.
  - vm_compute. discriminate.
  - vm_compute. reflexivity.
  - vm_compute. split; reflexivity.
  - vm_compute. discriminate.
  - vm_compute. discriminate.
Defined.

Lemma memory_tree_blocks_origin_witness :
  let b := mk_surface_hierachy_info 33554432 4194304 (Some 2%nat)
             [mk_memory_overlap 1%nat 33570848 8 4 16 16] in
  b ∈ m_memory_tree s6_store
  \/ exists surf d,
       (memory_address b, Some surf)
       ∈ m_bound_render_targets s6_store ++ [m_bound_depth_stencil s6_store]
       /\ memory_address b <> 0 /\ memory_contents b = Some surf
       /\ heap s6_store !! surf = Some d /\ overlapping_set b <> []
       /\ forall r, r ∈ overlapping_set b ->
            ov_memory_address r <> memory_address b
            /\ (m_render_targets_storage s6_store !! ov_memory_address r = Some (_ref r)
                \/ m_depth_stencil_storage s6_store !! ov_memory_address r = Some (_ref r))
            /\ exists d2, heap s6_store !! _ref r = Some d2
                 /\ ov_w r = surface_width (get_surface_info (Traits := sample_backend) d2)
                 /\ ov_h r = surface_height (get_surface_info (Traits := sample_backend) d2).
Proof.
  apply (memory_tree_blocks_origin (T := sample_backend) s6_store).
  vm_compute. apply list_elem_of_here.
Defined.

(** ** What a texture query prunes *)

Section Queries.
Context {T : Traits}.

Lemma process_candidate_stale mem hp texaddr rw rh rp limit depth e surf :
  process_candidate mem hp texaddr rw rh rp limit depth e = stale surf ->
  exists d, hp !! e.2 = Some d /\ test mem d = false.
Proof.
  unfold process_candidate. intros H.
  destruct (limit <=? e.1); [done|].
  destruct (hp !! e.2) as [d|]; [|done].
  destruct (negb (pitch_compatible d rp rh)); [done|].
  destruct (_ <=? texaddr); [done|].
  destruct (test mem d) eqn:Ht; [done|]. by exists d.
Qed.

Lemma scan_dirty_origin mem hp texaddr rw rh rp limit depth (l : list (Z * handle)) acc p :
  p ∈ scan_dirty (foldl (scan_step mem hp texaddr rw rh rp limit depth) acc l) ->
  p ∈ scan_dirty acc
  \/ exists e surf, e ∈ l /\ p = (e.1, depth)
       /\ process_candidate mem hp texaddr rw rh rp limit depth e = stale surf.
Proof.
  revert acc. induction l as [|e l IH]; intros acc Hp; [by left|].
  simpl in Hp. apply IH in Hp as [Hp|(e' & surf & Hin & Heq & He)].
  - unfold scan_step in Hp.
    destruct (process_candidate _ _ _ _ _ _ _ _ e) as [|surf|surf info] eqn:Hc;
      simpl in Hp; [by left| |by left].
    apply elem_of_app in Hp as [Hp|Hp]; [by left|].
    apply list_elem_of_singleton in Hp as ->. right. exists e, surf.
    split; [apply list_elem_of_here|done].
  - right. exists e', surf. split; [by apply list_elem_of_further|done].
Qed.

(** The map a depth flag selects. *)
Lemma invalidate_surface_address_other addr dp (depth : bool) A s :
  (addr, dp) <> (A, depth) ->
  (if depth then m_depth_stencil_storage (invalidate_surface_address addr dp s)
   else m_render_targets_storage (invalidate_surface_address addr dp s)) !! A
  = (if depth then m_depth_stencil_storage s else m_render_targets_storage s) !! A.
Proof.
  intros Hne. unfold invalidate_surface_address.
  destruct (address_is_bound addr s); [done|].
  destruct dp; simpl.
  - destruct (m_depth_stencil_storage s !! addr); [|done]. destruct depth; simpl; [|done].
    apply lookup_delete_ne. congruence.
  - destruct (m_render_targets_storage s !! addr); [|done]. destruct depth; simpl; [done|].
    apply lookup_delete_ne. congruence.
Qed.

Lemma invalidate_surface_address_shrinks addr dp (depth : bool) A h s :
  (if depth then m_depth_stencil_storage (invalidate_surface_address addr dp s)
   else m_render_targets_storage (invalidate_surface_address addr dp s)) !! A = Some h ->
  (if depth then m_depth_stencil_storage s else m_render_targets_storage s) !! A = Some h.
Proof.
  destruct (decide ((addr, dp) = (A, depth))) as [[= -> ->]|Hne].
  - unfold invalidate_surface_address.
    destruct (address_is_bound A s); [done|].
    destruct depth; simpl.
    + destruct (m_depth_stencil_storage s !! A) eqn:E; [|congruence]. simpl.
      by rewrite lookup_delete_eq.
    + destruct (m_render_targets_storage s !! A) eqn:E; [|congruence]. simpl.
      by rewrite lookup_delete_eq.
  - by rewrite invalidate_surface_address_other.
Qed.

(** The dirty list of the query holds only addresses whose stored surface
    failed [test]. *)
Lemma query_dirty_stale mem texaddr rw rh rp s :
  let limit := u32 (texaddr + u32 (rp * rh)) in
  let acc1 :=
    if overlaps (start_end texaddr (u32 (limit - 1))) (m_render_targets_memory_range s)
    then process_list_function mem (heap s) texaddr rw rh rp limit
           (m_render_targets_storage s) false (mk_scan [] [] [])
    else mk_scan [] [] [] in
  let acc2 :=
    if overlaps (start_end texaddr (u32 (limit - 1))) (m_depth_stencil_memory_range s)
    then process_list_function mem (heap s) texaddr rw rh rp limit
           (m_depth_stencil_storage s) true acc1
    else acc1 in
  forall p : Z * bool, p ∈ scan_dirty acc2 ->
    exists h d,
      (if p.2 then m_depth_stencil_storage s else m_render_targets_storage s) !! p.1 = Some h
      /\ heap s !! h = Some d /\ test mem d = false.
Proof.
  intros limit acc1 acc2.
  assert (forall depth (data : gmap Z handle) e surf,
            e ∈ map_to_list data ->
            process_candidate mem (heap s) texaddr rw rh rp limit depth e = stale surf ->
            exists h d, data !! e.1 = Some h /\ heap s !! h = Some d /\ test mem d = false)
    as Hstale.
  { intros depth data [A h] surf Hin Hc. apply elem_of_map_to_list in Hin.
    apply process_candidate_stale in Hc as (d & Hd & Ht). by exists h, d. }
  assert (forall p : Z * bool, p ∈ scan_dirty acc1 ->
            exists h d, (if p.2 then m_depth_stencil_storage s
                         else m_render_targets_storage s) !! p.1 = Some h
                        /\ heap s !! h = Some d /\ test mem d = false) as H1.
  { intros p Hp. unfold acc1 in Hp. destruct (overlaps _ _) in Hp.
    - unfold process_list_function in Hp.
      apply scan_dirty_origin in Hp as [Hp|(e & surf & Hin & -> & Hc)];
        [by apply elem_of_nil in Hp|].
      exact (Hstale false _ e surf Hin Hc).
    - by apply elem_of_nil in Hp. }
  intros p Hp. unfold acc2 in Hp. destruct (overlaps _ (m_depth_stencil_memory_range s)).
  - unfold process_list_function in Hp.
    apply scan_dirty_origin in Hp as [Hp|(e & surf & Hin & -> & Hc)]; [by apply H1|].
    exact (Hstale true _ e surf Hin Hc).
  - by apply H1.
Qed.

(** X19.  The pruning pass of [get_merged_texture_memory_region] erases only
    surfaces that failed [test]: a stored surface that passes [test]
    against the memory of the query is at its address in its map after the
    query, in particular the surface of every returned record; and the
    query enters nothing in either map. *)
Theorem query_prunes_only_stale (mem : guest_memory)
  (texaddr required_width required_height required_pitch : Z) (s : surface_store) :
  let r := get_merged_texture_memory_region mem texaddr required_width required_height
             required_pitch s in
  (forall (depth : bool) A h d,
     (if depth then m_depth_stencil_storage s else m_render_targets_storage s) !! A = Some h ->
     heap s !! h = Some d -> test mem d = true ->
     (if depth then m_depth_stencil_storage r.2 else m_render_targets_storage r.2) !! A
     = Some h)
  /\ (forall info, info ∈ r.1 ->
        (if is_depth info then m_depth_stencil_storage r.2
         else m_render_targets_storage r.2) !! base_address info = Some (surface info))
  /\ (forall (depth : bool) A h,
        (if depth then m_depth_stencil_storage r.2 else m_render_targets_storage r.2) !! A
        = Some h ->
        (if depth then m_depth_stencil_storage s else m_render_targets_storage s) !! A
        = Some h).
Proof.
  intros r.
  assert (forall (depth : bool) A h d,
     (if depth then m_depth_stencil_storage s else m_render_targets_storage s) !! A = Some h ->
     heap s !! h = Some d -> test mem d = true ->
     (if depth then m_depth_stencil_storage r.2 else m_render_targets_storage r.2) !! A
     = Some h) as Hfresh.
  { intros depth A h d Hl Hd Ht. unfold r, get_merged_texture_memory_region. cbn [snd].
    pose proof (query_dirty_stale mem texaddr required_width required_height
                  required_pitch s) as Hdirty. cbv zeta in Hdirty.
    remember (scan_dirty _) as dl eqn:Edl in Hdirty |- *. clear Edl.
    remember (foldl (fun s e => call e s) s _) as s1 eqn:E1.
    assert ((if depth then m_depth_stencil_storage s1 else m_render_targets_storage s1) !! A
            = Some h) as Hl1.
    { subst s1. destruct depth.
      - by rewrite (foldl_keeps m_depth_stencil_storage).
      - by rewrite (foldl_keeps m_render_targets_storage). }
    clear E1.
    assert ((A, depth) ∉ dl) as Hnot.
    { intros Hin. apply Hdirty in Hin as (h' & d' & Hl' & Hd' & Ht'). simpl in Hl'.
      congruence. }
    clear Hdirty. revert s1 Hl1. induction dl as [|[addr dp] dl IH]; intros s1 Hl1; [done|].
    cbn [foldl fst snd]. apply IH.
    - intros Hin. apply Hnot. by apply list_elem_of_further.
    - rewrite invalidate_surface_address_other; [done|].
      intros Heq. apply Hnot. rewrite Heq. apply list_elem_of_here. }
  split; [exact Hfresh|]. split.
  - intros info Hin. apply query_result_origin in Hin as (d & Hl & Hd & Ht & _).
    by apply (Hfresh (is_depth info) _ _ d).
  - intros depth A h. unfold r, get_merged_texture_memory_region. cbn [snd].
    remember (scan_dirty _) as dl eqn:Edl. clear Edl.
    remember (foldl (fun s e => call e s) s _) as s1 eqn:E1.
    assert (forall h, (if depth then m_depth_stencil_storage s1
                       else m_render_targets_storage s1) !! A = Some h ->
                      (if depth then m_depth_stencil_storage s
                       else m_render_targets_storage s) !! A = Some h) as Hl1.
    { subst s1. intros h'. destruct depth.
      - by rewrite (foldl_keeps m_depth_stencil_storage).
      - by rewrite (foldl_keeps m_render_targets_storage). }
    clear E1. revert s1 Hl1 h. induction dl as [|[addr dp] dl IH]; intros s1 Hl1 h; [auto|].
    cbn [foldl fst snd]. apply IH. intros h' Hh'. apply Hl1.
    by apply (invalidate_surface_address_shrinks addr dp).
Qed.

(** X21.  A surface that starts before the texture address and passes the
    filters of the query is projected from its own interior: with
    offset = texaddr - address, and no operand out of range, src_y =
    (offset / pitch) / scale_y, src_x = ((offset mod pitch) / bpp) /
    scale_x, dst_x = dst_y = 0, width = min(RW / scale_x, surface_width -
    src_x), height = min(RH / scale_y, surface_height - src_y), is_clipped
    exactly when one of the two is below RW / scale_x or RH / scale_y; the
    source rectangle lies inside the surface. *)
Theorem overlap_projection_before_texaddr (mem : guest_memory)
  (hp : gmap handle render_target_descriptor)
  (texaddr required_width required_height required_pitch limit : Z) (depth : bool)
  (A : Z) (h surf : handle) (d : render_target_descriptor) (r : surface_overlap_info) :
  hp !! h = Some d ->
  process_candidate mem hp texaddr required_width required_height required_pitch limit
    depth (A, h) = overlapping surf r ->
  let info := get_surface_info d in
  let scale_x := if aa_gt (read_aa_mode d) center_1_sample then 2 else 1 in
  let scale_y := if aa_gt (read_aa_mode d) diagonal_centered_2_samples then 2 else 1 in
  let offset := texaddr - A in
  0 <= A < texaddr -> texaddr < 2 ^ 32 ->
  0 < required_pitch -> 0 < bpp info ->
  0 <= required_width < 2 ^ 16 -> 0 <= required_height < 2 ^ 16 ->
  0 <= surface_width info < 2 ^ 16 -> 0 <= surface_height info < 2 ^ 16 ->
  offset / required_pitch / scale_y <= surface_height info ->
  (offset mod required_pitch) / bpp info / scale_x <= surface_width info ->
  surf = h /\ base_address r = A /\ dst_x r = 0 /\ dst_y r = 0
  /\ src_y r = offset / required_pitch / scale_y
  /\ src_x r = (offset mod required_pitch) / bpp info / scale_x
  /\ width r = Z.min (required_width / scale_x) (surface_width info - src_x r)
  /\ height r = Z.min (required_height / scale_y) (surface_height info - src_y r)
  /\ (is_clipped r = true <->
      width r < required_width / scale_x \/ height r < required_height / scale_y)
  /\ src_x r + width r <= surface_width info
  /\ src_y r + height r <= surface_height info.
Proof.
  intros Hd Hc info scale_x scale_y offset HA HT Hrp Hbpp Hrw Hrh Hsw Hsh Hsy Hsx.
  apply process_candidate_overlapping in Hc as (d' & Hd' & _ & -> & ->).
  simpl in Hd'. rewrite Hd in Hd'. injection Hd' as <-.
  fold info scale_x scale_y. unfold project_overlap. cbn [fst snd].
  assert ((A <? texaddr) = true) as -> by (apply Z.ltb_lt; lia).
  assert (1 <= scale_x <= 2) as Hscx
    by (unfold scale_x; destruct (aa_gt (read_aa_mode d) center_1_sample); lia).
  assert (1 <= scale_y <= 2) as Hscy
    by (unfold scale_y; destruct (aa_gt (read_aa_mode d) diagonal_centered_2_samples); lia).
  assert (u32 (texaddr - A) = offset) as -> by (apply u32_small; unfold offset; lia).
  remember (offset / required_pitch / scale_y) as sy eqn:Esy.
  remember ((offset mod required_pitch) / bpp info / scale_x) as sx eqn:Esx.
  assert (0 <= sy) as Hsy0.
  { subst sy. apply Z.div_pos; [|lia]. apply Z.div_pos; unfold offset; lia. }
  assert (0 <= sx) as Hsx0.
  { subst sx. apply Z.div_pos; [|lia]. apply Z.div_pos; [|lia].
    apply Z.mod_pos_bound. lia. }
  assert (u16 sy = sy) as Eusy by (unfold u16; apply Z.mod_small; lia).
  assert (u16 sx = sx) as Eusx by (unfold u16; apply Z.mod_small; lia).
  cbn [src_x src_y dst_x dst_y width height is_clipped base_address]. rewrite Eusy, Eusx.
  assert (u32 (surface_width info - sx) = surface_width info - sx) as ->
    by (apply u32_small; lia).
  assert (u32 (surface_height info - sy) = surface_height info - sy) as ->
    by (apply u32_small; lia).
  assert (0 <= required_width / scale_x <= required_width) as Hrwd.
  { split; [apply Z.div_pos; lia|]. apply Z.div_le_upper_bound; nia. }
  assert (0 <= required_height / scale_y <= required_height) as Hrhd.
  { split; [apply Z.div_pos; lia|]. apply Z.div_le_upper_bound; nia. }
  remember (Z.min (required_width / scale_x) (surface_width info - sx)) as w eqn:Ew.
  remember (Z.min (required_height / scale_y) (surface_height info - sy)) as hh eqn:Eh.
  assert (u16 w = w) as -> by (unfold u16; apply Z.mod_small; lia).
  assert (u16 hh = hh) as -> by (unfold u16; apply Z.mod_small; lia).
  repeat split; try done; lia.
Qed.

(** The records a scan adds carry the address of their map entry and the
    flag of the scan. *)
Lemma scan_result_keys mem hp texaddr rw rh rp limit depth (l : list (Z * handle)) acc :
  NoDup l.*1 ->
  exists added,
    scan_result (foldl (scan_step mem hp texaddr rw rh rp limit depth) acc l)
    = scan_result acc ++ added
    /\ NoDup ((fun r => (base_address r, is_depth r)) <$> added)
    /\ forall r, r ∈ added -> base_address r ∈ l.*1 /\ is_depth r = depth.
Proof.
  revert acc. induction l as [|e l IH]; intros acc Hnd.
  - exists []. simpl. rewrite app_nil_r. split; [done|]. split; [constructor|].
    by intros r ?%elem_of_nil.
  - rewrite fmap_cons in Hnd. apply NoDup_cons in Hnd as [Hnot Hnd]. simpl.
    remember (scan_step mem hp texaddr rw rh rp limit depth acc e) as acc' eqn:Ea.
    destruct (IH acc' Hnd) as (added & Heq & Hadd & Hkeys). rewrite Heq.
    unfold scan_step in Ea.
    destruct (process_candidate mem hp texaddr rw rh rp limit depth e)
      as [|surf|surf info] eqn:Hc; subst acc'; simpl.
    + exists added. split; [done|]. split; [done|]. intros r Hr.
      destruct (Hkeys r Hr) as [Hb Hd]. split; [by apply list_elem_of_further|done].
    + exists added. split; [done|]. split; [done|]. intros r Hr.
      destruct (Hkeys r Hr) as [Hb Hd]. split; [by apply list_elem_of_further|done].
    + apply process_candidate_overlapping in Hc as (d & _ & _ & _ & Hinfo).
      pose proof (project_overlap_identity e.2 e.1 depth (get_surface_info d)
                    (if aa_gt (read_aa_mode d) center_1_sample then 2 else 1)
                    (if aa_gt (read_aa_mode d) diagonal_centered_2_samples then 2 else 1)
                    texaddr rw rh rp) as (_ & Hbase & Hdepth & _).
      rewrite <- Hinfo in Hbase, Hdepth.
      exists (info :: added). rewrite <- app_assoc. split; [done|]. split.
      * rewrite fmap_cons. apply NoDup_cons. split; [|done].
        intros Hin. apply list_elem_of_fmap in Hin as (r & Hr & Hin).
        destruct (Hkeys r Hin) as [Hb _]. apply Hnot.
        injection Hr as Hr _. by rewrite <- Hbase, Hr.
      * intros r Hr. apply elem_of_cons in Hr as [->|Hr].
        -- split; [|done]. rewrite Hbase. apply list_elem_of_here.
        -- destruct (Hkeys r Hr) as [Hb Hd]. split; [by apply list_elem_of_further|done].
Qed.

(** X25.  [get_merged_texture_memory_region] returns at most one record for
    each stored surface: no two records of a result have both the same
    base address and the same depth flag. *)
Theorem query_results_distinct (mem : guest_memory)
  (texaddr required_width required_height required_pitch : Z) (s : surface_store) :
  NoDup ((fun r => (base_address r, is_depth r))
           <$> (get_merged_texture_memory_region mem texaddr required_width
                  required_height required_pitch s).1).
Proof.
  unfold get_merged_texture_memory_region. cbn [fst].
  remember (u32 (texaddr + u32 (required_pitch * required_height))) as limit eqn:El.
  clear El.
  remember (foldl _ (foldl _ s _) _) as s' eqn:Es'. clear Es'.
  remember (if overlaps _ (m_render_targets_memory_range s) then _ else _)
    as acc1 eqn:E1.
  remember (if overlaps _ (m_depth_stencil_memory_range s) then _ else acc1)
    as acc2 eqn:E2.
  assert (exists added,
            scan_result acc1 = added
            /\ NoDup ((fun r => (base_address r, is_depth r)) <$> added)
            /\ forall r, r ∈ added -> is_depth r = false) as (add1 & H1 & Hnd1 & Hk1).
  { subst acc1. destruct (overlaps _ (m_render_targets_memory_range s)).
    - unfold process_list_function.
      destruct (scan_result_keys mem (heap s) texaddr required_width required_height
                  required_pitch limit false (map_to_list (m_render_targets_storage s))
                  (mk_scan [] [] []) (NoDup_fst_map_to_list _))
        as (added & Heq & Hnd & Hkeys).
      exists added. split; [done|]. split; [done|]. intros r Hr. by apply Hkeys.
    - exists []. split; [done|]. split; [constructor|]. by intros r ?%elem_of_nil. }
  assert (exists added,
            scan_result acc2 = scan_result acc1 ++ added
            /\ NoDup ((fun r => (base_address r, is_depth r)) <$> added)
            /\ forall r, r ∈ added -> is_depth r = true) as (add2 & H2 & Hnd2 & Hk2).
  { subst acc2. destruct (overlaps _ (m_depth_stencil_memory_range s)).
    - unfold process_list_function.
      destruct (scan_result_keys mem (heap s) texaddr required_width required_height
                  required_pitch limit true (map_to_list (m_depth_stencil_storage s))
                  acc1 (NoDup_fst_map_to_list _))
        as (added & Heq & Hnd & Hkeys).
      exists added. split; [done|]. split; [done|]. intros r Hr. by apply Hkeys.
    - exists []. rewrite app_nil_r. split; [done|]. split; [constructor|].
      by intros r ?%elem_of_nil. }
  clear E1 E2.
  assert (NoDup ((fun r => (base_address r, is_depth r)) <$> scan_result acc2)) as Hnd.
  { rewrite H2, H1, fmap_app. apply NoDup_app. split; [done|]. split; [|done].
    intros k Hin1 Hin2.
    apply list_elem_of_fmap in Hin1 as (r1 & -> & Hr1).
    apply list_elem_of_fmap in Hin2 as (r2 & Heq & Hr2).
    injection Heq as _ Hd. rewrite (Hk1 r1 Hr1), (Hk2 r2 Hr2) in Hd. done. }
  destruct (1 <? length (scan_result acc2))%nat; [|done].
  by rewrite std_sort_perm.
Qed.

End Queries.

(** ** What a bind set leaves bound *)

Section Binding.
Context {T : Traits}.
Hypothesis Hexact : installs_exact_shapes.

Lemma foldl_assign_slot_stable surface_addresses (m : gmap Z handle) indexes b (i : nat) :
  b !! i = Some (array_at surface_addresses i, m !! array_at surface_addresses i) ->
  foldl (assign_slot surface_addresses m) b indexes !! i
  = Some (array_at surface_addresses i, m !! array_at surface_addresses i).
Proof.
  revert b. induction indexes as [|j l IH]; intros b Hb; [done|].
  simpl. apply IH. unfold assign_slot.
  destruct (array_at surface_addresses j =? 0); [done|].
  destruct (decide (j = i)) as [->|Hne].
  - apply list_lookup_insert_eq. by apply lookup_lt_Some in Hb.
  - by rewrite list_lookup_insert_ne.
Qed.

Lemma foldl_assign_slot_hit surface_addresses (m : gmap Z handle) indexes b (i : nat) :
  i ∈ indexes -> array_at surface_addresses i <> 0 -> (i < length b)%nat ->
  foldl (assign_slot surface_addresses m) b indexes !! i
  = Some (array_at surface_addresses i, m !! array_at surface_addresses i).
Proof.
  revert b. induction indexes as [|j l IH]; intros b Hin Hnz Hlen;
    [by apply elem_of_nil in Hin|].
  simpl. destruct (decide (j = i)) as [->|Hne].
  - apply foldl_assign_slot_stable. unfold assign_slot.
    apply Z.eqb_neq in Hnz. rewrite Hnz. by apply list_lookup_insert_eq.
  - apply elem_of_cons in Hin as [->|Hin]; [done|]. apply IH; [done..|].
    unfold assign_slot. destruct (_ =? 0); [done|]. by rewrite length_insert.
Qed.

Lemma foldl_assign_slot_miss surface_addresses (m : gmap Z handle) indexes b (i : nat) :
  ~ (i ∈ indexes /\ array_at surface_addresses i <> 0) ->
  foldl (assign_slot surface_addresses m) b indexes !! i = b !! i.
Proof.
  revert b. induction indexes as [|j l IH]; intros b Hno; [done|].
  simpl. rewrite IH.
  - unfold assign_slot. destruct (array_at surface_addresses j =? 0) eqn:E; [done|].
    apply list_lookup_insert_ne. intros ->. apply Hno. split; [apply list_elem_of_here|].
    by apply Z.eqb_neq.
  - intros [Hin Hnz]. apply Hno. split; [by apply list_elem_of_further|done].
Qed.

Lemma stored_with_shape_inv p (m : gmap Z handle) address s :
  stored_with_shape p m address s = true ->
  exists surf d, m !! address = Some surf /\ heap s !! surf = Some d /\ p d = true.
Proof.
  unfold stored_with_shape, on_storage.
  destruct (m !! address) as [surf|] eqn:Hm; [|done].
  destruct (heap s !! surf) as [d|] eqn:Hd; [|done]. intros Hp. by exists surf, d.
Qed.

(** X20.  With a backend whose exact shape test accepts the surfaces a bind
    installs, in a store whose live pointers are below the next allocated
    one, and for a bind set none of whose active colour addresses is the
    depth address: after [prepare_render_target] every slot whose index the
    target selects and whose address is not 0 holds that address and a
    surface that is stored there in the colour map, with nothing in the
    depth map, and has the requested format, width and height; every other
    colour slot is (0, null); the depth slot holds the depth address and a
    surface of the requested shape stored there in the depth map, or
    (0, null) when the depth address is 0. *)
Theorem prepare_render_target_binds
  (color_format : surface_color_format) (depth_format : surface_depth_format)
  (clip_horizontal_reg clip_vertical_reg : Z) (set_surface_target : surface_target)
  (antialias : surface_antialiasing) (surface_addresses : list Z) (address_z : Z)
  (surface_pitch : list Z) (zeta_pitch : Z) (s : surface_store) :
  heap_fresh s = true ->
  (forall idx, idx ∈ get_rtt_indexes set_surface_target ->
     array_at surface_addresses idx <> 0 -> array_at surface_addresses idx <> address_z) ->
  let s' := prepare_render_target color_format depth_format clip_horizontal_reg
              clip_vertical_reg set_surface_target antialias surface_addresses
              address_z surface_pitch zeta_pitch s in
  length (m_bound_render_targets s') = length (m_bound_render_targets s)
  /\ (forall i : nat, (i < length (m_bound_render_targets s))%nat ->
        i ∈ get_rtt_indexes set_surface_target -> array_at surface_addresses i <> 0 ->
        exists surf d,
          m_bound_render_targets s' !! i = Some (array_at surface_addresses i, Some surf)
          /\ m_render_targets_storage s' !! array_at surface_addresses i = Some surf
          /\ m_depth_stencil_storage s' !! array_at surface_addresses i = None
          /\ heap s' !! surf = Some d
          /\ rtt_has_format_width_height d color_format clip_horizontal_reg
               clip_vertical_reg false = true)
  /\ (forall i : nat, (i < length (m_bound_render_targets s))%nat ->
        ~ (i ∈ get_rtt_indexes set_surface_target /\ array_at surface_addresses i <> 0) ->
        m_bound_render_targets s' !! i = Some (0, None))
  /\ (address_z <> 0 ->
      exists surf d,
        m_bound_depth_stencil s' = (address_z, Some surf)
        /\ m_depth_stencil_storage s' !! address_z = Some surf
        /\ m_render_targets_storage s' !! address_z = None
        /\ heap s' !! surf = Some d
        /\ ds_has_format_width_height d depth_format clip_horizontal_reg
             clip_vertical_reg false = true)
  /\ (address_z = 0 -> m_bound_depth_stencil s' = (0, None)).
Proof.
  intros Hf Hapart s'.
  destruct (prepare_render_target_settles Hexact color_format depth_format
              clip_horizontal_reg clip_vertical_reg set_surface_target antialias
              surface_addresses address_z surface_pitch zeta_pitch s Hf Hapart)
    as (Hcol & Hdep & Hb & Hz).
  fold s' in Hcol, Hdep, Hb, Hz. unfold slots_of in Hb.
  split; [|split; [|split; [|split]]].
  - by rewrite Hb, length_foldl_assign_slot, length_replicate.
  - intros i Hi Hin Hnz. destruct (Hcol i Hin Hnz) as [Hshape Hnone].
    apply stored_with_shape_inv in Hshape as (surf & d & Hl & Hd & Hp).
    exists surf, d. repeat split; try done.
    rewrite Hb, foldl_assign_slot_hit, Hl; [done..|]. by rewrite length_replicate.
  - intros i Hi Hno. rewrite Hb, foldl_assign_slot_miss by done.
    by apply lookup_replicate_2.
  - intros Hnz. destruct (Hdep Hnz) as [Hshape Hnone].
    apply stored_with_shape_inv in Hshape as (surf & d & Hl & Hd & Hp).
    exists surf, d. repeat split; try done.
    rewrite Hz. unfold depth_slot_of. apply Z.eqb_neq in Hnz. by rewrite Hnz, Hl.
  - intros ->. by rewrite Hz.
Qed.

End Binding.

Lemma prepare_render_target_binds_witness :
  exists surf d,
    m_bound_render_targets s1_store !! 0%nat = Some (16777216, Some surf)
    /\ m_render_targets_storage s1_store !! 16777216 = Some surf
    /\ m_depth_stencil_storage s1_store !! 16777216 = None
    /\ heap s1_store !! surf = Some d
    /\ rtt_has_format_width_height (Traits := sample_backend) d a8r8g8b8 640 480 false
       = true.
Proof.
  destruct (prepare_render_target_binds (T := sample_backend)
              sample_backend_installs_exact_shapes a8r8g8b8 z24s8 640 480 surface_a
              center_1_sample [16777216; 0; 0; 0] 0 [2560; 0; 0; 0] 0 empty_store)
    as (_ & Hcol & _).
  - vm_compute. reflexivity.
  - intros idx _ Hnz. exact Hnz.
  - apply (Hcol 0%nat).
    + vm_compute. lia.
    + vm_compute. apply list_elem_of_here.
    + discriminate.
Defined.

Lemma overlap_projection_before_texaddr_witness :
  let r := mk_surface_overlap_info 1%nat 16777216 false true 250 10 0 0 390 100 in
  src_y r = (16803816 - 16777216) / 2560 / 1
  /\ src_x r = (16803816 - 16777216) mod 2560 / 4 / 1
  /\ width r = Z.min (640 / 1) (640 - src_x r)
  /\ src_x r + width r <= 640.
Proof.
  destruct (overlap_projection_before_texaddr (T := sample_backend) zero_memory
              (heap s1_store) 16803816 640 100 2560 (u32 (16803816 + u32 (2560 * 100)))
              false 16777216 1%nat 1%nat
              (sample_surface false 16777216 640 480 2560 None)
              (mk_surface_overlap_info 1%nat 16777216 false true 250 10 0 0 390 100))
    as (_ & _ & _ & _ & Hy & Hx & Hw & _ & _ & Hin & _).
  - vm_compute. reflexivity.
  - vm_compute. reflexivity.
  - vm_compute. split; [discriminate|reflexivity].
  - vm_compute. reflexivity.
  - vm_compute. reflexivity.
  - vm_compute. reflexivity.
  - vm_compute. split; [discriminate|reflexivity].
  - vm_compute. split; [discriminate|reflexivity].
  - vm_compute. split; [discriminate|reflexivity].
  - vm_compute. split; [discriminate|reflexivity].
  - vm_compute. discriminate.
  - vm_compute. discriminate.
  - split; [exact Hy|split; [exact Hx|split; [exact Hw|exact Hin]]].
Defined.

(** ** Ownership of storages *)

Section Ownership.
Context {T : Traits}.

Lemma values_insert (m : gmap Z handle) A x :
  m !! A = None -> (map_to_list (<[A := x]> m)).*2 ≡ₚ x :: (map_to_list m).*2.
Proof. intros Hn. by rewrite (map_to_list_insert m A x Hn). Qed.

Lemma values_delete (m : gmap Z handle) A x :
  m !! A = Some x -> (map_to_list m).*2 ≡ₚ x :: (map_to_list (delete A m)).*2.
Proof. intros Hs. by rewrite <- (map_to_list_delete m A x Hs). Qed.

Lemma conserves_refl s s' :
  invalidated_resources s' = invalidated_resources s ->
  m_render_targets_storage s' = m_render_targets_storage s ->
  m_depth_stencil_storage s' = m_depth_stencil_storage s ->
  next_handle s' = next_handle s -> conserves s s'.
Proof.
  intros Hp Hc Hz Hn. unfold conserves, owned. rewrite Hp, Hc, Hz, Hn.
  split; [done|]. rewrite Nat.sub_diag. simpl. by rewrite app_nil_r.
Qed.

Lemma conserves_permuted s s' :
  owned s' ≡ₚ owned s -> next_handle s' = next_handle s -> conserves s s'.
Proof.
  intros Ho Hn. unfold conserves. rewrite Ho, Hn.
  split; [done|]. rewrite Nat.sub_diag. simpl. by rewrite app_nil_r.
Qed.

Lemma conserves_trans s1 s2 s3 : conserves s1 s2 -> conserves s2 s3 -> conserves s1 s3.
Proof.
  unfold conserves. intros [Hn1 Ho1] [Hn2 Ho2]. split; [lia|].
  rewrite Ho2, Ho1, <- app_assoc.
  replace (next_handle s3 - next_handle s1)%nat
    with ((next_handle s2 - next_handle s1) + (next_handle s3 - next_handle s2))%nat by lia.
  rewrite seq_app.
  by replace (next_handle s1 + (next_handle s2 - next_handle s1))%nat
    with (next_handle s2) by lia.
Qed.

Lemma retire_render_target_conserves address st s :
  m_render_targets_storage s !! address = Some st ->
  conserves s (retire_render_target address st s).
Proof.
  intros Hs. apply conserves_permuted; [|done]. unfold owned. simpl.
  rewrite (values_delete _ _ _ Hs). solve_Permutation.
Qed.

Lemma retire_depth_stencil_conserves address st s :
  m_depth_stencil_storage s !! address = Some st ->
  conserves s (retire_depth_stencil address st s).
Proof.
  intros Hs. apply conserves_permuted; [|done]. unfold owned. simpl.
  rewrite (values_delete _ _ _ Hs). solve_Permutation.
Qed.

Lemma invalidate_surface_address_conserves addr depth s :
  conserves s (invalidate_surface_address addr depth s).
Proof.
  unfold invalidate_surface_address.
  destruct (address_is_bound addr s); [by apply conserves_refl|]. destruct (negb depth).
  - destruct (m_render_targets_storage s !! addr) eqn:E; [|by apply conserves_refl].
    by apply retire_render_target_conserves.
  - destruct (m_depth_stencil_storage s !! addr) eqn:E; [|by apply conserves_refl].
    by apply retire_depth_stencil_conserves.
Qed.

Lemma invalidate_single_surface_conserves surf depth s :
  conserves s (invalidate_single_surface surf depth s).
Proof.
  unfold invalidate_single_surface.
  pose proof (find_storage_of (m_render_targets_storage s) surf) as Hc.
  pose proof (find_storage_of (m_depth_stencil_storage s) surf) as Hz.
  destruct (negb depth).
  - destruct (find _ (map_to_list (m_render_targets_storage s))) as [[A x]|];
      [|by apply conserves_refl].
    destruct Hc as [-> Hc]. by apply retire_render_target_conserves.
  - destruct (find _ (map_to_list (m_depth_stencil_storage s))) as [[A x]|];
      [|by apply conserves_refl].
    destruct Hz as [-> Hz]. by apply retire_depth_stencil_conserves.
Qed.

Lemma evict_aliased_depth_conserves address s :
  conserves s (evict_aliased_depth address s).2
  /\ m_depth_stencil_storage (evict_aliased_depth address s).2 !! address = None
  /\ m_render_targets_storage (evict_aliased_depth address s).2
     = m_render_targets_storage s.
Proof.
  unfold evict_aliased_depth.
  destruct (m_depth_stencil_storage s !! address) as [st|] eqn:E; simpl.
  - split; [|by rewrite lookup_delete_eq]. apply conserves_permuted; [|done].
    unfold owned. simpl. rewrite (values_delete _ _ _ E). solve_Permutation.
  - split; [by apply conserves_refl|done].
Qed.

Lemma evict_aliased_rtt_conserves address s :
  conserves s (evict_aliased_rtt address s).2
  /\ m_render_targets_storage (evict_aliased_rtt address s).2 !! address = None
  /\ m_depth_stencil_storage (evict_aliased_rtt address s).2
     = m_depth_stencil_storage s.
Proof.
  unfold evict_aliased_rtt.
  destruct (m_render_targets_storage s !! address) as [st|] eqn:E; simpl.
  - split; [|by rewrite lookup_delete_eq]. apply conserves_permuted; [|done].
    unfold owned. simpl. rewrite (values_delete _ _ _ E). solve_Permutation.
  - split; [by apply conserves_refl|done].
Qed.

(** Installing at a free address: the store gains [old_surface], which the
    caller has taken out of the map, and the storage the backend creates
    when the pool has none to offer. *)
Lemma install_render_target_owned address color_format antialias width height pitch
  old_surface convert_surface s :
  m_render_targets_storage s !! address = None ->
  let r := install_render_target address color_format antialias width height pitch
             old_surface convert_surface s in
  (next_handle s <= next_handle r.2)%nat
  /\ owned r.2 ≡ₚ owned s ++ option_list old_surface
                 ++ seq (next_handle s) (next_handle r.2 - next_handle s).
Proof.
  intros Hn r. unfold r, install_render_target. cbn zeta.
  change (invalidated_resources (set_render_targets_memory_range ?x ?y))
    with (invalidated_resources y).
  destruct (find_reusable _ (invalidated_resources s)) as [[[pre hit] post]|] eqn:Ef.
  - apply find_reusable_split in Ef as [Hpool _].
    destruct old_surface as [o|]; unfold owned; simpl; rewrite Hpool;
      rewrite (values_insert _ _ _ Hn), Nat.sub_diag; simpl;
      (split; [done|solve_Permutation]).
  - destruct old_surface as [o|]; unfold owned; simpl;
      rewrite (values_insert _ _ _ Hn);
      replace (S (next_handle s) - next_handle s)%nat with 1%nat by lia; simpl;
      (split; [lia|solve_Permutation]).
Qed.

Lemma install_depth_stencil_owned address depth_format antialias width height pitch
  old_surface convert_surface s :
  m_depth_stencil_storage s !! address = None ->
  let r := install_depth_stencil address depth_format antialias width height pitch
             old_surface convert_surface s in
  (next_handle s <= next_handle r.2)%nat
  /\ owned r.2 ≡ₚ owned s ++ option_list old_surface
                 ++ seq (next_handle s) (next_handle r.2 - next_handle s).
Proof.
  intros Hn r. unfold r, install_depth_stencil. cbn zeta.
  change (invalidated_resources (set_depth_stencil_memory_range ?x ?y))
    with (invalidated_resources y).
  destruct (find_reusable _ (invalidated_resources s)) as [[[pre hit] post]|] eqn:Ef.
  - apply find_reusable_split in Ef as [Hpool _].
    destruct old_surface as [o|]; unfold owned; simpl; rewrite Hpool;
      rewrite (values_insert _ _ _ Hn), Nat.sub_diag; simpl;
      (split; [done|solve_Permutation]).
  - destruct old_surface as [o|]; unfold owned; simpl;
      rewrite (values_insert _ _ _ Hn);
      replace (S (next_handle s) - next_handle s)%nat with 1%nat by lia; simpl;
      (split; [lia|solve_Permutation]).
Qed.

Lemma bind_address_as_render_targets_conserves address color_format antialias width
  height pitch s :
  conserves s (bind_address_as_render_targets address color_format antialias width
                 height pitch s).2.
Proof.
  unfold bind_address_as_render_targets.
  destruct (evict_aliased_depth_conserves address s) as (He & _ & _).
  destruct (evict_aliased_depth address s) as [convert_surface s1]. simpl in He.
  apply (conserves_trans s s1); [done|]. clear He.
  destruct (m_render_targets_storage s1 !! address) as [rtt|] eqn:El.
  - destruct (on_storage _ s1 rtt).
    + apply conserves_refl; by destruct (on_storage _ s1 rtt).
    + pose proof (install_render_target_owned address color_format antialias width height
                    pitch (Some rtt) convert_surface
                    (set_render_targets_storage
                       (delete address (m_render_targets_storage s1)) s1)
                    (lookup_delete_eq _ _)) as [Hn Ho].
      split; [done|]. rewrite Ho. unfold owned. simpl.
      rewrite (values_delete _ _ _ El). solve_Permutation.
  - pose proof (install_render_target_owned address color_format antialias width height
                  pitch None convert_surface s1 El) as [Hn Ho].
    split; [done|]. by rewrite Ho.
Qed.

Lemma bind_address_as_depth_stencil_conserves address depth_format antialias width
  height pitch s :
  conserves s (bind_address_as_depth_stencil address depth_format antialias width
                 height pitch s).2.
Proof.
  unfold bind_address_as_depth_stencil.
  destruct (evict_aliased_rtt_conserves address s) as (He & _ & _).
  destruct (evict_aliased_rtt address s) as [convert_surface s1]. simpl in He.
  apply (conserves_trans s s1); [done|]. clear He.
  destruct (m_depth_stencil_storage s1 !! address) as [ds|] eqn:El.
  - destruct (on_storage _ s1 ds).
    + apply conserves_refl; by destruct (on_storage _ s1 ds).
    + pose proof (install_depth_stencil_owned address depth_format antialias width height
                    pitch (Some ds) convert_surface
                    (set_depth_stencil_storage
                       (delete address (m_depth_stencil_storage s1)) s1)
                    (lookup_delete_eq _ _)) as [Hn Ho].
      split; [done|]. rewrite Ho. unfold owned. simpl.
      rewrite (values_delete _ _ _ El). solve_Permutation.
  - pose proof (install_depth_stencil_owned address depth_format antialias width height
                  pitch None convert_surface s1 El) as [Hn Ho].
    split; [done|]. by rewrite Ho.
Qed.

Lemma prepare_render_target_conserves color_format depth_format clip_horizontal_reg
  clip_vertical_reg set_surface_target antialias surface_addresses address_z
  surface_pitch zeta_pitch s :
  conserves s (prepare_render_target color_format depth_format clip_horizontal_reg
                 clip_vertical_reg set_surface_target antialias surface_addresses
                 address_z surface_pitch zeta_pitch s).
Proof.
  unfold prepare_render_target. cbn [get_shared_tag].
  set (sa := set_memory_tree [] _).
  assert (conserves s (sample_bound_render_targets sa)) as Hb.
  { destruct (sample_bound_render_targets_parts sa s eq_refl)
      as (Hbc & Hbd & Hbp & _ & Hbn & _).
    by apply conserves_refl. }
  remember (sample_bound_render_targets sa) as sb eqn:Esb. clear Esb sa.
  assert (conserves s (bind_render_targets color_format antialias clip_horizontal_reg
                         clip_vertical_reg surface_addresses surface_pitch
                         (get_rtt_indexes set_surface_target) sb)) as Hc.
  { unfold bind_render_targets. apply (foldl_invariant (conserves s)); [|done].
    intros s' i Hs'. destruct (array_at surface_addresses i =? 0); [done|].
    pose proof (bind_address_as_render_targets_conserves (array_at surface_addresses i)
                  color_format antialias clip_horizontal_reg clip_vertical_reg
                  (array_at surface_pitch i) s') as Hbind.
    destruct (bind_address_as_render_targets _ _ _ _ _ _ s') as [surf s2].
    apply (conserves_trans s s'); [done|]. apply (conserves_trans s' s2); [done|].
    by apply conserves_refl. }
  remember (bind_render_targets color_format antialias clip_horizontal_reg
              clip_vertical_reg surface_addresses surface_pitch
              (get_rtt_indexes set_surface_target) sb) as sc eqn:Esc. clear Esc.
  remember (match (m_bound_depth_stencil sc).2 with
            | Some surf => call (prepare_ds_for_sampling surf) sc
            | None => sc
            end) as sd eqn:Esd.
  assert (conserves s (set_bound_depth_stencil (0, None) sd)) as Hd.
  { apply (conserves_trans s sc); [done|].
    subst sd. apply conserves_refl; by destruct (m_bound_depth_stencil sc).2. }
  destruct (address_z =? 0); [done|].
  pose proof (bind_address_as_depth_stencil_conserves address_z depth_format antialias
                clip_horizontal_reg clip_vertical_reg zeta_pitch
                (set_bound_depth_stencil (0, None) sd)) as Hbind.
  destruct (bind_address_as_depth_stencil _ _ _ _ _ _ _) as [surf s2].
  apply (conserves_trans s _ _ Hd). apply (conserves_trans _ s2); [done|].
  by apply conserves_refl.
Qed.

(** X22.  Every public member function conserves the storages: after the
    call the invalidated pool and the two maps hold, counted with
    multiplicity, exactly the storages they held before and the ones the
    backend created during the call; none is dropped and none is
    duplicated. *)
Theorem step_conserves_storages (s s' : surface_store) :
  step s s' ->
  (next_handle s <= next_handle s')%nat
  /\ owned s' ≡ₚ owned s ++ seq (next_handle s) (next_handle s' - next_handle s).
Proof.
  intros Hstep. change (conserves s s'). destruct Hstep.
  - apply prepare_render_target_conserves.
  - apply invalidate_single_surface_conserves.
  - apply invalidate_surface_address_conserves.
  - unfold get_merged_texture_memory_region. cbn [snd].
    apply (foldl_invariant (conserves s)).
    + intros s' p Hs'. apply (conserves_trans s s'); [done|].
      apply invalidate_surface_address_conserves.
    + apply conserves_refl.
      * by apply (foldl_keeps invalidated_resources).
      * by apply (foldl_keeps m_render_targets_storage).
      * by apply (foldl_keeps m_depth_stencil_storage).
      * by apply (foldl_keeps next_handle).
  - destruct (on_write_frame_fields mem address s)
      as (Hc & Hz & Hp & _ & _ & _ & _ & Hn & _).
    by apply conserves_refl.
  - by apply conserves_refl.
Qed.

(** X23.  If no storage is held twice, in the pool and the maps together,
    and every held storage was allocated before the next one the backend
    hands out, the same holds after any public member function: a storage
    is never in the pool and in a map, nor in two entries of the maps, at
    once. *)
Theorem step_keeps_storages_unique (s s' : surface_store) :
  step s s' ->
  NoDup (owned s) ->
  Forall (fun h => (h < next_handle s)%nat) (owned s) ->
  NoDup (owned s') /\ Forall (fun h => (h < next_handle s')%nat) (owned s').
Proof.
  intros Hstep Hnd Hlt.
  assert (conserves s s') as [Hn Ho].
  { destruct Hstep.
    - apply prepare_render_target_conserves.
    - apply invalidate_single_surface_conserves.
    - apply invalidate_surface_address_conserves.
    - unfold get_merged_texture_memory_region. cbn [snd].
      apply (foldl_invariant (conserves s)).
      + intros s' p Hs'. apply (conserves_trans s s'); [done|].
        apply invalidate_surface_address_conserves.
      + apply conserves_refl.
        * by apply (foldl_keeps invalidated_resources).
        * by apply (foldl_keeps m_render_targets_storage).
        * by apply (foldl_keeps m_depth_stencil_storage).
        * by apply (foldl_keeps next_handle).
    - destruct (on_write_frame_fields mem address s)
        as (Hc & Hz & Hp & _ & _ & _ & _ & Hn & _).
      by apply conserves_refl.
    - by apply conserves_refl. }
  rewrite Ho. split.
  - apply NoDup_app. split; [done|]. split; [|apply NoDup_seq].
    intros h Hin Hseq. apply elem_of_seq in Hseq.
    rewrite Forall_forall in Hlt. specialize (Hlt h Hin). lia.
  - apply Forall_app. split.
    + eapply Forall_impl; [exact Hlt|]. intros h Hh. simpl in Hh. lia.
    + apply Forall_forall. intros h Hseq. apply elem_of_seq in Hseq. lia.
Qed.

End Ownership.

Lemma step_conserves_storages_witness :
  (next_handle s1_store <= next_handle moved_store)%nat
  /\ owned moved_store
     ≡ₚ owned s1_store
        ++ seq (next_handle s1_store) (next_handle moved_store - next_handle s1_store).
Proof.
  apply (step_conserves_storages (T := sample_backend)).
  unfold moved_store. apply step_prepare_render_target.
Defined.

Lemma step_keeps_storages_unique_witness :
  NoDup (owned moved_store)
  /\ Forall (fun h => (h < next_handle moved_store)%nat) (owned moved_store).
Proof.
  apply (step_keeps_storages_unique (T := sample_backend) s1_store).
  - unfold moved_store. apply step_prepare_render_target.
  - replace (owned s1_store) with [1%nat] by (vm_compute; reflexivity).
    apply NoDup_singleton.
  - replace (owned s1_store) with [1%nat] by (vm_compute; reflexivity).
    replace (next_handle s1_store) with 2%nat by (vm_compute; reflexivity).
    apply Forall_singleton. lia.
Defined.

Lemma on_write_appends_to_tree_witness :
  let b := mk_surface_hierachy_info 33554432 4194304 (Some 2%nat)
             [mk_memory_overlap 1%nat 33570848 8 4 16 16] in
  let s := notify_memory_structure_changed
             (on_write (T := sample_backend) zero_memory 0 s6_store) in
  m_memory_tree s = [b]
  /\ m_memory_tree (on_write (T := sample_backend) zero_memory 0 s) = [b; b].
Proof.
  split; [vm_compute; reflexivity|].
  destruct (on_write_appends_to_tree (T := sample_backend) zero_memory 0
              (notify_memory_structure_changed
                 (on_write (T := sample_backend) zero_memory 0 s6_store)))
    as (_ & _ & Htree).
  - intros _ H. vm_compute in H. discriminate H.
  - rewrite Htree. vm_compute. reflexivity.
Defined.
